(** * Record export pipeline of Flowise: a shallow embedding and its properties

    The development embeds the TypeScript sources of the export module
    (BaseExporter, CSVExporter, JSONExporter, ExportManager) as Rocq
    functions and proves the properties the specification states about them.

    Modelling scope.
    - The data the code is given are JSON-like trees: undefined, null,
      booleans, numbers, strings, objects and arrays.  Objects and arrays
      carry the name of their heap cell, which is what [===] compares.
    - A number is NaN, an infinity, or a signed decimal; [String] prints it
      as the language standard says, in positional or exponent notation.
    - Strings are sequences of code units below 256.
    - An object has a prototype and an ordered list of own enumerable data
      properties.  Reading a property and the [in] operator walk the
      prototype chain, so the members of Object.prototype (constructor,
      toString, __proto__, ...) are found on every plain object, and an
      assignment to [__proto__] reaches the setter.  The built-in methods
      and the prototype objects are values a property can hold; they never
      occur as elements of the data.
    - The file system, the clock and the logger are state threaded through a
      state-and-exception monad; an [async] function is a computation in that
      monad and a rejected promise is a thrown exception.  A file-system
      call that throws may have changed the disk before it did. *)

From Stdlib Require Import ZArith NArith Ascii String List Bool Lia.
From stdpp Require Import base option list strings pretty gmap.

Local Open Scope string_scope.
Local Open Scope list_scope.

(* ================================================================== *)
(** * Part I: the JavaScript data the code manipulates *)
(* ================================================================== *)

Module JS.

(** ** Text *)

Definition dquote : ascii := Eval cbv in ascii_of_nat 34.
Definition linefeed : ascii := Eval cbv in ascii_of_nat 10.
Definition str1 (c : ascii) : string := String c EmptyString.
Definition DQ : string := str1 dquote.
Definition NL : string := str1 linefeed.

(** [Array.prototype.join] on elements that are already strings. *)
Definition join (sep : string) (xs : list string) : string := String.concat sep xs.

(** The global replacement [s.replace(/dq/g, dq dq)], dq the double quote:
    every double quote becomes two. *)
Fixpoint replace_dquotes (s : string) : string :=
  match s with
  | EmptyString => EmptyString
  | String c r =>
      if Ascii.eqb c dquote
      then String dquote (String dquote (replace_dquotes r))
      else String c (replace_dquotes r)
  end.

(** ** Numbers *)

(** A finite number is written [m * 10^e]; every double is one (its
    shortest decimal spelling), and so is every integer and every decimal
    fraction.  The sign of zero is not kept: the code cannot tell -0 from
    0. *)
Inductive number :=
| Decimal (m e : Z)
| NaN
| PosInf
| NegInf.

Definition Int (z : Z) : number := Decimal z 0.

(** A text without its trailing zeros, and how many there were. *)
Fixpoint trailing_zeros (s : string) : string * nat :=
  match s with
  | EmptyString => (EmptyString, 0)
  | String c r =>
      let '(r', n) := trailing_zeros r in
      match r' with
      | EmptyString => if Ascii.eqb c "0" then (EmptyString, S n) else (String c r', n)
      | _ => (String c r', n)
      end
  end.

(** The significant digits of a finite number other than zero, without
    trailing zeros, whether it is negative, and the power of ten of its
    last digit. *)
Definition significand (m e : Z) : option (bool * string * Z) :=
  if (m =? 0)%Z then None
  else let '(ds, z) := trailing_zeros (pretty (Z.abs_N m)) in
       Some ((m <? 0)%Z, ds, (e + Z.of_nat z)%Z).

Definition significand_eqb (a b : option (bool * string * Z)) : bool :=
  match a, b with
  | None, None => true
  | Some (s1, d1, e1), Some (s2, d2, e2) =>
      Bool.eqb s1 s2 && String.eqb d1 d2 && (e1 =? e2)%Z
  | _, _ => false
  end.

(** [===] on numbers: NaN differs from everything, itself included. *)
Definition number_eqb (a b : number) : bool :=
  match a, b with
  | Decimal m1 e1, Decimal m2 e2 =>
      significand_eqb (significand m1 e1) (significand m2 e2)
  | PosInf, PosInf => true
  | NegInf, NegInf => true
  | _, _ => false
  end.

Fixpoint zeros (n : nat) : string :=
  match n with O => EmptyString | S n' => String "0" (zeros n') end.

Fixpoint take_chars (n : nat) (s : string) : string :=
  match n, s with
  | S n', String c r => String c (take_chars n' r)
  | _, _ => EmptyString
  end.

Fixpoint drop_chars (n : nat) (s : string) : string :=
  match n, s with
  | S n', String _ r => drop_chars n' r
  | _, _ => s
  end.

Definition exponent_text (x : Z) : string :=
  (if (0 <=? x)%Z then "+" else "-") +:+ pretty (Z.abs_N x).

(** Number::toString of the language standard on the digits [ds] of a
    positive number whose decimal point stands after the [n]-th digit:
    positional notation when [n] lies between -5 and 21, exponent notation
    otherwise. *)
Definition unsigned_text (ds : string) (n : Z) : string :=
  let k := Z.of_nat (String.length ds) in
  if ((k <=? n) && (n <=? 21))%Z then ds +:+ zeros (Z.to_nat (n - k))
  else if ((0 <? n) && (n <=? 21))%Z
  then take_chars (Z.to_nat n) ds +:+ "." +:+ drop_chars (Z.to_nat n) ds
  else if ((-6 <? n) && (n <=? 0))%Z then "0." +:+ zeros (Z.to_nat (- n)) +:+ ds
  else match ds with
       | EmptyString => EmptyString
       | String d EmptyString => String d ("e" +:+ exponent_text (n - 1))
       | String d r => String d ("." +:+ r +:+ "e" +:+ exponent_text (n - 1))
       end.

(** [String(n)] *)
Definition Number_toString (n : number) : string :=
  match n with
  | Decimal m e =>
      match significand m e with
      | None => "0"
      | Some (negative, ds, e') =>
          (if negative then "-" else "")
          +:+ unsigned_text ds (Z.of_nat (String.length ds) + e')
      end
  | NaN => "NaN"
  | PosInf => "Infinity"
  | NegInf => "-Infinity"
  end.

(** ** Values *)

Definition loc := nat.

(** The prototypes of the runtime that the data can reach: those of plain
    objects, arrays, strings, numbers and booleans. *)
Inductive kind := KObject | KArray | KString | KNumber | KBoolean.

Definition kind_eqb (a b : kind) : bool :=
  match a, b with
  | KObject, KObject | KArray, KArray | KString, KString
  | KNumber, KNumber | KBoolean, KBoolean => true
  | _, _ => false
  end.

(** What a property holds, and what reading a property gives: data, or one
    of the runtime's own objects.  [Inherited home] is the built-in method
    that the prototype of kind [home] holds under the name of the property
    at hand; [Prototype k] is the prototype object of kind [k]. *)
Inductive field_of (V : Type) :=
| Data (v : V)
| Inherited (home : kind)
| Prototype (k : kind).
Arguments Data {V} v.
Arguments Inherited {V} home.
Arguments Prototype {V} k.

(** The prototype of an object: none, the prototype object of a kind, or a
    data object or array. *)
Inductive prototype_of (V : Type) :=
| No_prototype
| Standard (k : kind)
| Custom (v : V).
Arguments No_prototype {V}.
Arguments Standard {V} k.
Arguments Custom {V} v.

Unset Elimination Schemes.
Inductive value :=
| VUndefined
| VNull
| VBool (b : bool)
| VNum (n : number)
| VStr (s : string)
| VObj (l : loc) (proto : prototype_of value) (own : list (string * field_of value))
| VArr (l : loc) (elems : list value).
Set Elimination Schemes.

Abbreviation field := (field_of value).
Abbreviation prototype := (prototype_of value).

(** A plain object, as an object literal or JSON.parse creates it. *)
Definition plain (l : loc) (own : list (string * field)) : value :=
  VObj l (Standard KObject) own.
Arguments plain : simpl never.

(** What holds of the data inside a property or a prototype. *)
Definition inside_field (P : value -> Prop) (f : field) : Prop :=
  match f with Data v => P v | _ => True end.

Definition inside_prototype (P : value -> Prop) (p : prototype) : Prop :=
  match p with Custom v => P v | _ => True end.

(** Structural induction that reaches the values stored inside objects,
    their prototypes and arrays. *)
Definition value_ind (P : value -> Prop)
    (Hundef : P VUndefined) (Hnull : P VNull)
    (Hbool : forall b, P (VBool b)) (Hnum : forall n, P (VNum n))
    (Hstr : forall s, P (VStr s))
    (Hobj : forall l proto own,
        inside_prototype P proto ->
        Forall (fun kv => inside_field P (snd kv)) own -> P (VObj l proto own))
    (Harr : forall l elems, Forall P elems -> P (VArr l elems)) :
    forall v, P v :=
  fix go (v : value) : P v :=
    match v with
    | VUndefined => Hundef
    | VNull => Hnull
    | VBool b => Hbool b
    | VNum n => Hnum n
    | VStr s => Hstr s
    | VObj l proto own =>
        Hobj l proto own
          (match proto as p return inside_prototype P p with
           | Custom v => go v
           | _ => I
           end)
          ((fix fields (ps : list (string * field))
              : Forall (fun kv => inside_field P (snd kv)) ps :=
              match ps with
              | [] => List.Forall_nil _
              | kv :: r =>
                  List.Forall_cons _ kv r
                    (match snd kv as f return inside_field P f with
                     | Data v => go v
                     | _ => I
                     end)
                    (fields r)
              end) own)
    | VArr l elems =>
        Harr l elems
          ((fix items (es : list value) : Forall P es :=
              match es with
              | [] => List.Forall_nil _
              | e :: r => List.Forall_cons _ e r (go e) (items r)
              end) elems)
    end.

(** [a === b]: primitives by value, objects and arrays by reference. *)
Definition strict_eq (a b : value) : bool :=
  match a, b with
  | VUndefined, VUndefined => true
  | VNull, VNull => true
  | VBool x, VBool y => Bool.eqb x y
  | VNum x, VNum y => number_eqb x y
  | VStr x, VStr y => String.eqb x y
  | VObj l1 _ _, VObj l2 _ _ => Nat.eqb l1 l2
  | VArr l1 _, VArr l2 _ => Nat.eqb l1 l2
  | _, _ => false
  end.

(** [found === v] for something read from a property and a data value: a
    built-in method or a prototype object is no data value. *)
Definition reads_as (found : field) (v : value) : bool :=
  match found with
  | Data x => strict_eq x v
  | _ => false
  end.

Definition is_object (v : value) : bool :=
  match v with VObj _ _ _ => true | _ => false end.

(** ** Ordered own properties *)

(** An object's own properties in the order [Object.keys] reports them:
    array-index names first, ascending, then the other names in the order
    they were created. *)
Definition props (A : Type) := list (string * A).

Definition digit_of (c : ascii) : option N :=
  let n := N_of_ascii c in
  if ((48 <=? n) && (n <=? 57))%N then Some (n - 48)%N else None.

Fixpoint digits_value (acc : N) (s : string) : option N :=
  match s with
  | EmptyString => Some acc
  | String c r =>
      match digit_of c with
      | Some d => digits_value (10 * acc + d)%N r
      | None => None
      end
  end.

(** A property name is an array index when it is the canonical decimal
    spelling of an integer below 2^32 - 1. *)
Definition array_index (k : string) : option N :=
  match digits_value 0%N k with
  | Some n =>
      if String.eqb (pretty n) k && (n <? 4294967295)%N then Some n else None
  | None => None
  end.

Definition is_index (k : string) : bool :=
  match array_index k with Some _ => true | None => false end.

Fixpoint get_own {A} (ps : props A) (k : string) : option A :=
  match ps with
  | [] => None
  | (k', v) :: r => if String.eqb k' k then Some v else get_own r k
  end.

Definition has_own {A} (ps : props A) (k : string) : bool :=
  match get_own ps k with Some _ => true | None => false end.

Definition own_keys {A} (ps : props A) : list string := map fst ps.

(** A new value for a name the object already has: the value changes, the
    position does not. *)
Fixpoint update_prop {A} (k : string) (v : A) (ps : props A) : props A :=
  match ps with
  | [] => []
  | (k', v') :: r =>
      if String.eqb k' k then (k', v) :: r else (k', v') :: update_prop k v r
  end.

(** A new array-index name goes before the first name that is a larger index
    or not an index. *)
Fixpoint insert_index {A} (i : N) (k : string) (v : A) (ps : props A) : props A :=
  match ps with
  | [] => [(k, v)]
  | (k', v') :: r =>
      match array_index k' with
      | Some j => if (j <? i)%N then (k', v') :: insert_index i k v r
                  else (k, v) :: ps
      | None => (k, v) :: ps
      end
  end.

(** The own property [k] is given the value [v], as an object literal, a
    spread or an assignment that reaches no setter does it: an existing
    name keeps its place, a new one is added. *)
Definition define_prop {A} (k : string) (v : A) (ps : props A) : props A :=
  if has_own ps k then update_prop k v ps
  else match array_index k with
       | Some i => insert_index i k v ps
       | None => ps ++ [(k, v)]
       end.

(** The own properties of an array, or of a string: one per position. *)
Definition indexed {A} (xs : list A) : props A :=
  imap (fun i x => (pretty (N.of_nat i), x)) xs.

Definition chars (s : string) : list value :=
  map (fun c => VStr (str1 c)) (list_ascii_of_string s).

Definition as_data (p : props value) : props field :=
  map (fun kv => (fst kv, Data (snd kv))) p.

(** The own enumerable properties that [{...item}] copies and that
    [Object.keys(item)] lists; null, undefined, numbers and booleans have
    none. *)
Definition own_enumerable (item : value) : props field :=
  match item with
  | VObj _ _ ps => ps
  | VArr _ es => as_data (indexed es)
  | VStr s => as_data (indexed (chars s))
  | _ => []
  end.

(** ** Exceptions *)

(** Every thrown value is an [Error]; the code only reads its message. *)
Record exn := Error { message : string }.

Inductive result (A : Type) :=
| Ok (a : A)
| Throw (e : exn).
Arguments Ok {A} a.
Arguments Throw {A} e.

Definition TypeError (msg : string) : exn := Error msg.

(** [String(v)]; an array is its elements joined by commas, null and
    undefined elements being empty. *)
Fixpoint String_of (v : value) : string :=
  match v with
  | VUndefined => "undefined"
  | VNull => "null"
  | VBool true => "true"
  | VBool false => "false"
  | VNum n => Number_toString n
  | VStr s => s
  | VObj _ _ _ => "[object Object]"
  | VArr _ es =>
      join "," (map (fun e => match e with
                              | VUndefined | VNull => ""
                              | _ => String_of e
                              end) es)
  end.

(** ** The prototypes of the runtime *)

(** The methods of Object.prototype, each with the text [String] gives it. *)
Definition native_code (name : string) : string :=
  "function " +:+ name +:+ "() { [native code] }".

Definition Object_prototype_methods : props string :=
  [("constructor", native_code "Object");
   ("__defineGetter__", native_code "__defineGetter__");
   ("__defineSetter__", native_code "__defineSetter__");
   ("hasOwnProperty", native_code "hasOwnProperty");
   ("__lookupGetter__", native_code "__lookupGetter__");
   ("__lookupSetter__", native_code "__lookupSetter__");
   ("isPrototypeOf", native_code "isPrototypeOf");
   ("propertyIsEnumerable", native_code "propertyIsEnumerable");
   ("toString", native_code "toString");
   ("valueOf", native_code "valueOf");
   ("toLocaleString", native_code "toLocaleString")].

(** The methods of the other prototypes differ from one version of the
    runtime to the next; the development holds for any of them.  Besides
    its methods Object.prototype holds the accessor [__proto__], and
    Array.prototype and String.prototype hold a [length] of 0.  None of
    these prototypes holds a [toJSON]. *)
Class Runtime := {
  prototype_methods : kind -> props string
}.

Section WithRuntime.
Context `{Runtime}.

Definition methods (home : kind) : props string :=
  match home with
  | KObject => Object_prototype_methods
  | _ => prototype_methods home
  end.

(** The text of the method a prototype holds under a name, when it holds
    one. *)
Definition method_text (home : kind) (name : string) : option string :=
  if String.eqb name "__proto__" then None else get_own (methods home) name.

(** Where a search along a prototype chain ends: at a property that holds a
    value, at the accessor [__proto__] of Object.prototype, or nowhere. *)
Inductive found :=
| Found (f : field)
| Accessor
| Nowhere.

(** The own properties of the prototype object of a kind. *)
Definition at_prototype (k : kind) (key : string) : found :=
  if String.eqb key "__proto__"
  then match k with KObject => Accessor | _ => Nowhere end
  else if has_own (methods k) key then Found (Inherited k)
  else match k with
       | KArray | KString =>
           if String.eqb key "length" then Found (Data (VNum (Int 0))) else Nowhere
       | _ => Nowhere
       end.

(** The prototype of a kind and then Object.prototype. *)
Definition from_prototype (k : kind) (key : string) : found :=
  match at_prototype k key with
  | Nowhere => match k with KObject => Nowhere | _ => at_prototype KObject key end
  | f => f
  end.

Definition nth_element (es : list value) (key : string) : option value :=
  match array_index key with
  | Some i => es !! N.to_nat i
  | None => None
  end.

(** The own properties of an array or a string: its length and its
    positions. *)
Definition own_indexed (es : list value) (key : string) : option value :=
  if String.eqb key "length" then Some (VNum (Int (Z.of_nat (List.length es))))
  else nth_element es key.

(** What an own property holds: a method is there only if its home has one
    of that name. *)
Definition held (key : string) (f : field) : field :=
  match f with
  | Inherited home =>
      match method_text home key with
      | Some _ => Inherited home
      | None => Data VUndefined
      end
  | _ => f
  end.

(** The search for [key] in the own properties of a value and then along
    its prototype chain. *)
Fixpoint search (v : value) (key : string) : found :=
  match v with
  | VUndefined | VNull => Nowhere
  | VBool _ => from_prototype KBoolean key
  | VNum _ => from_prototype KNumber key
  | VStr s =>
      match own_indexed (chars s) key with
      | Some x => Found (Data x)
      | None => from_prototype KString key
      end
  | VArr _ es =>
      match own_indexed es key with
      | Some x => Found (Data x)
      | None => from_prototype KArray key
      end
  | VObj _ proto ps =>
      match get_own ps key with
      | Some f => Found (held key f)
      | None =>
          match proto with
          | No_prototype => Nowhere
          | Standard k => from_prototype k key
          | Custom p => search p key
          end
      end
  end.

(** The prototype of a value, as the getter of [__proto__] returns it. *)
Definition prototype_reading (v : value) : field :=
  match v with
  | VObj _ No_prototype _ => Data VNull
  | VObj _ (Standard k) _ => Prototype k
  | VObj _ (Custom p) _ => Data p
  | VArr _ _ => Prototype KArray
  | VStr _ => Prototype KString
  | VNum _ => Prototype KNumber
  | VBool _ => Prototype KBoolean
  | VUndefined | VNull => Data VUndefined
  end.

(** ** Property access on arbitrary values *)

(** [item[key]]: a TypeError on null and undefined (message as V8 words it);
    otherwise the own property, else what the prototype chain holds, else
    [undefined]. *)
Definition get_prop (item : value) (key : string) : result field :=
  match item with
  | VUndefined | VNull =>
      Throw (TypeError ("Cannot read properties of " +:+ String_of item
                        +:+ " (reading '" +:+ key +:+ "')"))
  | _ =>
      Ok (match search item key with
          | Found f => f
          | Accessor => prototype_reading item
          | Nowhere => Data VUndefined
          end)
  end.

(** [key in item]: a TypeError unless [item] is an object or an array; own
    and inherited properties alike are found. *)
Definition has_property (key : string) (item : value) : result bool :=
  match item with
  | VObj _ _ _ | VArr _ _ =>
      Ok (match search item key with Nowhere => false | _ => true end)
  | _ =>
      Throw (TypeError ("Cannot use 'in' operator to search for '" +:+ key
                        +:+ "' in " +:+ String_of item))
  end.

(** What the setter of [__proto__] does with the value it is given: an
    object or null becomes the prototype, anything else is ignored. *)
Definition as_prototype (f : field) : option prototype :=
  match f with
  | Data VNull => Some No_prototype
  | Data (VObj l p ps) => Some (Custom (VObj l p ps))
  | Data (VArr l es) => Some (Custom (VArr l es))
  | Prototype k => Some (Standard k)
  | Inherited _ => None
  | Data _ => None
  end.

(** [obj[key] = f] on an object: an own property is given the value; else
    the prototype chain is searched, and when the search ends at the
    accessor [__proto__] its setter runs instead. *)
Definition set_prop (key : string) (f : field) (obj : value) : value :=
  match obj with
  | VObj l proto ps =>
      if has_own ps key then VObj l proto (define_prop key f ps)
      else
        match match proto with
              | No_prototype => Nowhere
              | Standard k => from_prototype k key
              | Custom p => search p key
              end with
        | Accessor =>
            match as_prototype f with
            | Some proto' => VObj l proto' ps
            | None => obj
            end
        | _ => VObj l proto (define_prop key f ps)
        end
  | _ => obj
  end.

(** [String(f)] for what a read of [key] gave. *)
Definition text_of_field (key : string) (f : field) : string :=
  match f with
  | Data v => String_of v
  | Inherited home => default "undefined" (method_text home key)
  | Prototype KObject => "[object Object]"
  | Prototype KArray | Prototype KString => ""
  | Prototype KNumber => "0"
  | Prototype KBoolean => "false"
  end.

(** [Object.keys(item)] *)
Definition Object_keys (item : value) : result (list string) :=
  match item with
  | VUndefined | VNull => Throw (TypeError "Cannot convert undefined or null to object")
  | _ => Ok (own_keys (own_enumerable item))
  end.

End WithRuntime.

(** ** JSON.stringify *)

Definition hex_digit (n : N) : ascii :=
  ascii_of_N (if (n <? 10)%N then 48 + n else 87 + n)%N.

Definition backslash : ascii := Eval cbv in ascii_of_nat 92.

(** A backslash and one more character. *)
Definition escaped (c : string) : string := String backslash c.

(** One code unit inside a JSON string literal. *)
Definition json_escape (c : ascii) : string :=
  let n := N_of_ascii c in
  if (n =? 34)%N then escaped DQ
  else if (n =? 92)%N then escaped (str1 backslash)
  else if (n =? 8)%N then escaped "b"
  else if (n =? 12)%N then escaped "f"
  else if (n =? 10)%N then escaped "n"
  else if (n =? 13)%N then escaped "r"
  else if (n =? 9)%N then escaped "t"
  else if (n <? 32)%N
       then escaped ("u00" +:+ String (hex_digit (n / 16)) (str1 (hex_digit (n mod 16))))
  else str1 c.

Fixpoint json_escape_all (s : string) : string :=
  match s with
  | EmptyString => EmptyString
  | String c r => json_escape c +:+ json_escape_all r
  end.

Definition json_quote (s : string) : string := DQ +:+ json_escape_all s +:+ DQ.

(** The text of an object or array from the texts of its parts: [gap] is the
    indentation unit (empty for the compact form), [stepback] the indentation
    of the enclosing level and [indent] that of the parts. *)
Definition json_wrap (opening closing gap stepback indent : string)
    (parts : list string) : string :=
  match parts with
  | [] => opening +:+ closing
  | _ =>
      if String.eqb gap ""
      then opening +:+ join "," parts +:+ closing
      else opening +:+ NL +:+ indent +:+ join ("," +:+ NL +:+ indent) parts
           +:+ NL +:+ stepback +:+ closing
  end.

Definition json_member (gap key text : string) : string :=
  json_quote key +:+ ":" +:+ (if String.eqb gap "" then "" else " ") +:+ text.

(** The JSON text of a prototype object: Object.prototype and
    Array.prototype have no enumerable property, the other three wrap the
    empty string, zero and false. *)
Definition prototype_json (k : kind) : string :=
  match k with
  | KObject => "{}"
  | KArray => "[]"
  | KString => DQ +:+ DQ
  | KNumber => "0"
  | KBoolean => "false"
  end.

(** A value as a property or element: [None] stands for the [undefined] that
    makes an object skip the property and an array write [null].  A method
    is skipped as [undefined] is. *)
Fixpoint stringify (gap indent : string) (v : value) : option string :=
  match v with
  | VUndefined => None
  | VNull => Some "null"
  | VBool b => Some (if b then "true" else "false")
  | VNum (Decimal m e) => Some (Number_toString (Decimal m e))
  | VNum _ => Some "null"
  | VStr s => Some (json_quote s)
  | VObj _ _ ps =>
      let inner := indent +:+ gap in
      Some (json_wrap "{" "}" gap indent inner
              (omap (fun kv =>
                       match match snd kv with
                             | Data x => stringify gap inner x
                             | Inherited _ => None
                             | Prototype k => Some (prototype_json k)
                             end with
                       | Some text => Some (json_member gap (fst kv) text)
                       | None => None
                       end) ps))
  | VArr _ es =>
      let inner := indent +:+ gap in
      Some (json_wrap "[" "]" gap indent inner
              (map (fun e => default "null" (stringify gap inner e)) es))
  end.

(** The same for what a property holds. *)
Definition stringify_field (gap indent : string) (f : field) : option string :=
  match f with
  | Data x => stringify gap indent x
  | Inherited _ => None
  | Prototype k => Some (prototype_json k)
  end.

(** [JSON.stringify(v)] and [JSON.stringify(v, null, 2)] *)
Definition JSON_stringify (v : value) : option string := stringify "" "" v.
Definition JSON_stringify_pretty (v : value) : option string := stringify "  " "" v.

End JS.
(* ================================================================== *)
(** * Part II: the Node.js environment *)
(* ================================================================== *)

Module Node.
Import JS.

(** The parts of [fs] and [path] the exporters call.  [mkdirSync] is the
    recursive form and [writeFileSync] writes utf8 text; each returns or
    throws, and leaves a file system behind in either case: a write that
    fails half-way has already created or truncated the file. *)
Class FileSystem (Disk : Type) := {
  dirname : string -> string;
  existsSync : Disk -> string -> bool;
  mkdirSync : Disk -> string -> result unit * Disk;
  writeFileSync : Disk -> string -> string -> result unit * Disk
}.

Inductive level := Info | Warn | Err.

(** What a call can read and change: the file system, the clock (the
    sequence of its readings and how many were taken), the next free heap
    cell, and the lines the logger has written. *)
Record World (Disk : Type) := mkWorld {
  fs : Disk;
  clock : nat -> string;
  ticks : nat;
  next_loc : loc;
  log : list (level * string)
}.
Arguments mkWorld {Disk}.
Arguments fs {Disk}.
Arguments clock {Disk}.
Arguments ticks {Disk}.
Arguments next_loc {Disk}.
Arguments log {Disk}.

(** Computations that read and change the world and may throw. *)
Definition M (Disk A : Type) : Type := World Disk -> result A * World Disk.

Definition ret {Disk A} (a : A) : M Disk A := fun w => (Ok a, w).

Definition bind {Disk A B} (c : M Disk A) (k : A -> M Disk B) : M Disk B :=
  fun w => match c w with
           | (Ok a, w') => k a w'
           | (Throw e, w') => (Throw e, w')
           end.

Definition lift {Disk A} (r : result A) : M Disk A := fun w => (r, w).

(** [try { c } catch (error) { handler error }] *)
Definition try_catch {Disk A} (c : M Disk A) (handler : exn -> M Disk A) : M Disk A :=
  fun w => match c w with
           | (Ok a, w') => (Ok a, w')
           | (Throw e, w') => handler e w'
           end.

Definition bind_result {A B} (r : result A) (k : A -> result B) : result B :=
  match r with
  | Ok a => k a
  | Throw e => Throw e
  end.

Fixpoint map_result {A B} (f : A -> result B) (xs : list A) : result (list B) :=
  match xs with
  | [] => Ok []
  | x :: r =>
      bind_result (f x) (fun y =>
      bind_result (map_result f r) (fun ys => Ok (y :: ys)))
  end.

(** [xs.map(f)] for a callback with effects: elements in order, the first
    exception ends the traversal. *)
Fixpoint mapM {Disk A B} (f : A -> M Disk B) (xs : list A) : M Disk (list B) :=
  match xs with
  | [] => ret []
  | x :: r => bind (f x) (fun y => bind (mapM f r) (fun ys => ret (y :: ys)))
  end.

(** A fresh heap cell for an object or array literal. *)
Definition alloc {Disk} : M Disk loc :=
  fun w => (Ok (next_loc w),
            mkWorld (fs w) (clock w) (ticks w) (S (next_loc w)) (log w)).

(** [new Date().toISOString()]: the next reading of the clock. *)
Definition Date_toISOString {Disk} : M Disk string :=
  fun w => (Ok (clock w (ticks w)),
            mkWorld (fs w) (clock w) (S (ticks w)) (next_loc w) (log w)).

(** [logger.info], [logger.warn], [logger.error] *)
Definition logger_log {Disk} (lvl : level) (msg : string) : M Disk unit :=
  fun w => (Ok tt,
            mkWorld (fs w) (clock w) (ticks w) (next_loc w) (log w ++ [(lvl, msg)])).

Definition with_fs {Disk} (w : World Disk) (fs' : Disk) : World Disk :=
  mkWorld fs' (clock w) (ticks w) (next_loc w) (log w).

(** A file-system call that returns nothing. *)
Definition fs_call {Disk} (op : Disk -> result unit * Disk) : M Disk unit :=
  fun w => let '(r, fs') := op (fs w) in (r, with_fs w fs').

(** The lines both exporters run before writing: the directory of the target
    is created when it does not exist. *)
Definition ensure_dir `{FileSystem Disk} (outputPath : string) : M Disk unit :=
  let dir := dirname outputPath in
  fun w => if negb (existsSync (fs w) dir)
           then fs_call (fun f => mkdirSync f dir) w
           else (Ok tt, w).

End Node.

Declare Scope js_scope.
Notation "'let*' x ':=' c 'in' k" := (Node.bind c (fun x => k))
  (at level 10, x name, c at level 100, k at level 200) : js_scope.
Notation "'let?' x ':=' c 'in' k" := (Node.bind_result c (fun x => k))
  (at level 10, x name, c at level 100, k at level 200) : js_scope.
Notation "c ';;' k" := (Node.bind c (fun _ => k))
  (at level 100, k at level 200, right associativity, only parsing) : js_scope.
Local Open Scope js_scope.

(* ================================================================== *)
(** * Part III: the export module *)
(* ================================================================== *)

Import JS Node.

(** ** BaseExporter *)

Module BaseExporter.

Section WithRuntime.
Context `{Runtime}.

Record ExportOptions := mkOptions {
  includeMetadata : option bool;
  customFields : option (list string);
  filterOptions : option (props value)
}.

(** The callback of [data.filter] in [filterData]: the loop over
    [Object.entries(filterOptions)]. *)
Fixpoint matches_filter (item : value) (entries : props value) : result bool :=
  match entries with
  | [] => Ok true
  | (key, value) :: rest =>
      let? found := get_prop item key in
      if negb (reads_as found value) then Ok false
      else matches_filter item rest
  end.

Fixpoint filterData (data : list value) (filterOptions : props value)
    : result (list value) :=
  match data with
  | [] => Ok []
  | item :: rest =>
      let? keep := matches_filter item filterOptions in
      let? kept := filterData rest filterOptions in
      Ok (if keep then item :: kept else kept)
  end.

(** The body of [fields.forEach] in [selectFields], [acc] being the object
    [result]. *)
Fixpoint select_loop (item : value) (fields : list string) (acc : value)
    : result value :=
  match fields with
  | [] => Ok acc
  | field :: rest =>
      let? present := has_property field item in
      if present
      then let? found := get_prop item field in
           select_loop item rest (set_prop field found acc)
      else select_loop item rest acc
  end.

End WithRuntime.

Section WithFS.
Context `{Runtime} {Disk : Type}.

Definition select_item (fields : list string) (item : value) : M Disk value :=
  let* l := alloc in
  let* selected := lift (select_loop item fields (plain l [])) in
  ret selected.

Definition selectFields (data : list value) (fields : list string)
    : M Disk (list value) :=
  mapM (select_item fields) data.

(** [{ ...item, _exportedAt: timestamp, _exportVersion: '1.0.0' }] *)
Definition stamp (timestamp : string) (item : value) : props field :=
  define_prop "_exportVersion" (Data (VStr "1.0.0"))
    (define_prop "_exportedAt" (Data (VStr timestamp)) (own_enumerable item)).

Definition stamp_item (timestamp : string) (item : value) : M Disk value :=
  let* l := alloc in
  ret (plain l (stamp timestamp item)).

Definition addMetadata (data : list value) : M Disk (list value) :=
  let* timestamp := Date_toISOString in
  mapM (stamp_item timestamp) data.

(** The collection arrays are passed as the lists of their elements: the
    code never compares two of them, so [[...data]] is the list itself. *)
Definition processData (data : value) (options : option ExportOptions)
    : M Disk (list value) :=
  match data with
  | VArr _ elems =>
      let processedData := elems in
      let* processedData :=
        match options ≫= filterOptions with
        | Some criteria => lift (filterData processedData criteria)
        | None => ret processedData
        end in
      let* processedData :=
        match options ≫= customFields with
        | Some fields =>
            if Nat.ltb 0 (List.length fields)
            then selectFields processedData fields
            else ret processedData
        | None => ret processedData
        end in
      let* processedData :=
        match options ≫= includeMetadata with
        | Some true => addMetadata processedData
        | _ => ret processedData
        end in
      ret processedData
  | _ => ret []
  end.

End WithFS.
End BaseExporter.

(** ** CSVExporter *)

Module CSVExporter.
Import BaseExporter.

(** One cell of [convertToCSV], for a data value.  In the last two cases
    the code returns the number or boolean itself and [join] turns it into
    text. *)
Definition csv_cell (value : value) : result string :=
  match value with
  | VNull | VUndefined => Ok ""
  | VObj _ _ _ | VArr _ _ =>
      match JSON_stringify value with
      | Some text => Ok (DQ +:+ replace_dquotes text +:+ DQ)
      | None => Throw (TypeError "Cannot read properties of undefined (reading 'replace')")
      end
  | VStr s => Ok (DQ +:+ replace_dquotes s +:+ DQ)
  | VNum n => Ok (Number_toString n)
  | VBool b => Ok (String_of (VBool b))
  end.

Section WithRuntime.
Context `{Runtime}.

(** One cell, for whatever [item[header]] gave.  A prototype object is an
    object and goes through JSON.stringify; a method is neither an object
    nor a string, so the code returns it and [join] writes its text. *)
Definition csv_cell_of (header : string) (value : field) : result string :=
  match value with
  | Data v => csv_cell v
  | Prototype k => Ok (DQ +:+ replace_dquotes (prototype_json k) +:+ DQ)
  | Inherited home =>
      match method_text home header with
      | Some text => Ok text
      | None => Ok ""
      end
  end.

Definition csv_row (headers : list string) (item : value) : result string :=
  let? cells := map_result (fun header =>
                  let? value := get_prop item header in
                  csv_cell_of header value) headers in
  Ok (join "," cells).

Definition convertToCSV (data : list value) (headers : list string)
    : result string :=
  let headerRow := join "," headers in
  let? rows := map_result (csv_row headers) data in
  Ok (join NL (headerRow :: rows)).

End WithRuntime.

Section WithFS.
Context `{Runtime} `{FileSystem Disk}.

(** The [try] block of [export]. *)
Definition try_block (data : value) (outputPath : string)
    (options : option ExportOptions) : M Disk bool :=
  let* processedData := processData data options in
  if Nat.eqb (List.length processedData) 0
  then logger_log Warn "No data to export to CSV" ;; ret false
  else
    ensure_dir outputPath ;;
    let* headers := lift (Object_keys (default VUndefined (processedData !! 0%nat))) in
    let* csvContent := lift (convertToCSV processedData headers) in
    fs_call (fun f => writeFileSync f outputPath csvContent) ;;
    logger_log Info ("Successfully exported " +:+ pretty (List.length processedData)
                     +:+ " records to CSV: " +:+ outputPath) ;;
    ret true.

(** The [catch] block of [export]. *)
Definition catch_block (error : exn) : M Disk bool :=
  logger_log Err ("Error exporting to CSV: " +:+ message error) ;;
  ret false.

Definition export (data : value) (outputPath : string)
    (options : option ExportOptions) : M Disk bool :=
  try_catch (try_block data outputPath options) catch_block.

End WithFS.
End CSVExporter.

(** ** JSONExporter *)

Module JSONExporter.
Import BaseExporter.

Section WithFS.
Context `{Runtime} `{FileSystem Disk}.

(** The object literal [exportData].  The array that holds the collection
    gets its cell here, where it is first stored in an object. *)
Definition envelope (processedData : list value) : M Disk value :=
  let* outer := alloc in
  let* inner := alloc in
  let* exportedAt := Date_toISOString in
  let* arr := alloc in
  ret (plain outer
         [("metadata",
           Data (plain inner
             [("exportedAt", Data (VStr exportedAt));
              ("recordCount", Data (VNum (Int (Z.of_nat (List.length processedData)))));
              ("version", Data (VStr "1.0.0"))]));
          ("data", Data (VArr arr processedData))]).

(** [JSON.stringify(exportData, null, 2)]; an object always has a text. *)
Definition pretty_text (exportData : value) : result string :=
  match JSON_stringify_pretty exportData with
  | Some text => Ok text
  | None => Throw (TypeError "The data argument must be of type string")
  end.

(** The [try] block of [export]. *)
Definition try_block (data : value) (outputPath : string)
    (options : option ExportOptions) : M Disk bool :=
  let* processedData := processData data options in
  if Nat.eqb (List.length processedData) 0
  then logger_log Warn "No data to export to JSON" ;; ret false
  else
    ensure_dir outputPath ;;
    let* exportData := envelope processedData in
    let* text := lift (pretty_text exportData) in
    fs_call (fun f => writeFileSync f outputPath text) ;;
    logger_log Info ("Successfully exported " +:+ pretty (List.length processedData)
                     +:+ " records to JSON: " +:+ outputPath) ;;
    ret true.

(** The [catch] block of [export]. *)
Definition catch_block (error : exn) : M Disk bool :=
  logger_log Err ("Error exporting to JSON: " +:+ message error) ;;
  ret false.

Definition export (data : value) (outputPath : string)
    (options : option ExportOptions) : M Disk bool :=
  try_catch (try_block data outputPath options) catch_block.

End WithFS.
End JSONExporter.

(** ** ExportManager *)

Module ExportManager.
Import BaseExporter.

(** [enum ExportFormat]; at run time a format is any string. *)
Definition CSV : string := "csv".
Definition JSON : string := "json".
Definition PDF : string := "pdf".

Section WithFS.
Context `{Runtime} `{FileSystem Disk}.

(** The [export] method of a [BaseExporter]. *)
Definition Exporter : Type :=
  value -> string -> option ExportOptions -> M Disk bool.

Record ExportRequest := mkRequest {
  data : value;
  format : string;
  outputPath : string;
  options : option ExportOptions
}.

Record ExportManager := mkManager { exporters : gmap string Exporter }.

Definition registerExporter (format : string) (exporter : Exporter)
    (this : ExportManager) : ExportManager :=
  mkManager (<[format := exporter]> (exporters this)).

(** The constructor.  PDFExporter is not among the sources at hand; its
    [export] method is the argument. *)
Definition new_ExportManager (PDFExporter_export : Exporter) : ExportManager :=
  registerExporter PDF PDFExporter_export
    (registerExporter JSON JSONExporter.export
       (registerExporter CSV CSVExporter.export (mkManager ∅))).

(** [!data || !Array.isArray(data) || data.length === 0] *)
Definition no_data (data : value) : bool :=
  match data with
  | VArr _ elems => Nat.eqb (List.length elems) 0
  | _ => true
  end.

Definition export (this : ExportManager) (request : ExportRequest) : M Disk bool :=
  if no_data (data request)
  then logger_log Err "No data to export" ;; ret false
  else
    match exporters this !! format request with
    | None =>
        logger_log Err ("Unsupported export format: " +:+ format request) ;;
        ret false
    | Some exporter =>
        try_catch
          (let* result := exporter (data request) (outputPath request)
                                   (options request) in
           ret result)
          (fun error =>
             logger_log Err ("Export failed: " +:+ message error) ;;
             ret false)
    end.

(** The [for ... of] loop of [exportMultiple], [results] being the object
    it fills. *)
Fixpoint exportMultiple_loop (this : ExportManager) (data : value)
    (basePath : string) (formats : list string)
    (options : option ExportOptions) (results : value)
    : M Disk value :=
  match formats with
  | [] => ret results
  | format :: rest =>
      let outputPath := basePath +:+ "." +:+ format in
      let* result := export this (mkRequest data format outputPath options) in
      exportMultiple_loop this data basePath rest options
        (set_prop format (Data (VBool result)) results)
  end.

Definition exportMultiple (this : ExportManager) (data : value)
    (basePath : string) (formats : list string)
    (options : option ExportOptions) : M Disk value :=
  let* l := alloc in
  exportMultiple_loop this data basePath formats options (plain l []).

End WithFS.
End ExportManager.

(** ** The data export service *)

Module DataExportService.
Import BaseExporter.

(** What [exportData] takes from its surroundings: [os.tmpdir()],
    [path.join] on two arguments, [String.prototype.toUpperCase],
    [getErrorMessage] of the errors module, [uuidv4()], and
    [getEntityData], which builds and runs a database query through the
    ORM; the service is modelled for any behaviour of these. *)
Class Surroundings (Disk : Type) := {
  tmpdir : string;
  path_join : string -> string -> string;
  toUpperCase : string -> string;
  getErrorMessage : exn -> string;
  uuidv4 : M Disk string;
  getEntityData : string -> option string -> option (props value) -> M Disk value
}.

Record DataExportRequest := mkExportRequest {
  entityType : string;
  entityId : option string;
  format : string;
  options : option ExportOptions;
  filter : option (props value)
}.

Record DataExportResponse := mkResponse {
  success : bool;
  filePath : option string;
  message : option string;
  error : option string
}.

(** [!v]: the values JavaScript takes for false. *)
Definition falsy (v : value) : bool :=
  match v with
  | VUndefined | VNull | VBool false | VNum NaN => true
  | VNum (Decimal m _) => Z.eqb m 0
  | VStr s => String.eqb s ""
  | _ => false
  end.

(** [entityId ? text(entityId) : ''], an empty id counting as absent. *)
Definition if_given (entityId : option string) (text : string -> string) : string :=
  match entityId with
  | Some id => if String.eqb id "" then "" else text id
  | None => ""
  end.

(** [data.length] of a value that is not null or undefined. *)
Definition length_of `{Runtime} (data : value) : field :=
  match get_prop data "length" with
  | Ok n => n
  | Throw _ => Data VUndefined
  end.

(** [!data || data.length === 0] *)
Definition nothing_found `{Runtime} (data : value) : bool :=
  falsy data || reads_as (length_of data) (VNum (Int 0)).

Section WithSurroundings.
Context `{Runtime} `{FileSystem Disk} `{!Surroundings Disk}.

(** [if (!fs.existsSync(dir)) fs.mkdirSync(dir, { recursive: true })] *)
Definition ensure_exists (dir : string) : M Disk unit :=
  fun w => if negb (existsSync (fs w) dir)
           then fs_call (fun f => mkdirSync f dir) w
           else (Ok tt, w).

Definition tempDir : string := path_join tmpdir "flowise-exports".

Definition not_found_response (request : DataExportRequest) : DataExportResponse :=
  mkResponse false None
    (Some ("No data found for " +:+ entityType request
           +:+ if_given (entityId request) (fun id => " with ID " +:+ id)))
    None.

Definition exported_response (request : DataExportRequest) (data : value)
    (outputPath : string) : DataExportResponse :=
  mkResponse true (Some outputPath)
    (Some ("Successfully exported " +:+ text_of_field "length" (length_of data)
           +:+ " records to " +:+ toUpperCase (format request)))
    None.

Definition failed_response (request : DataExportRequest) : DataExportResponse :=
  mkResponse false None None
    (Some ("Failed to export data to " +:+ toUpperCase (format request))).

(** The target of an export: the temporary directory, then the entity
    type, the id when given, the uuid and the format. *)
Definition target_of (request : DataExportRequest) (uuid : string) : string :=
  path_join tempDir
    ((entityType request +:+ if_given (entityId request) (fun id => "-" +:+ id)
      +:+ "-" +:+ uuid) +:+ "." +:+ format request).

Definition error_response (e : exn) : DataExportResponse :=
  mkResponse false None None (Some (getErrorMessage e)).

(** The [try] block of [exportData]; [exportManager] is the singleton as it
    stands when the call is made. *)
Definition exportData_try (exportManager : @ExportManager.ExportManager Disk)
    (request : DataExportRequest) : M Disk DataExportResponse :=
  let* data := getEntityData (entityType request) (entityId request) (filter request) in
  if nothing_found data
  then ret (not_found_response request)
  else
    ensure_exists tempDir ;;
    let* uuid := uuidv4 in
    let fileName := entityType request
                    +:+ if_given (entityId request) (fun id => "-" +:+ id)
                    +:+ "-" +:+ uuid in
    let outputPath := path_join tempDir (fileName +:+ "." +:+ format request) in
    let* exported :=
      ExportManager.export exportManager
        (ExportManager.mkRequest data (format request) outputPath (options request)) in
    if exported
    then ret (exported_response request data outputPath)
    else ret (failed_response request).

(** The [catch] block of [exportData]. *)
Definition exportData_catch (e : exn) : M Disk DataExportResponse :=
  logger_log Err ("Error in exportData: " +:+ getErrorMessage e) ;;
  ret (mkResponse false None None (Some (getErrorMessage e))).

Definition exportData (exportManager : @ExportManager.ExportManager Disk)
    (request : DataExportRequest) : M Disk DataExportResponse :=
  try_catch (exportData_try exportManager request) exportData_catch.

(** The call of [getEntityData] that opens the [try] block. *)
Definition fetch (request : DataExportRequest) : M Disk value :=
  getEntityData (entityType request) (entityId request) (filter request).

(** What the [catch] block makes of an exception thrown in world [w]. *)
Definition caught (e : exn) (w : World Disk)
    : result DataExportResponse * World Disk :=
  (Ok (error_response e),
   mkWorld (fs w) (clock w) (ticks w) (next_loc w)
     (log w ++ [(Err, "Error in exportData: " +:+ getErrorMessage e)])).

End WithSurroundings.
End DataExportService.

(* ================================================================== *)
(** * Part IV: a file system and a runtime to run the code on *)
(* ================================================================== *)

(** A small in-memory file system: directories, files, the paths that
    refuse to be opened, and the room left on the device, in characters. *)
Module MemDisk.

Record disk := mkDisk {
  dirs : list string;
  files : list (string * string);
  readonly : list string;
  room : nat
}.

Definition slash : ascii := Eval cbv in ascii_of_nat 47.

(** The text before the last slash; [.] when there is none. *)
Fixpoint before_last_slash (s : string) : option string :=
  match s with
  | EmptyString => None
  | String c r =>
      match before_last_slash r with
      | Some d => Some (String c d)
      | None => if Ascii.eqb c slash then Some EmptyString else None
      end
  end.

Definition mem_dirname (p : string) : string :=
  match before_last_slash p with
  | Some EmptyString => "/"
  | Some d => d
  | None => "."
  end.

Definition mem_exists (d : disk) (p : string) : bool :=
  bool_decide (p ∈ dirs d) || has_own (files d) p.

Definition mem_mkdir (d : disk) (p : string) : result unit * disk :=
  if bool_decide (p ∈ readonly d)
  then (Throw (Error ("EACCES: permission denied, mkdir '" +:+ p +:+ "'")), d)
  else (Ok tt, mkDisk (p :: dirs d) (files d) (readonly d) (room d)).

(** The file is opened, which creates or empties it, and then written; a
    text longer than the room left fails after the file was opened. *)
Definition mem_write (d : disk) (p text : string) : result unit * disk :=
  if bool_decide (p ∈ readonly d)
  then (Throw (Error ("EACCES: permission denied, open '" +:+ p +:+ "'")), d)
  else if bool_decide (mem_dirname p ∈ dirs d)
  then if Nat.leb (String.length text) (room d)
       then (Ok tt, mkDisk (dirs d) (define_prop p text (files d)) (readonly d) (room d))
       else (Throw (Error "ENOSPC: no space left on device, write"),
             mkDisk (dirs d) (define_prop p "" (files d)) (readonly d) (room d))
  else (Throw (Error ("ENOENT: no such file or directory, open '" +:+ p +:+ "'")), d).

#[global] Instance mem_fs : FileSystem disk := {
  dirname := mem_dirname;
  existsSync := mem_exists;
  mkdirSync := mem_mkdir;
  writeFileSync := mem_write
}.

Definition empty_disk : disk := mkDisk ["/"; "."] [] [] 1000.

(** A world whose clock reads [t0], [t1], ... *)
Definition world0 (d : disk) : World disk :=
  mkWorld d (fun n => "t" +:+ pretty n) 0 100 [].

End MemDisk.

(** A runtime to run the code on.  The examples run on records, whose
    chain is Object.prototype alone; of the methods of the other four
    prototypes this runtime has only a few. *)
Module SampleRuntime.

Definition sample_methods (k : kind) : props string :=
  match k with
  | KObject => []
  | KArray => [("constructor", native_code "Array"); ("map", native_code "map");
               ("join", native_code "join"); ("toString", native_code "toString")]
  | KString => [("constructor", native_code "String");
                ("toUpperCase", native_code "toUpperCase");
                ("toString", native_code "toString")]
  | KNumber => [("constructor", native_code "Number");
                ("toFixed", native_code "toFixed");
                ("toString", native_code "toString")]
  | KBoolean => [("constructor", native_code "Boolean");
                 ("toString", native_code "toString")]
  end.

#[global] Instance sample : Runtime := {| prototype_methods := sample_methods |}.

End SampleRuntime.



(** Surroundings to run the service in: a fixed uuid, a fixed answer of the
    database, upper case for the letters a to z. *)
Module MemService.

Definition upper (c : ascii) : ascii :=
  let n := N_of_ascii c in
  if ((97 <=? n) && (n <=? 122))%N then ascii_of_N (n - 32) else c.

Fixpoint ascii_upper (s : string) : string :=
  match s with
  | EmptyString => EmptyString
  | String c r => String (upper c) (ascii_upper r)
  end.

Definition answering (data : result value)
    : DataExportService.Surroundings MemDisk.disk := {|
  DataExportService.tmpdir := "/tmp";
  DataExportService.path_join := fun a b => a +:+ "/" +:+ b;
  DataExportService.toUpperCase := ascii_upper;
  DataExportService.getErrorMessage := JS.message;
  DataExportService.uuidv4 := ret "uuid-1";
  DataExportService.getEntityData := fun _ _ _ => lift data
|}.

End MemService.

(* ================================================================== *)
(** * Part V: the vocabulary of the specification *)
(* ================================================================== *)

(** A record is an object; its fields are its own properties. *)
Definition is_record (v : value) : Prop := is_object v = true.

Definition fields_of (v : value) : props field :=
  match v with VObj _ _ ps => ps | _ => [] end.

Definition prototype_slot (v : value) : prototype :=
  match v with VObj _ proto _ => proto | _ => No_prototype end.

(** A record as an object literal or JSON.parse makes it: its prototype is
    Object.prototype. *)
Definition is_plain (v : value) : Prop :=
  exists l own, v = plain l own.


(** The names every plain object inherits: the methods of Object.prototype
    and its accessor. *)
Definition inherited_names : list string :=
  ["constructor"; "__defineGetter__"; "__defineSetter__"; "hasOwnProperty";
   "__lookupGetter__"; "__lookupSetter__"; "isPrototypeOf";
   "propertyIsEnumerable"; "toString"; "valueOf"; "toLocaleString";
   "__proto__"].

Section RecordVocabulary.
Context `{Runtime}.

(** The value of a record at a field, as [record[f]] reads it: the own
    field, else what the prototype chain holds under the name, else
    [undefined]. *)
Definition field_value (record : value) (f : string) : field :=
  match search record f with
  | Found x => x
  | Accessor => prototype_reading record
  | Nowhere => Data VUndefined
  end.

(** A record has a field, as [f in record] tells: own or inherited. *)
Definition has_field (record : value) (f : string) : bool :=
  match search record f with Nowhere => false | _ => true end.

(** Filter: every (field, value) pair of the filter matches the record. *)
Definition satisfies (criteria : props value) (record : value) : bool :=
  forallb (fun fv => reads_as (field_value record (fst fv)) (snd fv)) criteria.

(** Project: the fields of the selection that the record has. *)
Definition present_in (record : value) (selection : list string) : list string :=
  List.filter (has_field record) selection.

End RecordVocabulary.

(** The names of a list that are not array indices. *)
Definition names_only (ks : list string) : list string :=
  List.filter (fun k => negb (is_index k)) ks.

(** The order in which a JavaScript object lists its names: array indices
    ascending, then the other names. *)
Inductive js_ordered : list string -> Prop :=
| ordered_names ks :
    Forall (fun k => is_index k = false) ks -> js_ordered ks
| ordered_index k i ks :
    array_index k = Some i ->
    Forall (fun k' => forall j, array_index k' = Some j -> (i < j)%N) ks ->
    js_ordered ks ->
    js_ordered (k :: ks).

(** A list without its repetitions, each name at its first occurrence;
    [seen] are the names already taken. *)
Fixpoint first_occurrences_from (seen ks : list string) : list string :=
  match ks with
  | [] => []
  | k :: r =>
      if bool_decide (k ∈ seen) then first_occurrences_from seen r
      else k :: first_occurrences_from (k :: seen) r
  end.

Definition first_occurrences (ks : list string) : list string :=
  first_occurrences_from [] ks.

(** Annotate: the two reserved names. *)
Definition reserved (k : string) : Prop :=
  k = "_exportedAt" \/ k = "_exportVersion".

(** A configuration that asks for nothing: no filter, no selection (an
    empty one selects nothing either), no metadata. *)
Definition no_options (options : option BaseExporter.ExportOptions) : Prop :=
  options ≫= BaseExporter.filterOptions = None /\
  (options ≫= BaseExporter.customFields = None \/
   options ≫= BaseExporter.customFields = Some []) /\
  options ≫= BaseExporter.includeMetadata <> Some true.

Definition is_array (v : value) : bool :=
  match v with VArr _ _ => true | _ => false end.

(** The pieces of a text between its double quotes. *)
Fixpoint segments (s : string) : list string :=
  match s with
  | EmptyString => [EmptyString]
  | String c r =>
      if Ascii.eqb c dquote then EmptyString :: segments r
      else match segments r with
           | piece :: pieces => String c piece :: pieces
           | [] => [String c EmptyString]
           end
  end.

(** A text between double quotes, each double quote inside it written
    twice. *)
Definition quote_wrapped (s : string) : string :=
  DQ +:+ join (DQ +:+ DQ) (segments s) +:+ DQ.

Section TabularVocabulary.
Context `{Runtime}.

(** Tabular text, as the specification words it: one cell per header by the
    type of the value, rows comma-joined, the header row first, lines
    newline-joined.  What a header finds on the prototype chain also makes
    a cell: a built-in method is written as its source text, a prototype
    object as any other object. *)
Definition cell_text (header : string) (found : field) : string :=
  match found with
  | Data VNull | Data VUndefined => ""
  | Data (VObj l proto ps) => quote_wrapped (default "" (JSON_stringify (VObj l proto ps)))
  | Data (VArr l es) => quote_wrapped (default "" (JSON_stringify (VArr l es)))
  | Data (VStr s) => quote_wrapped s
  | Data (VNum n) => Number_toString n
  | Data (VBool true) => "true"
  | Data (VBool false) => "false"
  | Prototype k => quote_wrapped (prototype_json k)
  | Inherited home => default "" (method_text home header)
  end.

Definition row_text (headers : list string) (record : value) : string :=
  join "," (map (fun h => cell_text h (field_value record h)) headers).

Definition tabular_text (headers : list string) (records : list value) : string :=
  join NL (join "," headers :: map (row_text headers) records).

End TabularVocabulary.

(** A text on one line: no line feed and no other control character. *)
Definition printable (c : ascii) : bool := (32 <=? N_of_ascii c)%N.

Fixpoint single_line (s : string) : bool :=
  match s with
  | EmptyString => true
  | String c r => printable c && single_line r
  end.

(** The two encoder variants at hand. *)
Inductive variant := Tabular | Structured.

Definition variant_name (v : variant) : string :=
  match v with Tabular => "CSV" | Structured => "JSON" end.

Definition encoder_export `{Runtime} `{FileSystem Disk} (v : variant)
    : value -> string -> option BaseExporter.ExportOptions -> M Disk bool :=
  match v with
  | Tabular => CSVExporter.export
  | Structured => JSONExporter.export
  end.

(** The world after the logger wrote one more line. *)
Definition logged {Disk} (lvl : level) (msg : string) (w : World Disk) : World Disk :=
  mkWorld (fs w) (clock w) (ticks w) (next_loc w) (log w ++ [(lvl, msg)]).

(** The world after [n] heap cells were taken. *)
Definition allocated {Disk} (n : nat) (w : World Disk) : World Disk :=
  mkWorld (fs w) (clock w) (ticks w) (n + next_loc w) (log w).

(** The world after one reading of the clock. *)
Definition ticked {Disk} (w : World Disk) : World Disk :=
  mkWorld (fs w) (clock w) (S (ticks w)) (next_loc w) (log w).

(** One round of the loop of [selectFields] on a record. *)
Definition select_step `{Runtime} (record acc : value) (f : string) : value :=
  if has_field record f then set_prop f (field_value record f) acc else acc.

(** The same on the own properties alone, for a name that reaches no
    setter. *)
Definition select_own `{Runtime} (record : value) (ps : props field) (f : string)
    : props field :=
  if has_field record f then define_prop f (field_value record f) ps else ps.

(** Project, as the specification words it, with the order JavaScript gives
    the names: [projected] is a new object holding exactly the selected
    fields the record has, own or inherited, with the values the record
    gives them; its names are listed array indices first, and the other
    names in the order of the selection.  The name [__proto__] stands
    apart: selecting it reaches the setter of the new object, so it is no
    field like the others; without it the new object is a plain one. *)
Definition projection `{Runtime} {Disk} (selection : list string) (w : World Disk)
    (record projected : value) : Prop :=
  exists l proto sel,
    projected = VObj l proto sel /\
    next_loc w <= l /\
    (forall k, k <> "__proto__" ->
       (k ∈ own_keys sel <-> k ∈ selection /\ has_field record k = true)) /\
    (forall k, k <> "__proto__" -> k ∈ own_keys sel ->
       get_own sel k = Some (field_value record k)) /\
    NoDup (own_keys sel) /\
    js_ordered (own_keys sel) /\
    ("__proto__" ∉ selection ->
       proto = Standard KObject /\
       names_only (own_keys sel)
         = first_occurrences (names_only (present_in record selection)) /\
       (Forall (fun k => is_index k = false) selection ->
        own_keys sel = first_occurrences (present_in record selection))).

(** Annotate, as the specification words it: [stamped] is a new plain object
    with the two reserved fields set, whatever the item held under those
    names, and every other field as the item has it. *)
Definition annotated {Disk} (timestamp : string) (w : World Disk)
    (item stamped : value) : Prop :=
  exists l ps,
    stamped = plain l ps /\
    next_loc w <= l /\
    get_own ps "_exportedAt" = Some (Data (VStr timestamp)) /\
    get_own ps "_exportVersion" = Some (Data (VStr "1.0.0")) /\
    (forall k, ~ reserved k -> get_own ps k = get_own (own_enumerable item) k) /\
    (forall k, k ∈ own_keys ps <-> k ∈ own_keys (own_enumerable item) \/ reserved k).

(** ** The dispatcher, as the specification words it *)

Section DispatchVocabulary.
Context `{Runtime} `{FileSystem Disk}.
Import ExportManager.

(** The outcome of a single-format request, case by case. *)
Definition dispatch_outcome (this : @ExportManager Disk) (request : ExportRequest)
    (w : World Disk) : result bool * World Disk :=
  if no_data (data request)
  then (Ok false, logged Err "No data to export" w)
  else
    match exporters this !! format request with
    | None =>
        (Ok false, logged Err ("Unsupported export format: " +:+ format request) w)
    | Some encoder =>
        match encoder (data request) (outputPath request) (options request) w with
        | (Ok outcome, w') => (Ok outcome, w')
        | (Throw e, w') =>
            (Ok false, logged Err ("Export failed: " +:+ message e) w')
        end
    end.

(** The target of a kind: the prefix, a dot, the kind. *)
Definition target (basePath kind : string) : string := basePath +:+ "." +:+ kind.

(** One single-format export per requested kind, in the order given. *)
Definition export_each (this : @ExportManager Disk) (data : value) (basePath : string)
    (options : option BaseExporter.ExportOptions) (kinds : list string)
    : M Disk (list bool) :=
  mapM (fun kind => export this (mkRequest data kind (target basePath kind) options))
       kinds.

(** The mapping that records each kind's outcome; the name [__proto__]
    gets no entry. *)
Fixpoint collect (kinds : list string) (outcomes : list bool)
    (results : props field) : props field :=
  match kinds, outcomes with
  | kind :: ks, outcome :: bs =>
      collect ks bs
        (if String.eqb kind "__proto__" then results
         else define_prop kind (Data (VBool outcome)) results)
  | _, _ => results
  end.

End DispatchVocabulary.

(** ** The encoders, as the specification words them *)

Section EncoderVocabulary.
Context `{Runtime} `{FileSystem Disk}.

Definition encoder_try (v : variant)
    : value -> string -> option BaseExporter.ExportOptions -> M Disk bool :=
  match v with
  | Tabular => CSVExporter.try_block
  | Structured => JSONExporter.try_block
  end.

(** The text an encoder is about to write. *)
Definition serialize (v : variant) (records : list value) : M Disk string :=
  match v with
  | Tabular =>
      lift (let? headers := Object_keys (default VUndefined (records !! 0%nat)) in
            CSVExporter.convertToCSV records headers)
  | Structured =>
      let* exportData := JSONExporter.envelope records in
      lift (JSONExporter.pretty_text exportData)
  end.

(** The three lines an encoder can log. *)
Definition empty_line (v : variant) : string :=
  "No data to export to " +:+ variant_name v.

Definition failure_line (v : variant) (e : exn) : string :=
  "Error exporting to " +:+ variant_name v +:+ ": " +:+ message e.

Definition success_line (v : variant) (n : nat) (path : string) : string :=
  "Successfully exported " +:+ pretty n +:+ " records to " +:+ variant_name v
  +:+ ": " +:+ path.

End EncoderVocabulary.

(** ** The structured document, as the specification words it *)

(** What JSON.stringify leaves out of an object: a field that holds
    [undefined] or a method. *)
Definition is_skipped (f : field) : bool :=
  match f with
  | Data VUndefined | Inherited _ => true
  | _ => false
  end.

(** The members of a record's text: one per field that is not left out,
    in the order of the fields. *)
Definition record_members (gap indent : string) (ps : props field) : list string :=
  map (fun kv => json_member gap (fst kv)
                   (default "null" (stringify_field gap indent (snd kv))))
      (List.filter (fun kv => negb (is_skipped (snd kv))) ps).

Definition metadata_block (l : loc) (exportedAt : string) (recordCount : nat) : value :=
  plain l [("exportedAt", Data (VStr exportedAt));
           ("recordCount", Data (VNum (Int (Z.of_nat recordCount))));
           ("version", Data (VStr "1.0.0"))].

(** The envelope: a metadata block and the transformed collection. *)
Definition envelope_of (l : loc) (exportedAt : string) (records : list value) : value :=
  plain l [("metadata", Data (metadata_block (S l) exportedAt (List.length records)));
           ("data", Data (VArr (S (S l)) records))].

(** The text of the envelope, two spaces deeper at each level. *)
Definition envelope_text (exportedAt : string) (records : list value) : string :=
  json_wrap "{" "}" "  " "" "  "
    [json_member "  " "metadata"
       (json_wrap "{" "}" "  " "  " "    "
          [json_member "  " "exportedAt" (json_quote exportedAt);
           json_member "  " "recordCount"
             (Number_toString (Int (Z.of_nat (List.length records))));
           json_member "  " "version" (json_quote "1.0.0")]);
     json_member "  " "data"
       (json_wrap "[" "]" "  " "  " "    "
          (map (fun record => default "null" (stringify "  " "    " record)) records))].

(** ** Sample inputs *)

Definition active_inactive : list value :=
  [plain 1 [("id", Data (VNum (Int 1))); ("status", Data (VStr "active"))];
   plain 2 [("id", Data (VNum (Int 2))); ("status", Data (VStr "inactive"))]].

Definition one_record : value := VArr 0 [plain 1 [("id", Data (VNum (Int 1)))]].

(** A disk that refuses to write the target. *)
Definition locked_disk : MemDisk.disk :=
  MemDisk.mkDisk ["/tmp"; "/"] [] ["/tmp/out.csv"] 1000.

Definition alice_bob : value :=
  VArr 0 [plain 1 [("id", Data (VNum (Int 1))); ("name", Data (VStr "Alice"))];
          plain 2 [("id", Data (VNum (Int 2))); ("name", Data (VStr "Bob"))]].

Definition alice_bob_csv : string :=
  String.concat NL
    ["id,name";
     "1," +:+ DQ +:+ "Alice" +:+ DQ;
     "2," +:+ DQ +:+ "Bob" +:+ DQ].

Definition alice_json : string :=
  String.concat NL
    ["{";
     "  " +:+ DQ +:+ "metadata" +:+ DQ +:+ ": {";
     "    " +:+ DQ +:+ "exportedAt" +:+ DQ +:+ ": " +:+ DQ +:+ "t0" +:+ DQ +:+ ",";
     "    " +:+ DQ +:+ "recordCount" +:+ DQ +:+ ": 1,";
     "    " +:+ DQ +:+ "version" +:+ DQ +:+ ": " +:+ DQ +:+ "1.0.0" +:+ DQ;
     "  },";
     "  " +:+ DQ +:+ "data" +:+ DQ +:+ ": [";
     "    {";
     "      " +:+ DQ +:+ "name" +:+ DQ +:+ ": " +:+ DQ +:+ "Alice" +:+ DQ +:+ ",";
     "      " +:+ DQ +:+ "id" +:+ DQ +:+ ": 1";
     "    }";
     "  ]";
     "}"].

(** A manager with the tabular and the structured encoder only. *)
Definition two_encoders : @ExportManager.ExportManager MemDisk.disk :=
  ExportManager.registerExporter ExportManager.JSON JSONExporter.export
    (ExportManager.registerExporter ExportManager.CSV CSVExporter.export
       (ExportManager.mkManager ∅)).

(* ================================================================== *)
(** * Part V, continued: vocabulary for the rest of the code *)
(* ================================================================== *)

(** What a computation of the pipeline may change: it takes heap cells and
    reads the clock, and leaves the disk, the log and the clock's readings
    as they are. *)
Definition keeps_disk_and_log {Disk} (w w' : World Disk) : Prop :=
  fs w' = fs w /\ log w' = log w /\ clock w' = clock w /\
  ticks w <= ticks w' /\ next_loc w <= next_loc w'.

(** A computation keeps the disk and the log when every run of it does. *)
Definition framed {Disk A} (c : M Disk A) : Prop :=
  forall w, keeps_disk_and_log w (snd (c w)).

(** A computation that reads the clock at most [n] times. *)
Definition reads_clock_at_most {Disk A} (n : nat) (c : M Disk A) : Prop :=
  forall w, ticks (snd (c w)) <= n + ticks w.

(** The three stages of [processData], each run only when configured. *)
Definition filter_stage `{Runtime} (options : option BaseExporter.ExportOptions)
    (records : list value) : result (list value) :=
  match options ≫= BaseExporter.filterOptions with
  | Some criteria => BaseExporter.filterData records criteria
  | None => Ok records
  end.

Definition project_stage `{Runtime} {Disk} (options : option BaseExporter.ExportOptions)
    (records : list value) : M Disk (list value) :=
  match options ≫= BaseExporter.customFields with
  | Some fields =>
      if Nat.ltb 0 (List.length fields)
      then BaseExporter.selectFields records fields
      else ret records
  | None => ret records
  end.

Definition annotate_stage {Disk} (options : option BaseExporter.ExportOptions)
    (records : list value) : M Disk (list value) :=
  match options ≫= BaseExporter.includeMetadata with
  | Some true => BaseExporter.addMetadata records
  | _ => ret records
  end.

(** A record after filter, projection and annotation: a plain object that
    holds the selected fields its source has, own or inherited, and the two
    reserved fields.  (The name [__proto__] stands apart, as in the
    projection.) *)
Definition transformed `{Runtime} (selection : list string) (timestamp : string)
    (record output : value) : Prop :=
  exists l ps,
    output = plain l ps /\
    (forall k, k <> "__proto__" ->
       (k ∈ own_keys ps <->
        (k ∈ selection /\ has_field record k = true) \/ reserved k)) /\
    get_own ps "_exportedAt" = Some (Data (VStr timestamp)) /\
    get_own ps "_exportVersion" = Some (Data (VStr "1.0.0")) /\
    (forall k, ~ reserved k -> k <> "__proto__" -> k ∈ own_keys ps ->
       get_own ps k = Some (field_value record k)).

(** Values on which property access throws. *)
Definition nullish (v : value) : bool :=
  match v with VUndefined | VNull => true | _ => false end.

(** Values the [in] operator accepts. *)
Definition is_object_or_array (v : value) : bool := is_object v || is_array v.

(** Every character of a text passes a test. *)
Fixpoint all_chars (p : ascii -> bool) (s : string) : bool :=
  match s with
  | EmptyString => true
  | String c r => p c && all_chars p r
  end.


(** The characters a number is written with. *)
Definition number_alphabet : string := "0123456789+-.eNaInfity".

(** Two records that agree on every header. *)
Definition agree_on `{Runtime} (headers : list string) (r r' : value) : Prop :=
  forall h, h ∈ headers -> field_value r h = field_value r' h.

(* ================================================================== *)
(** * Part VI: properties of ordered own properties *)
(* ================================================================== *)

Section PropsFacts.
Context {A : Type}.
Implicit Types (ps : props A) (k : string) (v : A).

Lemma has_own_keys ps k : has_own ps k = true <-> k ∈ own_keys ps.
Proof.
  unfold has_own, own_keys. induction ps as [|[k' v'] r IH]; simpl.
  - split; [discriminate | intros Hin; inversion Hin].
  - destruct (String.eqb_spec k' k) as [->|Hne].
    + split; [intros _; left | reflexivity].
    + rewrite IH. split; [intros Hin; by right | intros Hin].
      inversion Hin; subst; [congruence | assumption].
Qed.

Lemma has_own_false ps k : has_own ps k = false <-> k ∉ own_keys ps.
Proof.
  rewrite <- has_own_keys. destruct (has_own ps k); split; congruence.
Qed.

Lemma get_own_None ps k : get_own ps k = None <-> has_own ps k = false.
Proof. unfold has_own. destruct (get_own ps k); split; congruence. Qed.

Lemma own_keys_update ps k v : own_keys (update_prop k v ps) = own_keys ps.
Proof.
  unfold own_keys. induction ps as [|[k' v'] r IH]; simpl; [reflexivity|].
  destruct (String.eqb k' k); simpl; [reflexivity | by rewrite IH].
Qed.

Lemma get_own_update_eq ps k v :
  has_own ps k = true -> get_own (update_prop k v ps) k = Some v.
Proof.
  unfold has_own. induction ps as [|[k' v'] r IH]; simpl; [discriminate|].
  destruct (String.eqb k' k) eqn:E; simpl; rewrite E; [reflexivity | exact IH].
Qed.

Lemma get_own_update_ne ps k v k' :
  k <> k' -> get_own (update_prop k v ps) k' = get_own ps k'.
Proof.
  intros Hne. induction ps as [|[k0 v0] r IH]; simpl; [reflexivity|].
  destruct (String.eqb_spec k0 k) as [->|Hk]; simpl.
  - destruct (String.eqb_spec k k'); [congruence | reflexivity].
  - destruct (String.eqb k0 k'); [reflexivity | exact IH].
Qed.

Lemma own_keys_insert_index ps i k v k' :
  k' ∈ own_keys (insert_index i k v ps) <-> k' = k \/ k' ∈ own_keys ps.
Proof.
  unfold own_keys. induction ps as [|[k0 v0] r IH]; simpl.
  - rewrite list_elem_of_singleton. split; [by left | intros [->|Hin]; [done|inversion Hin]].
  - destruct (array_index k0) as [j|]; [destruct (j <? i)%N|]; simpl;
      rewrite ?elem_of_cons, ?IH; tauto.
Qed.

Lemma get_own_insert_index_eq ps i k v :
  has_own ps k = false -> get_own (insert_index i k v ps) k = Some v.
Proof.
  unfold has_own. induction ps as [|[k0 v0] r IH]; simpl.
  - by rewrite String.eqb_refl.
  - destruct (String.eqb k0 k) eqn:E; [discriminate|]. intros Hr.
    destruct (array_index k0) as [j|]; [destruct (j <? i)%N|]; simpl;
      rewrite ?E, ?String.eqb_refl; auto.
Qed.

Lemma get_own_insert_index_ne ps i k v k' :
  k <> k' -> get_own (insert_index i k v ps) k' = get_own ps k'.
Proof.
  intros Hne. apply String.eqb_neq in Hne.
  induction ps as [|[k0 v0] r IH]; simpl.
  - by rewrite Hne.
  - destruct (array_index k0) as [j|]; [destruct (j <? i)%N|]; simpl;
      rewrite ?Hne, ?IH; reflexivity.
Qed.

Lemma get_own_app_last ps k v k' :
  get_own (ps ++ [(k, v)]) k' =
  match get_own ps k' with
  | Some x => Some x
  | None => if String.eqb k k' then Some v else None
  end.
Proof.
  induction ps as [|[k0 v0] r IH]; simpl; [reflexivity|].
  destruct (String.eqb k0 k'); [reflexivity | exact IH].
Qed.

(** Reading back what was just defined. *)
Lemma get_own_define_prop_eq ps k v : get_own (define_prop k v ps) k = Some v.
Proof.
  unfold define_prop. destruct (has_own ps k) eqn:E.
  - by apply get_own_update_eq.
  - destruct (array_index k) as [i|].
    + by apply get_own_insert_index_eq.
    + rewrite get_own_app_last. apply get_own_None in E. rewrite E.
      by rewrite String.eqb_refl.
Qed.

(** Defining a property leaves the others alone. *)
Lemma get_own_define_prop_ne ps k v k' :
  k <> k' -> get_own (define_prop k v ps) k' = get_own ps k'.
Proof.
  intros Hne. unfold define_prop. destruct (has_own ps k) eqn:E.
  - by apply get_own_update_ne.
  - destruct (array_index k) as [i|].
    + by apply get_own_insert_index_ne.
    + rewrite get_own_app_last. apply String.eqb_neq in Hne. rewrite Hne.
      by destruct (get_own ps k').
Qed.

Lemma own_keys_define_prop ps k v k' :
  k' ∈ own_keys (define_prop k v ps) <-> k' = k \/ k' ∈ own_keys ps.
Proof.
  unfold define_prop. destruct (has_own ps k) eqn:E.
  - rewrite own_keys_update. apply has_own_keys in E.
    split; [by right | intros [->|?]; assumption].
  - destruct (array_index k) as [i|].
    + apply own_keys_insert_index.
    + unfold own_keys. rewrite map_app, elem_of_app. simpl.
      rewrite list_elem_of_singleton. tauto.
Qed.

End PropsFacts.

(** ** Running computations *)

Section MonadFacts.
Context {Disk : Type}.

Lemma mapM_cons {A B} (f : A -> M Disk B) x r (w : World Disk) :
  mapM f (x :: r) w =
  match f x w with
  | (Ok y, w1) =>
      match mapM f r w1 with
      | (Ok ys, w2) => (Ok (y :: ys), w2)
      | (Throw e, w2) => (Throw e, w2)
      end
  | (Throw e, w1) => (Throw e, w1)
  end.
Proof.
  simpl. unfold bind. destruct (f x w) as [[y|e] w1]; [|reflexivity].
  destruct (mapM f r w1) as [[ys|e] w2]; reflexivity.
Qed.

End MonadFacts.

(* ================================================================== *)
(** * Part VII: the transform pipeline *)
(* ================================================================== *)

Import BaseExporter.

Section Filter.
Context `{Runtime}.
Implicit Types (data : list value) (criteria : props value).

Lemma get_prop_record record f :
  is_record record -> get_prop record f = Ok (field_value record f).
Proof. destruct record; unfold is_record; simpl; try discriminate; reflexivity. Qed.

Lemma matches_filter_record record criteria :
  is_record record ->
  matches_filter record criteria = Ok (satisfies criteria record).
Proof.
  intros Hrec. induction criteria as [|[f v] rest IH]; simpl; [reflexivity|].
  rewrite (get_prop_record _ _ Hrec). simpl.
  destruct (reads_as (field_value record f) v); simpl; [exact IH | reflexivity].
Qed.

Lemma filterData_records data criteria :
  Forall is_record data ->
  filterData data criteria = Ok (List.filter (satisfies criteria) data).
Proof.
  induction 1 as [|record rest Hrec _ IH]; simpl; [reflexivity|].
  rewrite (matches_filter_record _ _ Hrec), IH. simpl.
  destruct (satisfies criteria record); reflexivity.
Qed.

Lemma satisfies_spec criteria record :
  satisfies criteria record = true <->
  forall f v, (f, v) ∈ criteria -> reads_as (field_value record f) v = true.
Proof.
  unfold satisfies. rewrite forallb_forall. split.
  - intros Hall f v Hin. apply (Hall (f, v)). by apply list_elem_of_In.
  - intros Hall [f v] Hin. apply Hall. by apply list_elem_of_In.
Qed.

Lemma filter_sublist {A} (p : A -> bool) (l : list A) : sublist (List.filter p l) l.
Proof.
  induction l as [|x l IH]; simpl; [constructor|].
  destruct (p x); by constructor.
Qed.

(** A field found nowhere reads as [undefined], which only [undefined]
    equals. *)
Lemma strict_eq_undefined v : strict_eq VUndefined v = true -> v = VUndefined.
Proof. destruct v; simpl; congruence. Qed.

Lemma field_value_nowhere record f :
  has_field record f = false -> field_value record f = Data VUndefined.
Proof. unfold has_field, field_value. by destruct (search record f). Qed.

Lemma inherited_names_spec f :
  f ∈ inherited_names <->
  f = "__proto__" \/ has_own Object_prototype_methods f = true.
Proof.
  rewrite has_own_keys.
  change inherited_names with (own_keys Object_prototype_methods ++ ["__proto__"]).
  rewrite elem_of_app, list_elem_of_singleton. tauto.
Qed.

(** What a plain object gives under a name: its own field; else, under a
    name every object inherits, the member of Object.prototype; else
    [undefined]. *)
Lemma field_value_plain l own f :
  field_value (plain l own) f =
  match get_own own f with
  | Some x => held f x
  | None =>
      if bool_decide (f = "__proto__") then Prototype KObject
      else if bool_decide (f ∈ inherited_names) then Inherited KObject
      else Data VUndefined
  end.
Proof.
  unfold field_value, plain. simpl. destruct (get_own own f); [reflexivity|].
  unfold from_prototype, at_prototype. simpl.
  destruct (String.eqb_spec f "__proto__") as [->|Hne].
  - by rewrite bool_decide_eq_true_2.
  - rewrite bool_decide_eq_false_2 by assumption.
    destruct (has_own Object_prototype_methods f) eqn:E.
    + rewrite bool_decide_eq_true_2; [reflexivity|].
      apply inherited_names_spec. by right.
    + rewrite bool_decide_eq_false_2; [reflexivity|].
      rewrite inherited_names_spec. intros [?|?]; congruence.
Qed.

(** C2, as amended: on every collection of records the filter step, which
    the pipeline runs when a filter is configured, returns, in their order,
    exactly the records whose value at each filtered field is strictly equal
    to the filter's value, the field being read as [record[f]] reads it,
    through the prototype chain; the result is no longer than the input; a
    kept record has every filtered field, own or inherited, whose filter
    value is not [undefined]; and a plain record that lacks a filtered field
    of its own is kept only when the filter's value for it is [undefined]
    and the name is none of those every object inherits. *)
Theorem filterData_keeps_exact_matches data criteria :
  Forall is_record data ->
  exists kept,
    filterData data criteria = Ok kept /\
    (forall Disk l (w : World Disk),
       processData (VArr l data) (Some (mkOptions None None (Some criteria))) w
       = (Ok kept, w)) /\
    kept = List.filter (satisfies criteria) data /\
    (forall record, record ∈ kept <->
       record ∈ data /\
       forall f v, (f, v) ∈ criteria -> reads_as (field_value record f) v = true) /\
    List.length kept <= List.length data /\
    sublist kept data /\
    (forall record f v, record ∈ kept -> (f, v) ∈ criteria -> v <> VUndefined ->
       has_field record f = true) /\
    (forall record f v, record ∈ kept -> is_plain record -> (f, v) ∈ criteria ->
       has_own (fields_of record) f = false ->
       v = VUndefined /\ f ∉ inherited_names).
Proof.
  intros Hrec. exists (List.filter (satisfies criteria) data).
  assert (Hmem : forall record, record ∈ List.filter (satisfies criteria) data <->
            record ∈ data /\
            forall f v, (f, v) ∈ criteria -> reads_as (field_value record f) v = true).
  { intros record. rewrite list_elem_of_In, filter_In, <- list_elem_of_In, satisfies_spec.
    reflexivity. }
  split; [by apply filterData_records|].
  split. { intros Disk l w. unfold processData, bind, ret, lift. simpl.
           by rewrite filterData_records. }
  split; [reflexivity|].
  split; [exact Hmem|]. split; [apply sublist_length, filter_sublist|].
  split; [apply filter_sublist|]. split.
  - intros record f v Hin Hfv Hdef. apply Hmem in Hin as [_ Hall].
    specialize (Hall f v Hfv).
    destruct (has_field record f) eqn:E; [reflexivity|].
    rewrite (field_value_nowhere _ _ E) in Hall. simpl in Hall.
    apply strict_eq_undefined in Hall. contradiction.
  - intros record f v Hin (l & own & ->) Hfv Hown. apply Hmem in Hin as [_ Hall].
    specialize (Hall f v Hfv). rewrite field_value_plain in Hall.
    simpl in Hown. apply get_own_None in Hown. rewrite Hown in Hall.
    destruct (bool_decide (f = "__proto__")); [discriminate|].
    destruct (bool_decide_reflect (f ∈ inherited_names)); [discriminate|].
    simpl in Hall. apply strict_eq_undefined in Hall. by split.
Qed.

End Filter.

Lemma filterData_keeps_exact_matches_witness :
  exists kept,
    filterData active_inactive [("status", VStr "active")] = Ok kept /\
    kept = [plain 1 [("id", Data (VNum (Int 1))); ("status", Data (VStr "active"))]].
Proof.
  destruct (filterData_keeps_exact_matches active_inactive [("status", VStr "active")])
    as (kept & Hrun & _ & Hkept & _).
  - repeat constructor.
  - exists kept. split; [exact Hrun | exact Hkept].
Defined.

(** C2 as stated fails: the filter {status: undefined} keeps a record that
    has no status field. *)
Lemma filterData_undefined_keeps_missing_field :
  let record := plain 1 [("id", Data (VNum (Int 1)))] in
  has_own (fields_of record) "status" = false /\
  filterData [record] [("status", VUndefined)] = Ok [record].
Proof. split; reflexivity. Qed.

(** A name every object inherits is not missing: the filter
    {constructor: undefined} drops the same record, whose [constructor] is
    the one of Object.prototype. *)
Example filterData_reads_inherited_names :
  filterData [plain 1 [("id", Data (VNum (Int 1)))]] [("constructor", VUndefined)]
  = Ok [].
Proof. reflexivity. Qed.

Section KeyOrder.

Lemma array_index_canonical k i : array_index k = Some i -> k = pretty i.
Proof.
  unfold array_index. destruct (digits_value 0 k) as [n|]; [|discriminate].
  destruct (String.eqb_spec (pretty n) k) as [<-|]; simpl; [|discriminate].
  destruct (n <? 4294967295)%N; [|discriminate]. congruence.
Qed.

Lemma array_index_inj a b i :
  array_index a = Some i -> array_index b = Some i -> a = b.
Proof.
  intros Ha Hb. apply array_index_canonical in Ha, Hb. congruence.
Qed.

Lemma is_index_false k : is_index k = false <-> array_index k = None.
Proof. unfold is_index. destruct (array_index k); split; congruence. Qed.

Lemma is_index_true k : is_index k = true <-> exists i, array_index k = Some i.
Proof.
  unfold is_index. destruct (array_index k) as [i|]; split; try congruence.
  - eauto.
  - intros [i Hi]. discriminate.
Qed.

Context {A : Type}.
Implicit Types (ps : props A) (k : string) (v : A).

(** A new index name leaves the other names where they were. *)
Lemma names_only_insert_index ps i k v :
  array_index k = Some i ->
  names_only (own_keys (insert_index i k v ps)) = names_only (own_keys ps).
Proof.
  intros Hk. assert (Hidx : is_index k = true) by (apply is_index_true; eauto).
  unfold names_only, own_keys.
  induction ps as [|[k0 v0] r IH]; simpl.
  - by rewrite Hidx.
  - destruct (array_index k0) as [j|] eqn:E0.
    + assert (H0 : is_index k0 = true) by (apply is_index_true; eauto).
      destruct (j <? i)%N; simpl.
      * rewrite H0. simpl. exact IH.
      * by rewrite Hidx.
    + simpl. by rewrite Hidx.
Qed.

Lemma names_only_define_prop ps k v :
  names_only (own_keys (define_prop k v ps)) =
  if has_own ps k || is_index k then names_only (own_keys ps)
  else names_only (own_keys ps) ++ [k].
Proof.
  unfold define_prop. destruct (has_own ps k) eqn:E; simpl.
  - by rewrite own_keys_update.
  - destruct (array_index k) as [i|] eqn:Ek.
    + assert (Hidx : is_index k = true) by (apply is_index_true; eauto).
      rewrite Hidx. by apply names_only_insert_index.
    + apply is_index_false in Ek. rewrite Ek.
      unfold names_only, own_keys. rewrite map_app, List.filter_app. simpl.
      by rewrite Ek.
Qed.

Lemma js_ordered_insert_index ps i k v :
  array_index k = Some i -> has_own ps k = false ->
  js_ordered (own_keys ps) -> js_ordered (own_keys (insert_index i k v ps)).
Proof.
  intros Hk Hnew Hord. remember (own_keys ps) as ks eqn:Hks.
  revert ps Hnew Hks. induction Hord as [ks Hnames|k0 j ks Hk0 Hsmall Hord IH];
    intros ps Hnew Hks.
  - destruct ps as [|[k0 v0] r]; simpl.
    + eapply ordered_index; [exact Hk | constructor | by constructor].
    + simpl in Hks. subst ks. inversion Hnames as [|? ? Hk0 Hrest]; subst.
      apply is_index_false in Hk0. rewrite Hk0.
      eapply ordered_index; [exact Hk | | by constructor].
      apply Forall_forall. intros k' Hin j Hj.
      assert (is_index k' = false) as Hno.
      { rewrite Forall_forall in Hnames. by apply Hnames. }
      apply is_index_false in Hno. congruence.
  - destruct ps as [|[k1 v1] r]; [discriminate|]. simpl in Hks.
    injection Hks as Hhead Htail. subst k1 ks. simpl. rewrite Hk0.
    assert (Hne : k0 <> k).
    { intros ->. unfold has_own in Hnew. simpl in Hnew.
      by rewrite String.eqb_refl in Hnew. }
    assert (Hr : has_own r k = false).
    { unfold has_own in *. simpl in Hnew.
      apply String.eqb_neq in Hne. by rewrite Hne in Hnew. }
    destruct (N.ltb_spec j i) as [Hlt|Hge].
    + simpl. eapply ordered_index; [exact Hk0 | | by apply IH].
      apply Forall_forall. intros k' Hin j' Hj'.
      apply own_keys_insert_index in Hin as [->|Hin].
      * rewrite Hk in Hj'. injection Hj' as <-. exact Hlt.
      * rewrite Forall_forall in Hsmall. by apply (Hsmall k').
    + assert (i <> j) by (intros ->; apply Hne; by eapply array_index_inj).
      eapply ordered_index; [exact Hk | | by eapply ordered_index].
      apply Forall_forall. intros k' Hin j' Hj'.
      change (k' ∈ k0 :: own_keys r) in Hin. apply elem_of_cons in Hin as [->|Hin].
      * rewrite Hk0 in Hj'. injection Hj' as <-. lia.
      * rewrite Forall_forall in Hsmall. specialize (Hsmall k' Hin j' Hj'). lia.
Qed.

Lemma js_ordered_app_name ks k :
  is_index k = false -> js_ordered ks -> js_ordered (ks ++ [k]).
Proof.
  intros Hk. induction 1 as [ks Hnames|k0 j ks Hk0 Hsmall Hord IH].
  - apply ordered_names. apply Forall_app. split; [assumption | by constructor].
  - simpl. eapply ordered_index; [exact Hk0 | | exact IH].
    apply Forall_app. split; [assumption|]. constructor; [|constructor].
    intros j' Hj'. apply is_index_false in Hk. congruence.
Qed.

(** Defining a property keeps the names in the order JavaScript lists them. *)
Lemma js_ordered_define_prop ps k v :
  js_ordered (own_keys ps) -> js_ordered (own_keys (define_prop k v ps)).
Proof.
  intros Hord. unfold define_prop. destruct (has_own ps k) eqn:E.
  - by rewrite own_keys_update.
  - destruct (array_index k) as [i|] eqn:Ek.
    + by apply js_ordered_insert_index.
    + unfold own_keys. rewrite map_app. simpl.
      apply js_ordered_app_name; [by apply is_index_false | exact Hord].
Qed.

Lemma NoDup_own_keys_define_prop ps k v :
  NoDup (own_keys ps) -> NoDup (own_keys (define_prop k v ps)).
Proof.
  intros Hnd. unfold define_prop. destruct (has_own ps k) eqn:E.
  - by rewrite own_keys_update.
  - apply has_own_false in E. destruct (array_index k) as [i|].
    + clear -Hnd E. unfold own_keys in *.
      induction ps as [|[k0 v0] r IH]; simpl in *.
      * apply NoDup_singleton.
      * apply not_elem_of_cons in E as [Hne Hr].
        apply NoDup_cons in Hnd as [Hk0 Hnd].
        destruct (array_index k0) as [j|]; [destruct (j <? i)%N|]; simpl.
        -- apply NoDup_cons. split; [|by apply IH].
           intros Hin. apply (own_keys_insert_index r i k v k0) in Hin as [->|Hin]; done.
        -- apply NoDup_cons. split; [|by apply NoDup_cons].
           apply not_elem_of_cons. done.
        -- apply NoDup_cons. split; [|by apply NoDup_cons].
           apply not_elem_of_cons. done.
    + unfold own_keys in *. rewrite map_app. simpl.
      apply NoDup_app. split; [exact Hnd|]. split; [|apply NoDup_singleton].
      intros x Hx Hx'. apply list_elem_of_singleton in Hx'. by subst.
Qed.

End KeyOrder.
Section Select.
Context `{Runtime}.
Implicit Types (acc : value) (ps : props field) (selection : list string).

Lemma has_property_record record f :
  is_record record -> has_property f record = Ok (has_field record f).
Proof. destruct record; unfold is_record; simpl; try discriminate; reflexivity. Qed.

Lemma select_loop_record record selection acc :
  is_record record ->
  select_loop record selection acc = Ok (fold_left (select_step record) selection acc).
Proof.
  intros Hrec. revert acc. induction selection as [|f rest IH]; intros acc; simpl;
    [reflexivity|].
  rewrite (has_property_record _ _ Hrec). simpl. unfold select_step at 2.
  destruct (has_field record f); simpl; [|apply IH].
  rewrite (get_prop_record _ _ Hrec). simpl. apply IH.
Qed.

(** Only the name [__proto__] leads to the accessor. *)
Lemma from_prototype_accessor k key :
  from_prototype k key = Accessor -> key = "__proto__".
Proof.
  unfold from_prototype, at_prototype.
  destruct (String.eqb_spec key "__proto__") as [->|Hne]; [reflexivity|].
  destruct k; simpl;
    repeat match goal with
           | |- context [if ?b then _ else _] => destruct b
           end; discriminate.
Qed.

Lemma search_accessor v key : search v key = Accessor -> key = "__proto__".
Proof.
  induction v as [| | | |s|l proto own IHp IHo|l elems IH] using value_ind; simpl;
    try discriminate; try apply from_prototype_accessor.
  - destruct (own_indexed (chars s) key); [discriminate | apply from_prototype_accessor].
  - destruct (get_own own key); [discriminate|].
    destruct proto as [|k|p]; [discriminate | apply from_prototype_accessor | exact IHp].
  - destruct (own_indexed elems key); [discriminate | apply from_prototype_accessor].
Qed.

(** An assignment either defines the own property or, for [__proto__]
    alone, leaves the own properties as they are. *)
Lemma set_prop_cases k f l proto ps :
  set_prop k f (VObj l proto ps) = VObj l proto (define_prop k f ps) \/
  (k = "__proto__" /\ exists proto', set_prop k f (VObj l proto ps) = VObj l proto' ps).
Proof.
  unfold set_prop. destruct (has_own ps k); [by left|].
  destruct (match proto with
            | No_prototype => Nowhere
            | Standard k0 => from_prototype k0 k
            | Custom p => search p k
            end) eqn:E; try by left.
  right. split.
  - destruct proto as [|k0|p]; [discriminate | by eapply from_prototype_accessor
                                | by eapply search_accessor].
  - destruct (as_prototype f) as [proto'|]; eauto.
Qed.

Lemma set_prop_ordinary k f l proto ps :
  k <> "__proto__" ->
  set_prop k f (VObj l proto ps) = VObj l proto (define_prop k f ps).
Proof.
  intros Hne. destruct (set_prop_cases k f l proto ps) as [?|[? _]]; congruence.
Qed.

Lemma select_step_shape record l proto ps f :
  exists proto' ps', select_step record (VObj l proto ps) f = VObj l proto' ps'.
Proof.
  unfold select_step. destruct (has_field record f); [|eauto].
  destruct (set_prop_cases f (field_value record f) l proto ps)
    as [->|(_ & proto' & ->)]; eauto.
Qed.

Lemma select_fold_shape record selection l proto ps :
  exists proto' ps',
    fold_left (select_step record) selection (VObj l proto ps) = VObj l proto' ps'.
Proof.
  revert proto ps. induction selection as [|f rest IH]; intros proto ps; simpl; [eauto|].
  destruct (select_step_shape record l proto ps f) as (proto' & ps' & ->). apply IH.
Qed.

Lemma select_step_keys record l proto ps f k :
  k <> "__proto__" ->
  k ∈ own_keys (fields_of (select_step record (VObj l proto ps) f)) <->
  k ∈ own_keys ps \/ (k = f /\ has_field record f = true).
Proof.
  intros Hk. unfold select_step. destruct (has_field record f) eqn:E.
  - destruct (set_prop_cases f (field_value record f) l proto ps)
      as [->|(-> & proto' & ->)]; simpl.
    + rewrite own_keys_define_prop. tauto.
    + split; [by left | intros [?|[? _]]; [done | contradiction]].
  - simpl. split; [by left | intros [?|[_ ?]]; [done | discriminate]].
Qed.

Lemma select_fold_keys record selection l proto ps k :
  k <> "__proto__" ->
  k ∈ own_keys (fields_of (fold_left (select_step record) selection (VObj l proto ps)))
  <-> k ∈ own_keys ps \/ (k ∈ selection /\ has_field record k = true).
Proof.
  intros Hk. revert proto ps. induction selection as [|f rest IH]; intros proto ps; simpl.
  - split; [by left | intros [?|[Hin _]]; [done | inversion Hin]].
  - pose proof (select_step_keys record l proto ps f k Hk) as Hstep.
    destruct (select_step_shape record l proto ps f) as (proto' & ps' & Heq).
    rewrite Heq in *. simpl in Hstep. rewrite IH, Hstep, elem_of_cons. split.
    + intros [[?|[-> ?]]|[? ?]]; auto.
    + intros [?|[[->|?] ?]]; auto.
Qed.

Lemma select_step_get_ne record l proto ps f k :
  k <> f ->
  get_own (fields_of (select_step record (VObj l proto ps) f)) k = get_own ps k.
Proof.
  intros Hne. unfold select_step. destruct (has_field record f); [|reflexivity].
  destruct (set_prop_cases f (field_value record f) l proto ps)
    as [->|(_ & proto' & ->)]; simpl; [|reflexivity].
  by apply get_own_define_prop_ne.
Qed.

Lemma select_step_get_eq record l proto ps k :
  k <> "__proto__" -> has_field record k = true ->
  get_own (fields_of (select_step record (VObj l proto ps) k)) k
  = Some (field_value record k).
Proof.
  intros Hk Hhas. unfold select_step. rewrite Hhas, set_prop_ordinary by assumption.
  simpl. apply get_own_define_prop_eq.
Qed.

Lemma select_fold_get record selection l proto ps k :
  k <> "__proto__" -> k ∈ selection -> has_field record k = true ->
  get_own (fields_of (fold_left (select_step record) selection (VObj l proto ps))) k
  = Some (field_value record k).
Proof.
  intros Hk Hin Hhas.
  assert (Hstay : forall names proto ps,
            get_own ps k = Some (field_value record k) ->
            get_own (fields_of (fold_left (select_step record) names
                                  (VObj l proto ps))) k
            = Some (field_value record k)).
  { clear Hin proto ps. induction names as [|f rest IH]; intros proto ps Hacc;
      simpl; [done|].
    destruct (String.eqb_spec f k) as [->|Hne].
    - pose proof (select_step_get_eq record l proto ps k Hk Hhas) as Hstep.
      destruct (select_step_shape record l proto ps k) as (proto' & ps' & Heq).
      rewrite Heq in *. by apply IH.
    - pose proof (select_step_get_ne record l proto ps f k (not_eq_sym Hne)) as Hstep.
      destruct (select_step_shape record l proto ps f) as (proto' & ps' & Heq).
      rewrite Heq in *. apply IH. simpl in Hstep. congruence. }
  revert proto ps Hin. induction selection as [|f rest IH]; intros proto ps Hin;
    [inversion Hin|].
  simpl. apply elem_of_cons in Hin as [<-|Hin].
  - pose proof (select_step_get_eq record l proto ps k Hk Hhas) as Hstep.
    destruct (select_step_shape record l proto ps k) as (proto' & ps' & Heq).
    rewrite Heq in *. by apply Hstay.
  - destruct (select_step_shape record l proto ps f) as (proto' & ps' & ->).
    by apply IH.
Qed.

Lemma select_step_ordered record l proto ps f :
  js_ordered (own_keys ps) ->
  js_ordered (own_keys (fields_of (select_step record (VObj l proto ps) f))).
Proof.
  intros Hord. unfold select_step. destruct (has_field record f); [|done].
  destruct (set_prop_cases f (field_value record f) l proto ps)
    as [->|(_ & proto' & ->)]; simpl; [|done].
  by apply js_ordered_define_prop.
Qed.

Lemma select_step_NoDup record l proto ps f :
  NoDup (own_keys ps) ->
  NoDup (own_keys (fields_of (select_step record (VObj l proto ps) f))).
Proof.
  intros Hnd. unfold select_step. destruct (has_field record f); [|done].
  destruct (set_prop_cases f (field_value record f) l proto ps)
    as [->|(_ & proto' & ->)]; simpl; [|done].
  by apply NoDup_own_keys_define_prop.
Qed.

Lemma select_fold_ordered record selection l proto ps :
  js_ordered (own_keys ps) ->
  js_ordered (own_keys (fields_of (fold_left (select_step record) selection
                                     (VObj l proto ps)))).
Proof.
  revert proto ps. induction selection as [|f rest IH]; intros proto ps Hacc; simpl; [done|].
  pose proof (select_step_ordered record l proto ps f Hacc) as Hstep.
  destruct (select_step_shape record l proto ps f) as (proto' & ps' & Heq).
  rewrite Heq in *. by apply IH.
Qed.

Lemma select_fold_NoDup record selection l proto ps :
  NoDup (own_keys ps) ->
  NoDup (own_keys (fields_of (fold_left (select_step record) selection
                                (VObj l proto ps)))).
Proof.
  revert proto ps. induction selection as [|f rest IH]; intros proto ps Hacc; simpl; [done|].
  pose proof (select_step_NoDup record l proto ps f Hacc) as Hstep.
  destruct (select_step_shape record l proto ps f) as (proto' & ps' & Heq).
  rewrite Heq in *. by apply IH.
Qed.

(** Without [__proto__] in the selection the loop only defines own
    properties. *)
Lemma select_fold_own record selection l proto ps :
  "__proto__" ∉ selection ->
  fold_left (select_step record) selection (VObj l proto ps)
  = VObj l proto (fold_left (select_own record) selection ps).
Proof.
  revert ps. induction selection as [|f rest IH]; intros ps Hno; simpl; [reflexivity|].
  apply not_elem_of_cons in Hno as [Hf Hrest].
  unfold select_step at 2, select_own at 2. destruct (has_field record f).
  - rewrite set_prop_ordinary by congruence. by apply IH.
  - by apply IH.
Qed.

Lemma first_occurrences_from_ext seen seen' ks :
  (forall k, k ∈ ks -> (k ∈ seen <-> k ∈ seen')) ->
  first_occurrences_from seen ks = first_occurrences_from seen' ks.
Proof.
  revert seen seen'. induction ks as [|k r IH]; intros seen seen' Hext; simpl; [done|].
  assert (Hk : k ∈ seen <-> k ∈ seen') by (apply Hext; left).
  destruct (bool_decide_reflect (k ∈ seen)) as [Hin|Hout];
    destruct (bool_decide_reflect (k ∈ seen')) as [Hin'|Hout']; try tauto.
  - apply IH. intros k' Hk'. apply Hext. by right.
  - f_equal. apply IH. intros k' Hk'. rewrite !elem_of_cons.
    specialize (Hext k' (list_elem_of_further _ _ _ Hk')). tauto.
Qed.

Lemma names_only_elem k ks : k ∈ names_only ks <-> k ∈ ks /\ is_index k = false.
Proof.
  unfold names_only. rewrite !list_elem_of_In, filter_In, negb_true_iff. reflexivity.
Qed.

Lemma select_fold_names record selection ps :
  names_only (own_keys (fold_left (select_own record) selection ps)) =
  names_only (own_keys ps)
  ++ first_occurrences_from (own_keys ps)
       (names_only (List.filter (has_field record) selection)).
Proof.
  revert ps. induction selection as [|f rest IH]; intros ps; simpl.
  - by rewrite app_nil_r.
  - rewrite IH. unfold select_own. destruct (has_field record f) eqn:E; [|done].
    rewrite names_only_define_prop. simpl.
    destruct (is_index f) eqn:Ef; simpl.
    + rewrite orb_true_r. f_equal. apply first_occurrences_from_ext.
      intros k Hk. apply names_only_elem in Hk as [_ Hk].
      rewrite own_keys_define_prop. split; [intros [->|?]; [congruence|done] | by right].
    + rewrite orb_false_r. destruct (has_own ps f) eqn:Eacc.
      * apply has_own_keys in Eacc. rewrite bool_decide_eq_true_2 by done.
        f_equal. apply first_occurrences_from_ext. intros k _.
        rewrite own_keys_define_prop. split; [intros [->|?]; done | by right].
      * apply has_own_false in Eacc. rewrite bool_decide_eq_false_2 by done.
        rewrite <- app_assoc. simpl. do 2 f_equal.
        apply first_occurrences_from_ext. intros k _.
        rewrite own_keys_define_prop, elem_of_cons. reflexivity.
Qed.

Lemma select_own_keys record selection ps k :
  k ∈ own_keys (fold_left (select_own record) selection ps) ->
  k ∈ own_keys ps \/ k ∈ selection.
Proof.
  revert ps. induction selection as [|f rest IH]; intros ps Hk; simpl in Hk; [by left|].
  apply IH in Hk as [Hk|Hk]; [|right; by right].
  unfold select_own in Hk. destruct (has_field record f); [|by left].
  apply own_keys_define_prop in Hk as [->|Hk]; [right; by left | by left].
Qed.

Lemma names_only_all ks :
  Forall (fun k => is_index k = false) ks -> names_only ks = ks.
Proof.
  unfold names_only. induction 1 as [|k r Hk _ IH]; simpl; [done|].
  by rewrite Hk, IH.
Qed.

(** What the loop of [selectFields] builds from a record. *)
Lemma select_loop_projection {Disk} record l' selection (w : World Disk) :
  next_loc w <= l' ->
  projection selection w record
    (fold_left (select_step record) selection (plain l' [])).
Proof.
  intros Hfresh. unfold plain.
  destruct (select_fold_shape record selection l' (Standard KObject) [])
    as (proto & sel & Heq).
  pose proof (select_fold_keys record selection l' (Standard KObject) []) as Hkeys.
  pose proof (select_fold_get record selection l' (Standard KObject) []) as Hget.
  pose proof (select_fold_NoDup record selection l' (Standard KObject) []) as Hnd.
  pose proof (select_fold_ordered record selection l' (Standard KObject) []) as Hord.
  pose proof (select_fold_own record selection l' (Standard KObject) []) as Hown.
  rewrite Heq in *. simpl in *. exists l', proto, sel.
  assert (Hkeys' : forall k, k <> "__proto__" ->
            (k ∈ own_keys sel <-> k ∈ selection /\ has_field record k = true)).
  { intros k Hk. rewrite (Hkeys k Hk).
    split; [intros [Hin|?]; [inversion Hin | done] | by right]. }
  split; [reflexivity|]. split; [exact Hfresh|]. split; [exact Hkeys'|].
  split. { intros k Hk Hin. apply (Hkeys' k Hk) in Hin as [? ?]. by apply Hget. }
  split. { apply Hnd. constructor. }
  split. { apply Hord. apply ordered_names. constructor. }
  intros Hno. specialize (Hown Hno). injection Hown as -> ->.
  split; [reflexivity|]. split. { by rewrite select_fold_names. }
  intros Hnames.
  rewrite <- (names_only_all (own_keys (fold_left (select_own record) selection []))).
  - rewrite select_fold_names. simpl. unfold first_occurrences, present_in. simpl.
    f_equal. apply names_only_all.
    apply Forall_forall. intros k Hk. rewrite Forall_forall in Hnames.
    apply Hnames. apply list_elem_of_In, filter_In in Hk as [Hk _].
    by apply list_elem_of_In.
  - apply Forall_forall. intros k Hk. rewrite Forall_forall in Hnames.
    apply Hnames. apply select_own_keys in Hk as [Hk|Hk]; [inversion Hk | exact Hk].
Qed.

Lemma projection_mono {Disk} selection (w w' : World Disk) record projected :
  next_loc w <= next_loc w' ->
  projection selection w' record projected -> projection selection w record projected.
Proof.
  intros Hle (l & proto & sel & -> & Hl & Hrest). exists l, proto, sel.
  split; [reflexivity|]. split; [lia | exact Hrest].
Qed.

Lemma allocated_succ {Disk} n (w : World Disk) :
  allocated n (allocated 1 w) = allocated (S n) w.
Proof. unfold allocated. simpl. f_equal. lia. Qed.

Lemma select_item_record {Disk} selection record (w : World Disk) :
  is_record record ->
  select_item selection record w
  = (Ok (fold_left (select_step record) selection (plain (next_loc w) [])),
     allocated 1 w).
Proof.
  intros Hrec. unfold select_item, bind, alloc, lift, ret. simpl.
  by rewrite select_loop_record.
Qed.




End Select.



(** A selected name that the record inherits becomes a field of the
    projection: it holds the method of Object.prototype. *)
Example selectFields_copies_inherited_members :
  fst (selectFields [plain 1 [("id", Data (VNum (Int 1)))]] ["id"; "toString"]
         (MemDisk.world0 MemDisk.empty_disk))
  = Ok [plain 100 [("id", Data (VNum (Int 1))); ("toString", Inherited KObject)]].
Proof. reflexivity. Qed.

(** Selecting [__proto__] makes the record's value under that name the
    prototype of the projection, which then has no field of its own; a
    second projection finds the fields of that prototype. *)
Example selectFields_sets_prototype :
  let inner := plain 2 [("a", Data (VNum (Int 1)))] in
  let record := plain 1 [("__proto__", Data inner)] in
  fst (selectFields [record] ["__proto__"; "a"] (MemDisk.world0 MemDisk.empty_disk))
  = Ok [VObj 100 (Custom inner) []] /\
  fst (selectFields [VObj 100 (Custom inner) []] ["__proto__"; "a"]
         (MemDisk.world0 MemDisk.empty_disk))
  = Ok [VObj 100 (Custom inner) [("a", Data (VNum (Int 1)))]].
Proof. split; reflexivity. Qed.

Section Annotate.
Context `{Runtime} {Disk : Type}.
Implicit Types (w : World Disk) (data : list value).

Lemma stamp_annotated timestamp w item l :
  next_loc w <= l -> annotated timestamp w item (plain l (stamp timestamp item)).
Proof.
  intros Hl. exists l, (stamp timestamp item). unfold stamp, reserved.
  split; [reflexivity|]. split; [exact Hl|].
  split. { rewrite get_own_define_prop_ne by discriminate. apply get_own_define_prop_eq. }
  split. { apply get_own_define_prop_eq. }
  split.
  - intros k Hk. rewrite !get_own_define_prop_ne; [reflexivity | |]; intros <-; tauto.
  - intros k. rewrite !own_keys_define_prop. tauto.
Qed.

Lemma annotated_mono timestamp w w' item stamped :
  next_loc w <= next_loc w' ->
  annotated timestamp w' item stamped -> annotated timestamp w item stamped.
Proof.
  intros Hle (l & ps & -> & Hl & Hrest). exists l, ps.
  split; [reflexivity|]. split; [lia | exact Hrest].
Qed.

Lemma mapM_stamp_item timestamp data w :
  exists stamped,
    mapM (stamp_item timestamp) data w = (Ok stamped, allocated (List.length data) w) /\
    Forall2 (annotated timestamp w) data stamped.
Proof.
  revert w. induction data as [|item rest IH]; intros w.
  - exists []. split; [by destruct w | constructor].
  - destruct (IH (allocated 1 w)) as (tail & Hrun & Hall).
    exists (plain (next_loc w) (stamp timestamp item) :: tail). split.
    + rewrite mapM_cons. unfold stamp_item at 1, bind, alloc, ret.
      change (mkWorld (fs w) (clock w) (ticks w) (S (next_loc w)) (log w))
        with (allocated 1 w).
      rewrite Hrun. by rewrite allocated_succ.
    + constructor; [by apply stamp_annotated|].
      eapply Forall2_impl; [exact Hall|]. intros x y.
      apply annotated_mono. simpl. lia.
Qed.

(** C4: the annotate step, which the pipeline runs when [includeMetadata]
    is set, reads the clock once and gives every item a new record that
    carries that one timestamp under [_exportedAt] and the marker 1.0.0
    under [_exportVersion], replacing whatever the item held under those
    names; it adds no other field and changes no other field. *)
Theorem addMetadata_stamps data w :
  exists stamped,
    addMetadata data w
      = (Ok stamped, allocated (List.length data) (ticked w)) /\
    (forall l,
       processData (VArr l data) (Some (mkOptions (Some true) None None)) w
       = (Ok stamped, allocated (List.length data) (ticked w))) /\
    Forall2 (annotated (clock w (ticks w)) w) data stamped.
Proof.
  destruct (mapM_stamp_item (clock w (ticks w)) data (ticked w))
    as (stamped & Hrun & Hall).
  assert (Hmeta : addMetadata data w
                  = (Ok stamped, allocated (List.length data) (ticked w))).
  { unfold addMetadata, bind, Date_toISOString. exact Hrun. }
  exists stamped. split; [exact Hmeta|]. split.
  - intros l. unfold processData, bind, ret. simpl. by rewrite Hmeta.
  - eapply Forall2_impl; [exact Hall|]. intros x y.
    apply annotated_mono. simpl. lia.
Qed.

(** C5: with no filter, no field selection and no metadata the pipeline
    returns the records it was given, in their order, and touches nothing. *)
Theorem processData_identity l records options w :
  no_options options ->
  processData (VArr l records) options w = (Ok records, w).
Proof.
  intros (Hfilter & Hfields & Hmeta). unfold processData, bind, ret.
  rewrite Hfilter.
  assert (Hsel : match options ≫= customFields with
                 | Some fields =>
                     if Nat.ltb 0 (List.length fields)
                     then selectFields (Disk:=Disk) records fields
                     else fun w => (Ok records, w)
                 | None => fun w => (Ok records, w)
                 end w = (Ok records, w)).
  { destruct Hfields as [-> | ->]; reflexivity. }
  rewrite Hsel.
  destruct (options ≫= includeMetadata) as [[|]|]; [congruence | reflexivity..].
Qed.

(** C10: when the data argument is not an array (null and undefined
    included) the pipeline returns the empty collection and throws nothing. *)
Theorem processData_not_array (data : value) options w :
  is_array data = false ->
  processData data options w = (Ok [], w).
Proof. destruct data; simpl; intros Harr; try reflexivity. discriminate. Qed.

End Annotate.

Lemma processData_identity_witness :
  processData (VArr 0 active_inactive) None (MemDisk.world0 MemDisk.empty_disk)
  = (Ok active_inactive, MemDisk.world0 MemDisk.empty_disk).
Proof.
  apply processData_identity.
  split; [reflexivity|]. split; [by left | discriminate].
Defined.

Lemma processData_not_array_witness :
  processData VNull (Some (mkOptions (Some true) (Some ["id"]) (Some [("id", VNull)])))
    (MemDisk.world0 MemDisk.empty_disk)
  = (Ok [], MemDisk.world0 MemDisk.empty_disk).
Proof. apply processData_not_array. reflexivity. Defined.

Lemma addMetadata_stamps_witness :
  exists stamped,
    addMetadata [plain 1 [("_exportedAt", Data (VStr "old")); ("id", Data (VNum (Int 1)))]]
      (MemDisk.world0 MemDisk.empty_disk)
    = (Ok stamped, allocated 1 (ticked (MemDisk.world0 MemDisk.empty_disk))) /\
    map fields_of stamped
    = [[("_exportedAt", Data (VStr "t0")); ("id", Data (VNum (Int 1))); ("_exportVersion", Data (VStr "1.0.0"))]].
Proof.
  destruct (addMetadata_stamps
              [plain 1 [("_exportedAt", Data (VStr "old")); ("id", Data (VNum (Int 1)))]]
              (MemDisk.world0 MemDisk.empty_disk)) as (stamped & Hrun & _ & _).
  exists stamped. split; [exact Hrun|].
  vm_compute in Hrun. injection Hrun as <-. reflexivity.
Defined.

(* ================================================================== *)
(** * Part VIII: the dispatcher *)
(* ================================================================== *)

Section Dispatch.
Context `{Runtime} `{FileSystem Disk}.
Import ExportManager.
Implicit Types (this : @ExportManager Disk) (request : ExportRequest) (w : World Disk).

Lemma export_dispatch this request w :
  export this request w = dispatch_outcome this request w.
Proof.
  unfold export, dispatch_outcome.
  destruct (no_data (data request)); [reflexivity|].
  destruct (exporters this !! format request) as [encoder|]; [|reflexivity].
  unfold try_catch, bind, ret, logger_log, logged.
  destruct (encoder _ _ _ w) as [[outcome|e] w']; reflexivity.
Qed.

Lemma dispatch_outcome_returns this request w :
  exists outcome w', dispatch_outcome this request w = (Ok outcome, w').
Proof.
  unfold dispatch_outcome.
  destruct (no_data (data request)); [eauto|].
  destruct (exporters this !! format request) as [encoder|]; [|eauto].
  destruct (encoder _ _ _ w) as [[outcome|e] w']; eauto.
Qed.

Lemma dispatch_outcome_unregistered this request w outcome w' :
  exporters this !! format request = None ->
  dispatch_outcome this request w = (Ok outcome, w') -> outcome = false.
Proof.
  intros Hnone Hrun. unfold dispatch_outcome in Hrun.
  destruct (no_data (data request)); [congruence|].
  match type of Hrun with
  | context [@lookup ?K ?V ?T ?L ?k ?m] =>
      replace (@lookup K V T L k m) with (@None V) in Hrun
        by (symmetry; exact Hnone)
  end.
  congruence.
Qed.


(** On the plain object [results] an assignment of a boolean defines the
    property, except under [__proto__], where the setter ignores it. *)
Lemma set_prop_boolean k b l ps :
  has_own ps "__proto__" = false ->
  set_prop k (Data (VBool b)) (plain l ps)
  = plain l (if String.eqb k "__proto__" then ps
             else define_prop k (Data (VBool b)) ps).
Proof.
  intros Hno. unfold plain. destruct (String.eqb_spec k "__proto__") as [->|Hne].
  - unfold set_prop. by rewrite Hno.
  - by apply set_prop_ordinary.
Qed.

Lemma collect_step_keys kind (b : bool) (results : props field) k :
  k ∈ own_keys (if String.eqb kind "__proto__" then results
                else define_prop kind (Data (VBool b)) results)
  <-> k ∈ own_keys results \/ (k = kind /\ k <> "__proto__").
Proof.
  destruct (String.eqb_spec kind "__proto__") as [->|Hne].
  - split; [by left | intros [?|[-> ?]]; [done | contradiction]].
  - rewrite own_keys_define_prop. split.
    + intros [->|?]; [right; by split | by left].
    + intros [?|[-> _]]; [by right | by left].
Qed.

Lemma collect_keys kinds outcomes results k :
  List.length outcomes = List.length kinds ->
  k ∈ own_keys (collect kinds outcomes results)
  <-> k ∈ own_keys results \/ (k ∈ kinds /\ k <> "__proto__").
Proof.
  revert outcomes results. induction kinds as [|kind ks IH]; intros [|b bs] results Hlen;
    simpl in *; try discriminate.
  - split; [by left | intros [?|[Hin _]]; [done | inversion Hin]].
  - rewrite IH by lia. rewrite collect_step_keys, elem_of_cons. split.
    + intros [[?|[-> ?]]|[? ?]]; auto.
    + intros [?|[[->|?] ?]]; auto.
Qed.

Lemma collect_NoDup kinds outcomes results :
  NoDup (own_keys results) -> NoDup (own_keys (collect kinds outcomes results)).
Proof.
  revert outcomes results. induction kinds as [|kind ks IH]; intros [|b bs] results Hnd;
    simpl; try done.
  apply IH. destruct (String.eqb kind "__proto__"); [done|].
  by apply NoDup_own_keys_define_prop.
Qed.

(** A kind whose every outcome is false ends with the entry false. *)
Lemma collect_false kinds outcomes results k :
  k <> "__proto__" ->
  Forall2 (fun kind outcome => kind = k -> outcome = false) kinds outcomes ->
  get_own results k = Some (Data (VBool false)) \/ get_own results k = None ->
  let final := collect kinds outcomes results in
  get_own final k = Some (Data (VBool false)) \/ (get_own final k = None /\ k ∉ kinds).
Proof.
  intros Hk Hall. revert results. induction Hall as [|kind b ks bs Hb Hrest IH];
    intros results Hstart; simpl.
  - destruct Hstart; [by left | right; split; [done | apply not_elem_of_nil]].
  - destruct (String.eqb_spec kind k) as [->|Hne].
    + rewrite (Hb eq_refl). apply String.eqb_neq in Hk. rewrite Hk.
      destruct (IH (define_prop k (Data (VBool false)) results)) as [?|[Hnone Hout]].
      * left. apply get_own_define_prop_eq.
      * by left.
      * exfalso. apply get_own_None, has_own_false in Hnone. apply Hnone.
        apply collect_keys; [symmetry; exact (Forall2_length _ _ _ Hrest)|].
        left. apply own_keys_define_prop. by left.
    + destruct (IH (if String.eqb kind "__proto__" then results
                    else define_prop kind (Data (VBool b)) results))
        as [?|[Hnone Hout]].
      * destruct (String.eqb kind "__proto__"); [done|].
        by rewrite get_own_define_prop_ne.
      * by left.
      * right. split; [done|]. apply not_elem_of_cons. split; [congruence | done].
Qed.

Lemma exportMultiple_loop_collects this (data : value) basePath kinds options l results w :
  has_own results "__proto__" = false ->
  exists outcomes w',
    export_each this data basePath options kinds w = (Ok outcomes, w') /\
    exportMultiple_loop this data basePath kinds options (plain l results) w
      = (Ok (plain l (collect kinds outcomes results)), w') /\
    Forall2 (fun kind outcome => exporters this !! kind = None -> outcome = false)
      kinds outcomes.
Proof.
  revert results w. induction kinds as [|kind ks IH]; intros results w Hno.
  - exists [], w. repeat split; constructor.
  - destruct (dispatch_outcome_returns this
                (mkRequest data kind (target basePath kind) options) w)
      as (b & w1 & Hone).
    destruct (IH (if String.eqb kind "__proto__" then results
                  else define_prop kind (Data (VBool b)) results) w1)
      as (bs & w2 & Heach & Hloop & Hall).
    { apply has_own_false. rewrite collect_step_keys. apply has_own_false in Hno.
      intros [?|[-> ?]]; done. }
    exists (b :: bs), w2. split; [|split].
    + unfold export_each in *. rewrite mapM_cons, export_dispatch, Hone, Heach.
      reflexivity.
    + cbn [exportMultiple_loop]. unfold bind. fold (target basePath kind).
      rewrite export_dispatch, Hone. cbv beta iota.
      rewrite (set_prop_boolean _ _ _ _ Hno). exact Hloop.
    + constructor; [|exact Hall]. intros Hnone.
      by eapply (dispatch_outcome_unregistered this
                   (mkRequest data kind (target basePath kind) options)).
Qed.

(** C7, as amended: [exportMultiple] runs the single-format export once per
    requested kind, in the order given, on the target made of the prefix, a
    dot and the kind; it throws nothing and returns a new plain object with
    one entry for every requested kind other than [__proto__], each with
    the outcome of its export; a kind that is not registered gets false and
    the kinds after it are still exported. *)
Theorem exportMultiple_fans_out this (data : value) basePath kinds options w :
  exists outcomes results w',
    export_each this data basePath options kinds (allocated 1 w) = (Ok outcomes, w') /\
    List.length outcomes = List.length kinds /\
    exportMultiple this data basePath kinds options w
    = (Ok (plain (next_loc w) results), w') /\
    results = collect kinds outcomes [] /\
    (forall k, k ∈ own_keys results <-> k ∈ kinds /\ k <> "__proto__") /\
    NoDup (own_keys results) /\
    (forall k, k ∈ kinds -> k <> "__proto__" -> exporters this !! k = None ->
               get_own results k = Some (Data (VBool false))).
Proof.
  destruct (exportMultiple_loop_collects this data basePath kinds options (next_loc w)
              [] (allocated 1 w) eq_refl)
    as (outcomes & w' & Heach & Hloop & Hall).
  assert (Hlen : List.length outcomes = List.length kinds)
    by (symmetry; by eapply Forall2_length).
  exists outcomes, (collect kinds outcomes []), w'.
  split; [exact Heach|]. split; [exact Hlen|]. split; [exact Hloop|].
  split; [reflexivity|]. split; [|split].
  - intros k. rewrite collect_keys by exact Hlen. simpl.
    split; [intros [Hin|?]; [inversion Hin | done] | by right].
  - apply collect_NoDup. constructor.
  - intros k Hin Hk Hnone.
    destruct (collect_false kinds outcomes [] k Hk) as [?|[_ Hout]];
      [| by right | done | done].
    eapply Forall2_impl; [exact Hall|]. intros kind b Hb ->. by apply Hb.
Qed.

End Dispatch.


Lemma exportMultiple_fans_out_witness :
  exists w',
    ExportManager.exportMultiple two_encoders alice_bob "/out" ["csv"; "xml"; "json"] None
      (MemDisk.world0 MemDisk.empty_disk)
    = (Ok (plain 100 [("csv", Data (VBool true)); ("xml", Data (VBool false));
                      ("json", Data (VBool true))]), w') /\
    own_keys (MemDisk.files (fs w')) = ["/out.csv"; "/out.json"].
Proof.
  destruct (exportMultiple_fans_out two_encoders alice_bob "/out" ["csv"; "xml"; "json"]
              None (MemDisk.world0 MemDisk.empty_disk))
    as (outcomes & results & w' & Heach & _ & Hrun & _).
  exists w'. split.
  - rewrite Hrun. vm_compute in Hrun. injection Hrun as <- _. reflexivity.
  - vm_compute in Hrun. injection Hrun as _ <-. reflexivity.
Defined.

(** C7 as stated fails: the kind [__proto__] is requested and exported, and
    the mapping has no entry for it. *)
Lemma exportMultiple_skips_proto_entry :
  exists results w',
    ExportManager.exportMultiple two_encoders alice_bob "/out" ["csv"; "__proto__"] None
      (MemDisk.world0 MemDisk.empty_disk)
    = (Ok (plain 100 results), w') /\
    own_keys results = ["csv"] /\
    List.length (log w') = 2 /\
    last (log w') = Some (Err, "Unsupported export format: __proto__").
Proof. eexists _, _. split; [vm_compute; reflexivity|]. repeat split; reflexivity. Qed.

(* ================================================================== *)
(** * Part IX: the encoders *)
(* ================================================================== *)

Section Encoders.
Context `{Runtime} `{FileSystem Disk}.
Implicit Types (w : World Disk) (v : variant) (data : value) (path : string).

(** The [try] block of either encoder, step by step. *)
Lemma try_block_run v data path options w :
  encoder_try v data path options w =
  match processData data options w with
  | (Throw e, w1) => (Throw e, w1)
  | (Ok records, w1) =>
      if Nat.eqb (List.length records) 0
      then (Ok false, logged Warn (empty_line v) w1)
      else
        match ensure_dir path w1 with
        | (Throw e, w2) => (Throw e, w2)
        | (Ok _, w2) =>
            match serialize v records w2 with
            | (Throw e, w3) => (Throw e, w3)
            | (Ok text, w3) =>
                match writeFileSync (fs w3) path text with
                | (Throw e, d) => (Throw e, with_fs w3 d)
                | (Ok _, d) =>
                    (Ok true,
                     logged Info (success_line v (List.length records) path)
                       (with_fs w3 d))
                end
            end
        end
  end.
Proof.
  destruct v; unfold encoder_try, serialize, empty_line, success_line,
    CSVExporter.try_block, JSONExporter.try_block, bind, lift, fs_call, ret,
    logger_log, logged, with_fs, bind_result;
    destruct (processData data options w) as [[records|e] w1]; try reflexivity;
    destruct (Nat.eqb (List.length records) 0); try reflexivity;
    destruct (ensure_dir path w1) as [[[]|e] w2]; try reflexivity.
  - destruct (Object_keys (default VUndefined (records !! 0%nat))) as [headers|e];
      [|reflexivity].
    destruct (CSVExporter.convertToCSV records headers) as [text|e]; [|reflexivity].
    simpl. destruct (writeFileSync (fs w2) path text) as [[[]|e] d]; reflexivity.
  - destruct (JSONExporter.envelope records w2) as [[exportData|e] w3]; [|reflexivity].
    destruct (JSONExporter.pretty_text exportData) as [text|e]; [|reflexivity].
    simpl. destruct (writeFileSync (fs w3) path text) as [[[]|e] d]; reflexivity.
Qed.

(** An encoder turns what its [try] block throws into a logged [false]. *)
Lemma export_run v data path options w :
  encoder_export v data path options w =
  match encoder_try v data path options w with
  | (Ok outcome, w') => (Ok outcome, w')
  | (Throw e, w') => (Ok false, logged Err (failure_line v e) w')
  end.
Proof.
  destruct v; simpl; unfold CSVExporter.export, JSONExporter.export, try_catch;
    match goal with |- context [match ?c with _ => _ end] => destruct c as [[b|e] w'] end;
    reflexivity.
Qed.

Lemma length_zero_nil {A} (l : list A) : Nat.eqb (List.length l) 0 = true <-> l = [].
Proof. destruct l; simpl; split; congruence. Qed.

(** C1, as amended: for the tabular and the structured encoder alike,
    [export] never throws.  It returns false, with a warning logged, when
    the transformed collection is empty; it returns false, with an error
    logged, when anything in its [try] block throws, a failed write
    included, whatever that write left on the disk; and it returns false in
    no other case. *)
Theorem encoder_export_outcome v data path options w :
  (exists outcome w', encoder_export v data path options w = (Ok outcome, w')) /\
  (forall w1, processData data options w = (Ok [], w1) ->
     encoder_export v data path options w
     = (Ok false, logged Warn (empty_line v) w1)) /\
  (forall e w1, encoder_try v data path options w = (Throw e, w1) ->
     encoder_export v data path options w
     = (Ok false, logged Err (failure_line v e) w1)) /\
  (forall records w1 w2 text w3 e d,
     processData data options w = (Ok records, w1) -> records <> [] ->
     ensure_dir path w1 = (Ok tt, w2) ->
     serialize v records w2 = (Ok text, w3) ->
     writeFileSync (fs w3) path text = (Throw e, d) ->
     encoder_export v data path options w
     = (Ok false, logged Err (failure_line v e) (with_fs w3 d))) /\
  (forall w', encoder_export v data path options w = (Ok false, w') ->
     (exists w1, processData data options w = (Ok [], w1)) \/
     (exists e w1, encoder_try v data path options w = (Throw e, w1))).
Proof.
  split; [|split; [|split; [|split]]].
  - rewrite export_run.
    destruct (encoder_try v data path options w) as [[outcome|e] w']; eauto.
  - intros w1 Hempty. rewrite export_run, try_block_run, Hempty. reflexivity.
  - intros e w1 Hthrow. rewrite export_run, Hthrow. reflexivity.
  - intros records w1 w2 text w3 e d Hrun Hne Hdir Htext Hwrite.
    rewrite export_run, try_block_run, Hrun.
    destruct (Nat.eqb (List.length records) 0) eqn:E.
    { apply length_zero_nil in E. contradiction. }
    rewrite Hdir, Htext, Hwrite. reflexivity.
  - intros w' Hfalse. rewrite export_run in Hfalse.
    destruct (encoder_try v data path options w) as [[outcome|e] w1] eqn:Htry;
      [|right; eauto].
    left. injection Hfalse as -> ->. rewrite try_block_run in Htry.
    destruct (processData data options w) as [[records|e] w1]; [|discriminate].
    destruct (Nat.eqb (List.length records) 0) eqn:E.
    + apply length_zero_nil in E. subst. eauto.
    + destruct (ensure_dir path w1) as [[[]|e] w2]; [|discriminate].
      destruct (serialize v records w2) as [[text|e] w3]; [|discriminate].
      destruct (writeFileSync (fs w3) path text) as [[[]|e] d]; discriminate.
Qed.

End Encoders.

(** C1 as stated fails: the write is refused, the transformed collection is
    not empty, and [export] returns false instead of throwing. *)
Lemma export_returns_false_on_write_fault :
  (exists records w1,
     processData one_record None (MemDisk.world0 locked_disk) = (Ok records, w1) /\
     records <> []) /\
  (exists e d, writeFileSync locked_disk "/tmp/out.csv" (String.concat NL ["id"; "1"])
               = (Throw e, d)) /\
  (exists w', CSVExporter.export one_record "/tmp/out.csv" None
                (MemDisk.world0 locked_disk) = (Ok false, w')).
Proof.
  split; [|split].
  - eexists _, _. split; [reflexivity | discriminate].
  - eexists _, _. reflexivity.
  - eexists. vm_compute. reflexivity.
Qed.

Lemma encoder_export_outcome_witness :
  exists w', encoder_export Tabular one_record "/tmp/out.csv" None
               (MemDisk.world0 locked_disk) = (Ok false, w') /\
             log w' = [(Err, "Error exporting to CSV: EACCES: permission denied, open '/tmp/out.csv'")].
Proof.
  destruct (encoder_export_outcome Tabular one_record "/tmp/out.csv" None
              (MemDisk.world0 locked_disk)) as (_ & _ & _ & Hwrite & _).
  eexists. split.
  - eapply Hwrite.
    + reflexivity.
    + discriminate.
    + reflexivity.
    + reflexivity.
    + reflexivity.
  - reflexivity.
Defined.

(** ** Texts on one line *)

Section SingleLine.

Lemma single_line_app a b :
  single_line (a +:+ b) = single_line a && single_line b.
Proof.
  induction a as [|c a IH]; simpl; [reflexivity|].
  rewrite IH. apply andb_assoc.
Qed.

Lemma single_line_join sep xs :
  single_line sep = true ->
  Forall (fun x => single_line x = true) xs ->
  single_line (join sep xs) = true.
Proof.
  intros Hsep. induction 1 as [|x r Hx _ IH]; [reflexivity|].
  unfold join in *. simpl. destruct r as [|y r]; [exact Hx|].
  rewrite !single_line_app, Hx, Hsep. exact IH.
Qed.

Lemma single_line_json_escape c : single_line (json_escape c) = true.
Proof. destruct c as [[] [] [] [] [] [] [] []]; reflexivity. Qed.

Lemma single_line_json_quote s : single_line (json_quote s) = true.
Proof.
  unfold json_quote. rewrite !single_line_app. simpl. rewrite andb_true_r.
  induction s as [|c s IH]; simpl; [reflexivity|].
  by rewrite single_line_app, single_line_json_escape, IH.
Qed.

Lemma single_line_replace_dquotes s :
  single_line s = true -> single_line (replace_dquotes s) = true.
Proof.
  induction s as [|c s IH]; simpl; [reflexivity|].
  intros [Hc Hs]%andb_true_iff.
  destruct (Ascii.eqb c dquote); simpl; rewrite ?Hc, IH; done.
Qed.

(** *** The characters of a text *)

Lemma single_line_all_chars s : single_line s = all_chars printable s.
Proof. induction s as [|c s IH]; simpl; [reflexivity | by rewrite IH]. Qed.

Lemma all_chars_app p a b : all_chars p (a +:+ b) = all_chars p a && all_chars p b.
Proof.
  induction a as [|c a IH]; simpl; [reflexivity|].
  rewrite IH. apply andb_assoc.
Qed.

Lemma all_chars_zeros p n : p "0"%char = true -> all_chars p (zeros n) = true.
Proof. intros Hp. induction n as [|n IH]; simpl; [reflexivity | by rewrite Hp, IH]. Qed.

Lemma all_chars_take p n s :
  all_chars p s = true -> all_chars p (take_chars n s) = true.
Proof.
  revert s. induction n as [|n IH]; intros [|c s]; simpl; try reflexivity.
  intros [Hc Hs]%andb_true_iff. by rewrite Hc, IH.
Qed.

Lemma all_chars_drop p n s :
  all_chars p s = true -> all_chars p (drop_chars n s) = true.
Proof.
  revert s. induction n as [|n IH]; intros [|c s]; simpl; try done.
  intros [Hc Hs]%andb_true_iff. by apply IH.
Qed.

Lemma all_chars_trailing_zeros p s :
  all_chars p s = true -> all_chars p (fst (trailing_zeros s)) = true.
Proof.
  induction s as [|c s IH]; simpl; [reflexivity|].
  intros [Hc Hs]%andb_true_iff. specialize (IH Hs).
  destruct (trailing_zeros s) as [r n]. simpl in IH.
  destruct r as [|d r]; [destruct (Ascii.eqb c "0")|]; simpl in *;
    rewrite ?Hc, ?IH; reflexivity.
Qed.

Lemma all_chars_pretty_N_go p x s :
  (forall n, p (pretty_N_char n) = true) ->
  all_chars p s = true -> all_chars p (pretty_N_go x s) = true.
Proof.
  intros Hp. revert s. induction (N.lt_wf_0 x) as [x _ IH]; intros s Hs.
  assert (x = 0 \/ 0 < x)%N as [->|Hpos] by lia.
  - by rewrite pretty_N_go_0.
  - rewrite pretty_N_go_step by done. apply IH.
    + by apply N.div_lt.
    + simpl. by rewrite Hp, Hs.
Qed.

Lemma all_chars_pretty_N p (x : N) :
  (forall n, p (pretty_N_char n) = true) -> all_chars p (pretty x) = true.
Proof.
  intros Hp. unfold pretty, pretty_N. case_decide.
  - simpl. change "0"%char with (pretty_N_char 0). by rewrite Hp.
  - by apply all_chars_pretty_N_go.
Qed.

Lemma all_chars_In p s c :
  all_chars p s = true -> In c (list_ascii_of_string s) -> p c = true.
Proof.
  induction s as [|d s IH]; simpl; [contradiction|].
  intros [Hd Hs]%andb_true_iff [->|Hin]; [exact Hd | by apply IH].
Qed.

Lemma all_chars_Number_toString p n :
  all_chars p number_alphabet = true -> all_chars p (Number_toString n) = true.
Proof.
  intros Hp.
  assert (Hin : forall c, In c (list_ascii_of_string number_alphabet) -> p c = true)
    by (intros c; by apply all_chars_In).
  assert (Hzero : p "0"%char = true) by (apply Hin; simpl; tauto).
  assert (Hplus : p "+"%char = true) by (apply Hin; simpl; tauto).
  assert (Hminus : p "-"%char = true) by (apply Hin; simpl; tauto).
  assert (Hdot : p "."%char = true) by (apply Hin; simpl; tauto).
  assert (He : p "e"%char = true) by (apply Hin; simpl; tauto).
  assert (Hdigit : forall d, p (pretty_N_char d) = true).
  { intros d. apply Hin. unfold pretty_N_char. repeat case_match; simpl; tauto. }
  assert (Hword : forall word,
            (forall c, In c (list_ascii_of_string word) ->
                       In c (list_ascii_of_string number_alphabet)) ->
            all_chars p word = true).
  { induction word as [|c word IH]; simpl; intros Hsub; [reflexivity|].
    rewrite Hin by (apply Hsub; by left). apply IH. intros d Hd. apply Hsub. by right. }
  destruct n as [m e| | |]; unfold Number_toString;
    [| apply Hword; simpl; tauto..].
  unfold significand. destruct (m =? 0)%Z; [simpl; by rewrite Hzero|].
  pose proof (all_chars_trailing_zeros p (pretty (Z.abs_N m))
                (all_chars_pretty_N p _ Hdigit)) as Hds.
  destruct (trailing_zeros (pretty (Z.abs_N m))) as [ds z]. simpl in Hds.
  rewrite all_chars_app. apply andb_true_iff. split.
  { destruct (m <? 0)%Z; simpl; [by rewrite Hminus | reflexivity]. }
  assert (Hexp : forall x, all_chars p (exponent_text x) = true).
  { intros x. unfold exponent_text. rewrite all_chars_app.
    rewrite (all_chars_pretty_N p _ Hdigit).
    destruct (0 <=? x)%Z; simpl; [by rewrite Hplus | by rewrite Hminus]. }
  unfold unsigned_text.
  repeat match goal with
         | |- context [if ?b then _ else _] => destruct b
         end.
  - by rewrite all_chars_app, Hds, all_chars_zeros.
  - rewrite !all_chars_app, all_chars_take, all_chars_drop by assumption.
    simpl. by rewrite Hdot.
  - rewrite !all_chars_app, all_chars_zeros, Hds by assumption. simpl.
    by rewrite Hzero, Hdot.
  - destruct ds as [|d [|d' r]]; [reflexivity | |]; simpl in *.
    + apply andb_true_iff in Hds as [Hd _]. rewrite Hd, He. simpl. apply Hexp.
    + apply andb_true_iff in Hds as [Hd Hr]. rewrite Hd, Hdot. simpl.
      apply andb_true_iff in Hr as [Hd' Hr]. rewrite Hd'. simpl.
      rewrite all_chars_app, Hr. simpl. rewrite He. simpl. apply Hexp.
Qed.

Lemma single_line_Number_toString n : single_line (Number_toString n) = true.
Proof. rewrite single_line_all_chars. by apply all_chars_Number_toString. Qed.

Lemma single_line_json_member key text :
  single_line text = true -> single_line (json_member "" key text) = true.
Proof.
  intros Ht. unfold json_member.
  rewrite !single_line_app, single_line_json_quote, Ht. reflexivity.
Qed.

Lemma single_line_json_wrap opening closing stepback indent parts :
  single_line opening = true -> single_line closing = true ->
  Forall (fun x => single_line x = true) parts ->
  single_line (json_wrap opening closing "" stepback indent parts) = true.
Proof.
  intros Ho Hc Hparts. unfold json_wrap. destruct parts as [|p r].
  - by rewrite single_line_app, Ho, Hc.
  - simpl String.eqb. cbv iota.
    rewrite !single_line_app, Ho, Hc, single_line_join; done.
Qed.

(** The compact JSON text of a value has no line break. *)
Lemma stringify_single_line v indent text :
  stringify "" indent v = Some text -> single_line text = true.
Proof.
  revert indent text.
  induction v as [| |b|n|s|l proto own _ IH|l elems IH] using value_ind;
    intros indent text Htext; simpl in Htext.
  - discriminate.
  - by injection Htext as <-.
  - injection Htext as <-. by destruct b.
  - destruct n; injection Htext as <-;
      [apply (single_line_Number_toString (Decimal _ _)) | done..].
  - injection Htext as <-. apply single_line_json_quote.
  - injection Htext as <-. apply single_line_json_wrap; [done..|].
    induction IH as [|[k x] r Hx _ IHr]; simpl; [constructor|].
    destruct x as [x|home|kd]; simpl in *.
    + destruct (stringify "" (indent +:+ "") x) as [t|] eqn:E; simpl; [|exact IHr].
      constructor; [|exact IHr]. apply single_line_json_member. by eapply Hx.
    + exact IHr.
    + constructor; [|exact IHr]. apply single_line_json_member. by destruct kd.
  - injection Htext as <-. apply single_line_json_wrap; [done..|].
    induction IH as [|x r Hx _ IHr]; simpl; constructor; [|exact IHr].
    destruct (stringify "" (indent +:+ "") x) as [t|] eqn:E; simpl; [|done].
    by eapply Hx.
Qed.

End SingleLine.

(** ** The tabular encoder *)

Section Tabular.
Context `{Runtime} `{FileSystem Disk}.
Implicit Types (w : World Disk) (records : list value) (headers : list string).

Lemma map_result_total {A B} (f : A -> result B) (g : A -> B) (xs : list A) :
  (forall x, x ∈ xs -> f x = Ok (g x)) -> map_result f xs = Ok (map g xs).
Proof.
  induction xs as [|x r IH]; intros Hf; simpl; [reflexivity|].
  rewrite Hf by left. simpl. rewrite IH; [reflexivity|].
  intros y Hy. apply Hf. by right.
Qed.

Lemma segments_not_nil s : segments s <> [].
Proof.
  destruct s as [|c s]; simpl; [discriminate|].
  destruct (Ascii.eqb c dquote); [discriminate|].
  destruct (segments s); discriminate.
Qed.

(** Replacing every double quote by two is joining the pieces between the
    quotes with two quotes. *)
Lemma replace_dquotes_segments s :
  replace_dquotes s = join (DQ +:+ DQ) (segments s).
Proof.
  induction s as [|c s IH]; simpl; [reflexivity|].
  pose proof (segments_not_nil s) as Hne.
  destruct (Ascii.eqb c dquote).
  - destruct (segments s) as [|piece pieces] eqn:E; [contradiction|].
    rewrite IH. reflexivity.
  - destruct (segments s) as [|piece pieces] eqn:E; [contradiction|].
    rewrite IH. unfold join. simpl. by destruct pieces.
Qed.

Lemma quote_wrapped_replace s : DQ +:+ replace_dquotes s +:+ DQ = quote_wrapped s.
Proof. unfold quote_wrapped. by rewrite replace_dquotes_segments. Qed.

Lemma csv_cell_text header found :
  CSVExporter.csv_cell_of header found = Ok (cell_text header found).
Proof.
  destruct found as [v|home|k]; simpl.
  - destruct v as [| |[]| | | |]; simpl; rewrite ?quote_wrapped_replace; reflexivity.
  - by destruct (method_text home header).
  - by rewrite quote_wrapped_replace.
Qed.

Lemma csv_row_text headers record :
  is_record record -> CSVExporter.csv_row headers record = Ok (row_text headers record).
Proof.
  intros Hrec. unfold CSVExporter.csv_row, row_text.
  rewrite (map_result_total _ (fun h => cell_text h (field_value record h)));
    [reflexivity|].
  intros h _. rewrite (get_prop_record _ _ Hrec). simpl. apply csv_cell_text.
Qed.

Lemma convertToCSV_text records headers :
  Forall is_record records ->
  CSVExporter.convertToCSV records headers = Ok (tabular_text headers records).
Proof.
  intros Hrec. unfold CSVExporter.convertToCSV, tabular_text.
  rewrite (map_result_total _ (row_text headers)); [reflexivity|].
  intros record Hin. apply csv_row_text. rewrite Forall_forall in Hrec. by apply Hrec.
Qed.

Lemma nested_cell_text v :
  is_object v || is_array v = true ->
  exists text, JSON_stringify v = Some text /\ single_line text = true /\
               forall header, cell_text header (Data v) = quote_wrapped text.
Proof.
  intros Hnested.
  destruct (JSON_stringify v) as [text|] eqn:E.
  - exists text. split; [reflexivity|]. split; [by eapply stringify_single_line|].
    intros header. destruct v; try discriminate Hnested; unfold cell_text; by rewrite E.
  - destruct v; discriminate.
Qed.

(** A plain record gives an empty cell under a header it lacks, unless the
    header is a name it inherits. *)
Lemma missing_cell_text l own header :
  get_own own header = None -> header ∉ inherited_names ->
  cell_text header (field_value (plain l own) header) = "".
Proof.
  intros Hown Hno. rewrite field_value_plain, Hown.
  rewrite bool_decide_eq_false_2.
  - by rewrite bool_decide_eq_false_2.
  - intros ->. apply Hno. unfold inherited_names. set_solver.
Qed.

(** C8, as amended: when the transformed collection is a non-empty list of
    records, the tabular encoder takes the names of the first record, in
    that record's order, as headers and writes the header row followed by
    one row per record, newline-joined; a cell holds what the record gives
    under the header: nothing for null and undefined, the quote-wrapped
    text with quotes doubled for a string, the quote-wrapped one-line JSON
    text with quotes doubled for a nested object or array, and the text
    [String] gives a number or boolean.  A plain record gives an empty cell
    under a header it lacks, unless the header is a name every object
    inherits. *)
Theorem csv_export_text (data : value) path options w records w1 :
  processData data options w = (Ok records, w1) ->
  records <> [] ->
  Forall is_record records ->
  let headers := own_keys (fields_of (default VUndefined (head records))) in
  let text := tabular_text headers records in
  CSVExporter.convertToCSV records headers = Ok text /\
  (forall w2, serialize Tabular records w2 = (Ok text, w2)) /\
  (forall w2 d,
     ensure_dir path w1 = (Ok tt, w2) ->
     writeFileSync (fs w2) path text = (Ok tt, d) ->
     CSVExporter.export data path options w
     = (Ok true, logged Info (success_line Tabular (List.length records) path)
                   (with_fs w2 d))) /\
  (forall v, is_object v || is_array v = true ->
     exists nested, JSON_stringify v = Some nested /\ single_line nested = true /\
                    forall header, cell_text header (Data v) = quote_wrapped nested) /\
  (forall l own header, get_own own header = None -> header ∉ inherited_names ->
     cell_text header (field_value (plain l own) header) = "").
Proof.
  intros Hrun Hne Hrec headers text.
  assert (Hconv : CSVExporter.convertToCSV records headers = Ok text)
    by (by apply convertToCSV_text).
  assert (Hser : forall w2, serialize Tabular records w2 = (Ok text, w2)).
  { intros w2. unfold serialize, lift. f_equal.
    destruct records as [|first rest]; [contradiction|].
    inversion Hrec as [|? ? Hfirst _]; subst.
    destruct first; try discriminate Hfirst. simpl. exact Hconv. }
  split; [exact Hconv|]. split; [exact Hser|].
  split; [|split; [exact nested_cell_text | exact missing_cell_text]].
  intros w2 d Hdir Hwrite.
  change (CSVExporter.export data path options w)
    with (encoder_export Tabular data path options w).
  rewrite export_run, try_block_run, Hrun.
  destruct (Nat.eqb (List.length records) 0) eqn:E.
  { apply length_zero_nil in E. contradiction. }
  rewrite Hdir, Hser, Hwrite. reflexivity.
Qed.

End Tabular.

Lemma csv_export_text_witness :
  exists w',
    CSVExporter.export alice_bob "/tmp/out.csv" None (MemDisk.world0 MemDisk.empty_disk)
    = (Ok true, w') /\
    get_own (MemDisk.files (fs w')) "/tmp/out.csv" = Some alice_bob_csv.
Proof.
  destruct (csv_export_text alice_bob "/tmp/out.csv" None
              (MemDisk.world0 MemDisk.empty_disk)
              [plain 1 [("id", Data (VNum (Int 1))); ("name", Data (VStr "Alice"))];
               plain 2 [("id", Data (VNum (Int 2))); ("name", Data (VStr "Bob"))]]
              (MemDisk.world0 MemDisk.empty_disk))
    as (_ & _ & Hexport & _).
  - reflexivity.
  - discriminate.
  - repeat constructor.
  - eexists. split.
    + eapply Hexport; reflexivity.
    + reflexivity.
Defined.

(** C8 as stated fails: the second record has no field [toString], and its
    cell is not empty: it holds the text of the method every object
    inherits under that name. *)
Lemma csv_missing_field_reads_inherited_method :
  let first := plain 1 [("toString", Data (VStr "a"))] in
  let second := plain 2 [] in
  let text := String.concat NL ["toString"; DQ +:+ "a" +:+ DQ;
                                "function toString() { [native code] }"] in
  has_own (fields_of second) "toString" = false /\
  CSVExporter.convertToCSV [first; second] (own_keys (fields_of first)) = Ok text /\
  exists w',
    CSVExporter.export (VArr 0 [first; second]) "/tmp/out.csv" None
      (MemDisk.world0 MemDisk.empty_disk) = (Ok true, w') /\
    get_own (MemDisk.files (fs w')) "/tmp/out.csv" = Some text.
Proof.
  split; [reflexivity|]. split; [reflexivity|].
  eexists. split; [vm_compute; reflexivity | reflexivity].
Qed.

(** Every double quote of a cell is written twice, and a number of 21 digits
    or more is written with an exponent. *)
Example csv_cell_examples :
  CSVExporter.csv_cell (VStr ("say " +:+ DQ +:+ "hi" +:+ DQ))
  = Ok (DQ +:+ "say " +:+ DQ +:+ DQ +:+ "hi" +:+ DQ +:+ DQ +:+ DQ) /\
  CSVExporter.csv_cell (VNum (Decimal 1 21)) = Ok "1e+21" /\
  CSVExporter.csv_cell (VNum (Decimal 15 (-1))) = Ok "1.5".
Proof. repeat split; reflexivity. Qed.

(** Under the header [__proto__] a plain record gives its prototype, an
    object without enumerable fields. *)
Example csv_prototype_cell :
  CSVExporter.convertToCSV [plain 1 [("id", Data (VNum (Int 1)))]] ["id"; "__proto__"]
  = Ok (String.concat NL ["id,__proto__"; "1," +:+ DQ +:+ "{}" +:+ DQ]).
Proof. reflexivity. Qed.

(** ** The structured encoder *)

Section StructuredText.
Context `{Runtime} `{FileSystem Disk}.
Implicit Types (w : World Disk) (records : list value).

Lemma stringify_defined gap indent v :
  v <> VUndefined -> exists text, stringify gap indent v = Some text.
Proof. destruct v as [| | |[]| | |]; simpl; intros Hdef; try congruence; eauto. Qed.

Lemma stringify_field_skipped gap indent f :
  is_skipped f = true -> stringify_field gap indent f = None.
Proof. destruct f as [[]| |]; simpl; intros Hs; try discriminate; reflexivity. Qed.

Lemma stringify_field_defined gap indent f :
  is_skipped f = false -> exists text, stringify_field gap indent f = Some text.
Proof.
  destruct f as [v|home|k]; simpl; intros Hs; [|discriminate | eauto].
  apply stringify_defined. intros ->. discriminate.
Qed.

(** The members of an object's text follow the order of its fields. *)
Lemma stringify_record_members gap indent l proto ps :
  stringify gap indent (VObj l proto ps)
  = Some (json_wrap "{" "}" gap indent (indent +:+ gap)
            (record_members gap (indent +:+ gap) ps)).
Proof.
  simpl. do 2 f_equal.
  set (member := fun kv : string * field =>
         match match snd kv with
               | Data x => stringify gap (indent +:+ gap) x
               | Inherited _ => None
               | Prototype k => Some (prototype_json k)
               end with
         | Some text => Some (json_member gap (fst kv) text)
         | None => None
         end).
  unfold record_members.
  induction ps as [|[k x] r IH]; [reflexivity|].
  change (omap member ((k, x) :: r))
    with (match member (k, x) with
          | Some y => y :: omap member r
          | None => omap member r
          end).
  rewrite IH. unfold member.
  change (match snd (k, x) with
          | Data x0 => stringify gap (indent +:+ gap) x0
          | Inherited _ => None
          | Prototype k0 => Some (prototype_json k0)
          end) with (stringify_field gap (indent +:+ gap) x).
  simpl. destruct (is_skipped x) eqn:E.
  - by rewrite (stringify_field_skipped _ _ _ E).
  - destruct (stringify_field_defined gap (indent +:+ gap) x E) as [text Htext].
    cbn [negb map fst snd]. rewrite Htext. reflexivity.
Qed.

Lemma envelope_run records w :
  JSONExporter.envelope records w
  = (Ok (envelope_of (next_loc w) (clock w (ticks w)) records),
     allocated 3 (ticked w)).
Proof. reflexivity. Qed.

Lemma envelope_pretty_text l exportedAt records :
  records <> [] ->
  JSON_stringify_pretty (envelope_of l exportedAt records)
  = Some (envelope_text exportedAt records).
Proof. destruct records as [|first rest]; [contradiction | reflexivity]. Qed.

(** C9: when the transformed collection is not empty, the structured
    encoder builds an envelope whose metadata block holds the reading of the
    clock, the number of transformed records and the marker 1.0.0, and whose
    data field holds the transformed collection; it writes the envelope's
    JSON text indented by two spaces per level, and in that text the members
    of every object follow the order of the object's fields. *)
Theorem json_export_text (data : value) path options w records w1 w2 :
  processData data options w = (Ok records, w1) ->
  records <> [] ->
  ensure_dir path w1 = (Ok tt, w2) ->
  let exportedAt := clock w2 (ticks w2) in
  let exportData := envelope_of (next_loc w2) exportedAt records in
  let text := envelope_text exportedAt records in
  JSONExporter.envelope records w2 = (Ok exportData, allocated 3 (ticked w2)) /\
  (exists metadata,
     field_value exportData "metadata" = Data metadata /\
     field_value metadata "exportedAt" = Data (VStr exportedAt) /\
     field_value metadata "recordCount"
       = Data (VNum (Int (Z.of_nat (List.length records)))) /\
     field_value metadata "version" = Data (VStr "1.0.0")) /\
  field_value exportData "data" = Data (VArr (S (S (next_loc w2))) records) /\
  JSON_stringify_pretty exportData = Some text /\
  (forall d,
     writeFileSync (fs w2) path text = (Ok tt, d) ->
     JSONExporter.export data path options w
     = (Ok true, logged Info (success_line Structured (List.length records) path)
                   (with_fs (allocated 3 (ticked w2)) d))) /\
  (forall gap indent l proto ps,
     stringify gap indent (VObj l proto ps)
     = Some (json_wrap "{" "}" gap indent (indent +:+ gap)
               (record_members gap (indent +:+ gap) ps))).
Proof.
  intros Hrun Hne Hdir exportedAt exportData text.
  assert (Htext : JSON_stringify_pretty exportData = Some text)
    by (by apply envelope_pretty_text).
  split; [apply envelope_run|].
  split. { eexists. repeat split; reflexivity. }
  split; [reflexivity|].
  split; [exact Htext|]. split; [|exact stringify_record_members].
  intros d Hwrite.
  change (JSONExporter.export data path options w)
    with (encoder_export Structured data path options w).
  rewrite export_run, try_block_run, Hrun.
  destruct (Nat.eqb (List.length records) 0) eqn:E.
  { apply length_zero_nil in E. contradiction. }
  rewrite Hdir.
  assert (Hser : serialize Structured records w2 = (Ok text, allocated 3 (ticked w2))).
  { unfold serialize, bind, lift. rewrite envelope_run.
    unfold JSONExporter.pretty_text. fold exportedAt exportData. by rewrite Htext. }
  rewrite Hser. simpl fs. rewrite Hwrite. reflexivity.
Qed.

End StructuredText.

Lemma json_export_text_witness :
  exists w',
    JSONExporter.export
      (VArr 0 [plain 1 [("name", Data (VStr "Alice")); ("id", Data (VNum (Int 1)))]])
      "/tmp/out.json" None (MemDisk.world0 MemDisk.empty_disk)
    = (Ok true, w') /\
    get_own (MemDisk.files (fs w')) "/tmp/out.json" = Some alice_json.
Proof.
  destruct (json_export_text
              (VArr 0 [plain 1 [("name", Data (VStr "Alice")); ("id", Data (VNum (Int 1)))]])
              "/tmp/out.json" None (MemDisk.world0 MemDisk.empty_disk)
              [plain 1 [("name", Data (VStr "Alice")); ("id", Data (VNum (Int 1)))]]
              (MemDisk.world0 MemDisk.empty_disk)
              (with_fs (MemDisk.world0 MemDisk.empty_disk)
                 (MemDisk.mkDisk ["/tmp"; "/"; "."] [] [] 1000)))
    as (_ & _ & _ & _ & Hexport & _).
  - reflexivity.
  - discriminate.
  - reflexivity.
  - eexists. split.
    + eapply Hexport. reflexivity.
    + reflexivity.
Defined.

(* ================================================================== *)
(** * Part X: further properties of the pipeline *)
(* ================================================================== *)

Section PipelineFrame.
Context `{Runtime}.
Context {Disk : Type}.
Implicit Types (w : World Disk).

Lemma keeps_refl w : keeps_disk_and_log w w.
Proof. unfold keeps_disk_and_log. repeat split; lia. Qed.

Lemma keeps_trans w1 w2 w3 :
  keeps_disk_and_log w1 w2 -> keeps_disk_and_log w2 w3 -> keeps_disk_and_log w1 w3.
Proof.
  unfold keeps_disk_and_log.
  intros (-> & -> & -> & ? & ?) (-> & -> & -> & ? & ?). repeat split; lia.
Qed.

Lemma framed_ret {A} (a : A) : framed (ret (Disk:=Disk) a).
Proof. intros w. apply keeps_refl. Qed.

Lemma framed_lift {A} (r : result A) : framed (lift (Disk:=Disk) r).
Proof. intros w. apply keeps_refl. Qed.

Lemma framed_alloc : framed (@alloc Disk).
Proof. intros w. unfold keeps_disk_and_log. simpl. repeat split; lia. Qed.

Lemma framed_clock : framed (@Date_toISOString Disk).
Proof. intros w. unfold keeps_disk_and_log. simpl. repeat split; lia. Qed.

Lemma framed_bind {A B} (c : M Disk A) (k : A -> M Disk B) :
  framed c -> (forall a, framed (k a)) -> framed (bind c k).
Proof.
  intros Hc Hk w. unfold bind. specialize (Hc w).
  destruct (c w) as [[a|e] w1]; simpl in *; [|exact Hc].
  eapply keeps_trans; [exact Hc | apply Hk].
Qed.

Lemma framed_mapM {A B} (f : A -> M Disk B) (xs : list A) :
  (forall x, framed (f x)) -> framed (mapM f xs).
Proof.
  intros Hf. induction xs as [|x r IH]; simpl; [apply framed_ret|].
  apply framed_bind; [apply Hf|]. intros y.
  apply framed_bind; [exact IH|]. intros ys. apply framed_ret.
Qed.

Lemma framed_selectFields records fields : framed (selectFields (Disk:=Disk) records fields).
Proof.
  apply framed_mapM. intros item. unfold select_item.
  apply framed_bind; [apply framed_alloc|]. intros l.
  apply framed_bind; [apply framed_lift|]. intros ps. apply framed_ret.
Qed.

Lemma framed_addMetadata records : framed (addMetadata (Disk:=Disk) records).
Proof.
  unfold addMetadata. apply framed_bind; [apply framed_clock|]. intros ts.
  apply framed_mapM. intros item. unfold stamp_item.
  apply framed_bind; [apply framed_alloc|]. intros l. apply framed_ret.
Qed.

Lemma framed_processData (data : value) options :
  framed (processData (Disk:=Disk) data options).
Proof.
  unfold processData. destruct data; try apply framed_ret.
  apply framed_bind.
  { destruct (options ≫= filterOptions); [apply framed_lift | apply framed_ret]. }
  intros d1. apply framed_bind.
  { destruct (options ≫= customFields) as [fields|]; [|apply framed_ret].
    destruct (Nat.ltb 0 (List.length fields));
      [apply framed_selectFields | apply framed_ret]. }
  intros d2. apply framed_bind; [|intros d3; apply framed_ret].
  destruct (options ≫= includeMetadata) as [[|]|];
    [apply framed_addMetadata | apply framed_ret..].
Qed.

(** The pipeline, stage by stage. *)
Lemma processData_stages l elems options w :
  processData (VArr l elems) options w =
  match filter_stage options elems with
  | Throw e => (Throw e, w)
  | Ok kept =>
      match project_stage options kept w with
      | (Throw e, w1) => (Throw e, w1)
      | (Ok projected, w1) =>
          match annotate_stage options projected w1 with
          | (Throw e, w2) => (Throw e, w2)
          | (Ok stamped, w2) => (Ok stamped, w2)
          end
      end
  end.
Proof.
  unfold processData, filter_stage, project_stage, annotate_stage, bind, lift, ret.
  destruct (options ≫= filterOptions) as [criteria|].
  - destruct (filterData elems criteria) as [kept|e]; [|reflexivity].
    destruct (options ≫= customFields) as [fields|];
      [destruct (Nat.ltb 0 (List.length fields))|];
      try destruct (selectFields kept fields w) as [[projected|e] w1];
      try reflexivity;
      destruct (options ≫= includeMetadata) as [[|]|]; try reflexivity;
      match goal with |- context [addMetadata ?d ?w0] =>
        destruct (addMetadata d w0) as [[stamped|e] w2] end; reflexivity.
  - destruct (options ≫= customFields) as [fields|];
      [destruct (Nat.ltb 0 (List.length fields))|];
      try destruct (selectFields elems fields w) as [[projected|e] w1];
      try reflexivity;
      destruct (options ≫= includeMetadata) as [[|]|]; try reflexivity;
      match goal with |- context [addMetadata ?d ?w0] =>
        destruct (addMetadata d w0) as [[stamped|e] w2] end; reflexivity.
Qed.

Lemma clock_reads_weaken {A} n m (c : M Disk A) :
  n <= m -> reads_clock_at_most n c -> reads_clock_at_most m c.
Proof. intros Hle Hc w. specialize (Hc w). lia. Qed.

Lemma clock_reads_ret {A} (a : A) : reads_clock_at_most 0 (ret (Disk:=Disk) a).
Proof. intros w. simpl. lia. Qed.

Lemma clock_reads_lift {A} (r : result A) : reads_clock_at_most 0 (lift (Disk:=Disk) r).
Proof. intros w. simpl. lia. Qed.

Lemma clock_reads_bind {A B} n m (c : M Disk A) (k : A -> M Disk B) :
  reads_clock_at_most n c -> (forall a, reads_clock_at_most m (k a)) ->
  reads_clock_at_most (n + m) (bind c k).
Proof.
  intros Hc Hk w. unfold bind. specialize (Hc w).
  destruct (c w) as [[a|e] w1]; simpl in *; [|lia].
  specialize (Hk a w1). lia.
Qed.

Lemma clock_reads_mapM {A B} (f : A -> M Disk B) (xs : list A) :
  (forall x, reads_clock_at_most 0 (f x)) -> reads_clock_at_most 0 (mapM f xs).
Proof.
  intros Hf. induction xs as [|x r IH]; simpl; [apply clock_reads_ret|].
  apply (clock_reads_bind 0 0); [apply Hf|]. intros y.
  apply (clock_reads_bind 0 0); [exact IH|]. intros ys. apply clock_reads_ret.
Qed.

Lemma clock_reads_alloc_then {A} (k : loc -> M Disk A) :
  (forall l, reads_clock_at_most 0 (k l)) -> reads_clock_at_most 0 (bind alloc k).
Proof.
  intros Hk w. unfold bind, alloc.
  exact (Hk (next_loc w) (mkWorld (fs w) (clock w) (ticks w) (S (next_loc w)) (log w))).
Qed.

Lemma clock_reads_processData (data : value) options :
  reads_clock_at_most 1 (processData (Disk:=Disk) data options).
Proof.
  unfold processData.
  destruct data as [| | | | | |l0 elems];
    try (apply (clock_reads_weaken 0); [lia | apply clock_reads_ret]).
  apply (clock_reads_bind 0 1).
  { destruct (options ≫= filterOptions); [apply clock_reads_lift | apply clock_reads_ret]. }
  intros d1. apply (clock_reads_bind 0 1).
  { destruct (options ≫= customFields) as [fields|]; [|apply clock_reads_ret].
    destruct (Nat.ltb 0 (List.length fields)); [|apply clock_reads_ret].
    apply clock_reads_mapM. intros item. apply clock_reads_alloc_then. intros l.
    apply (clock_reads_bind 0 0); [apply clock_reads_lift|]. intros ps.
    apply clock_reads_ret. }
  intros d2. apply (clock_reads_bind 1 0); [|intros d3; apply clock_reads_ret].
  destruct (options ≫= includeMetadata) as [[|]|];
    try (apply (clock_reads_weaken 0); [lia | apply clock_reads_ret]).
  intros w. unfold addMetadata, bind, Date_toISOString.
  pose proof (clock_reads_mapM (stamp_item (clock w (ticks w))) d2) as Hmap.
  specialize (Hmap (fun item => clock_reads_alloc_then _ (fun l => clock_reads_ret _))).
  specialize (Hmap (mkWorld (fs w) (clock w) (S (ticks w)) (next_loc w) (log w))).
  destruct (mapM _ d2 _) as [[ys|e] w2]; simpl in *; lia.
Qed.

(** X1: whatever its arguments, [processData] writes nothing to the disk and
    logs nothing; it reads the clock at most once. *)
Theorem processData_keeps_disk_and_log (data : value) options w :
  keeps_disk_and_log w (snd (processData data options w)) /\
  ticks (snd (processData data options w)) <= S (ticks w).
Proof.
  split; [apply framed_processData | apply clock_reads_processData].
Qed.

End PipelineFrame.

Section PipelineOnRecords.
Context `{Runtime}.
Context {Disk : Type}.
Implicit Types (w : World Disk) (data : list value).

Lemma selectFields_run data selection w :
  Forall is_record data ->
  exists projected,
    selectFields data selection w = (Ok projected, allocated (List.length data) w) /\
    Forall2 (projection selection w) data projected.
Proof.
  intros Hrec. revert w. induction Hrec as [|record rest Hr _ IH]; intros w.
  - exists []. split; [by destruct w | constructor].
  - destruct (IH (allocated 1 w)) as (tail & Hrun & Hall).
    exists (fold_left (select_step record) selection (plain (next_loc w) []) :: tail).
    split.
    + unfold selectFields in *. rewrite mapM_cons, (select_item_record _ _ _ Hr), Hrun.
      by rewrite allocated_succ.
    + constructor; [by apply select_loop_projection|].
      eapply Forall2_impl; [exact Hall|]. intros x y.
      apply projection_mono. simpl. lia.
Qed.

Lemma addMetadata_run data w :
  exists stamped,
    addMetadata data w = (Ok stamped, allocated (List.length data) (ticked w)) /\
    Forall2 (annotated (clock w (ticks w)) w) data stamped.
Proof.
  destruct (mapM_stamp_item (clock w (ticks w)) data (ticked w))
    as (stamped & Hrun & Hall).
  exists stamped. split; [exact Hrun|].
  eapply Forall2_impl; [exact Hall|]. intros x y. apply annotated_mono. simpl. lia.
Qed.

Lemma projection_is_record selection w record projected :
  projection selection w record projected -> is_record projected.
Proof. intros (l & proto & sel & -> & _). reflexivity. Qed.

Lemma annotated_is_record timestamp w item stamped :
  annotated timestamp w item stamped -> is_record stamped.
Proof. intros (l & ps & -> & _). reflexivity. Qed.

Lemma Forall2_records_right {A} (R : A -> value -> Prop) (xs : list A) ys :
  (forall x y, R x y -> is_record y) -> Forall2 R xs ys -> Forall is_record ys.
Proof. intros HR. induction 1; constructor; eauto. Qed.

Lemma filter_records (p : value -> bool) data :
  Forall is_record data -> Forall is_record (List.filter p data).
Proof.
  induction 1 as [|x r Hx _ IH]; simpl; [constructor|].
  destruct (p x); [by constructor | exact IH].
Qed.

Lemma filter_stage_records options data :
  Forall is_record data ->
  exists kept, filter_stage options data = Ok kept /\
    Forall is_record kept /\ List.length kept <= List.length data /\
    (options ≫= filterOptions = None -> kept = data).
Proof.
  intros Hrec. unfold filter_stage.
  destruct (options ≫= filterOptions) as [criteria|].
  - exists (List.filter (satisfies criteria) data).
    split; [by apply filterData_records|]. split; [by apply filter_records|].
    split; [apply sublist_length, filter_sublist | discriminate].
  - exists data. auto.
Qed.

Lemma project_stage_records options data w :
  Forall is_record data ->
  exists projected w1, project_stage options data w = (Ok projected, w1) /\
    Forall is_record projected /\ List.length projected = List.length data.
Proof.
  intros Hrec. unfold project_stage.
  destruct (options ≫= customFields) as [fields|]; [|by exists data, w].
  destruct (Nat.ltb 0 (List.length fields)); [|by exists data, w].
  destruct (selectFields_run data fields w Hrec) as (projected & Hrun & Hall).
  exists projected, (allocated (List.length data) w). split; [exact Hrun|]. split.
  - eapply Forall2_records_right; [|exact Hall]. apply projection_is_record.
  - symmetry. by eapply Forall2_length.
Qed.

Lemma annotate_stage_records options data w :
  Forall is_record data ->
  exists stamped w1, annotate_stage options data w = (Ok stamped, w1) /\
    Forall is_record stamped /\ List.length stamped = List.length data.
Proof.
  intros Hrec. unfold annotate_stage.
  destruct (options ≫= includeMetadata) as [[|]|]; try by exists data, w.
  destruct (addMetadata_run data w) as (stamped & Hrun & Hall).
  exists stamped, (allocated (List.length data) (ticked w)). split; [exact Hrun|]. split.
  - eapply Forall2_records_right; [|exact Hall]. apply annotated_is_record.
  - symmetry. by eapply Forall2_length.
Qed.

Lemma processData_total_on_records_aux l data options w :
  Forall is_record data ->
  exists output w',
    processData (VArr l data) options w = (Ok output, w') /\
    Forall is_record output.
Proof.
  intros Hrec. rewrite processData_stages.
  destruct (filter_stage_records options data Hrec) as (kept & -> & Hkept & _).
  destruct (project_stage_records options kept w Hkept) as (projected & w1 & -> & Hproj & _).
  destruct (annotate_stage_records options projected w1 Hproj)
    as (stamped & w2 & -> & Hst & _).
  by exists stamped, w2.
Qed.

(** X2: on an array of records the pipeline never throws, whatever the
    options; it returns records, at most as many as it was given, and
    exactly as many when no filter is configured. *)
Theorem processData_total_on_records l data options w :
  Forall is_record data ->
  exists output w',
    processData (VArr l data) options w = (Ok output, w') /\
    Forall is_record output /\
    List.length output <= List.length data /\
    (options ≫= filterOptions = None -> List.length output = List.length data).
Proof.
  intros Hrec. rewrite processData_stages.
  destruct (filter_stage_records options data Hrec) as (kept & -> & Hkept & Hlen & Hsame).
  destruct (project_stage_records options kept w Hkept)
    as (projected & w1 & -> & Hproj & Hlen1).
  destruct (annotate_stage_records options projected w1 Hproj)
    as (stamped & w2 & -> & Hst & Hlen2).
  exists stamped, w2. split; [reflexivity|]. split; [exact Hst|].
  split; [lia|]. intros Hnone. rewrite (Hsame Hnone) in *. lia.
Qed.

Lemma Forall2_compose {A B C} (R1 : A -> B -> Prop) (R2 : B -> C -> Prop)
    (R : A -> C -> Prop) xs ys zs :
  (forall x y z, R1 x y -> R2 y z -> R x z) ->
  Forall2 R1 xs ys -> Forall2 R2 ys zs -> Forall2 R xs zs.
Proof.
  intros HR H1. revert zs. induction H1 as [|x y xs ys Hxy _ IH]; intros zs H2.
  - inversion H2. constructor.
  - inversion H2 as [|? z ? zs' Hyz Hrest]; subst. constructor; eauto.
Qed.

Lemma projection_then_annotated selection timestamp w w1 record projected stamped :
  projection selection w record projected ->
  annotated timestamp w1 projected stamped ->
  transformed selection timestamp record stamped.
Proof.
  intros (lm & proto & sel & -> & _ & Hkeys & Hvals & _)
         (lo & ps & -> & _ & Hat & Hver & Hother & Hstamped).
  simpl in Hother, Hstamped. exists lo, ps.
  split; [reflexivity|]. split; [|split; [exact Hat|split; [exact Hver|]]].
  - intros k Hk. rewrite Hstamped, (Hkeys k Hk). reflexivity.
  - intros k Hres Hk Hin. rewrite (Hother k Hres). apply (Hvals k Hk).
    apply Hstamped in Hin as [Hin|Hin]; [exact Hin | contradiction].
Qed.

(** X3: with a filter, a selection and metadata all configured, the
    pipeline filters on the records as given (so a filter may use a field
    the selection drops), projects what it kept, and stamps the projections:
    every output record holds the selected fields its source has plus the
    two reserved fields, which are present even when not selected.  The
    output records are plain objects whatever the selection did to the
    prototype of a projection. *)
Theorem processData_filters_projects_annotates l data criteria selection w :
  Forall is_record data ->
  selection <> [] ->
  exists output w',
    processData (VArr l data)
      (Some (mkOptions (Some true) (Some selection) (Some criteria))) w
    = (Ok output, w') /\
    Forall2 (transformed selection (clock w (ticks w)))
      (List.filter (satisfies criteria) data) output.
Proof.
  intros Hrec Hne. rewrite processData_stages. unfold filter_stage. simpl.
  rewrite (filterData_records _ _ Hrec).
  set (kept := List.filter (satisfies criteria) data).
  assert (Hkept : Forall is_record kept) by (by apply filter_records).
  unfold project_stage. simpl.
  destruct selection as [|f rest]; [contradiction|]. simpl.
  destruct (selectFields_run kept (f :: rest) w Hkept) as (projected & -> & Hproj).
  unfold annotate_stage. simpl.
  destruct (addMetadata_run projected (allocated (List.length kept) w))
    as (stamped & -> & Hst).
  eexists stamped, _. split; [reflexivity|].
  eapply Forall2_compose; [|exact Hproj|exact Hst].
  intros x y z. apply projection_then_annotated.
Qed.

End PipelineOnRecords.

Lemma processData_total_on_records_witness :
  exists output w',
    processData (VArr 0 active_inactive)
      (Some (mkOptions None (Some ["id"]) (Some [("status", VStr "active")])))
      (MemDisk.world0 MemDisk.empty_disk) = (Ok output, w') /\
    map fields_of output = [[("id", Data (VNum (Int 1)))]].
Proof.
  destruct (processData_total_on_records 0 active_inactive
              (Some (mkOptions None (Some ["id"]) (Some [("status", VStr "active")])))
              (MemDisk.world0 MemDisk.empty_disk))
    as (output & w' & Hrun & _).
  - repeat constructor.
  - exists output, w'. split; [exact Hrun|].
    vm_compute in Hrun. injection Hrun as <- _. reflexivity.
Defined.

Lemma processData_filters_projects_annotates_witness :
  exists output w',
    processData (VArr 0 active_inactive)
      (Some (mkOptions (Some true) (Some ["id"]) (Some [("status", VStr "active")])))
      (MemDisk.world0 MemDisk.empty_disk) = (Ok output, w') /\
    map fields_of output
    = [[("id", Data (VNum (Int 1))); ("_exportedAt", Data (VStr "t0")); ("_exportVersion", Data (VStr "1.0.0"))]].
Proof.
  destruct (processData_filters_projects_annotates 0 active_inactive
              [("status", VStr "active")] ["id"]
              (MemDisk.world0 MemDisk.empty_disk))
    as (output & w' & Hrun & _).
  - repeat constructor.
  - discriminate.
  - exists output, w'. split; [exact Hrun|].
    vm_compute in Hrun. injection Hrun as <- _. reflexivity.
Defined.

Section PipelineEdges.
Context `{Runtime}.
Implicit Types (data before after : list value) (criteria : props value).

Lemma get_prop_not_nullish item key :
  nullish item = false -> exists found, get_prop item key = Ok found.
Proof. destruct item; simpl; intros Hn; try discriminate; eauto. Qed.

Lemma matches_filter_not_nullish item criteria :
  nullish item = false -> exists keep, matches_filter item criteria = Ok keep.
Proof.
  intros Hn. induction criteria as [|[key expected] rest IH]; simpl; [eauto|].
  destruct (get_prop_not_nullish item key Hn) as [found ->]. simpl.
  destruct (reads_as found expected); simpl; eauto.
Qed.

Lemma filterData_not_nullish data criteria :
  Forall (fun item => nullish item = false) data ->
  exists kept, filterData data criteria = Ok kept.
Proof.
  induction 1 as [|item rest Hitem _ [kept IH]]; simpl; [eauto|].
  destruct (matches_filter_not_nullish item criteria Hitem) as [keep ->].
  rewrite IH. simpl. eauto.
Qed.

Lemma filterData_empty_criteria data : filterData data [] = Ok data.
Proof. induction data as [|item rest IH]; simpl; [reflexivity | by rewrite IH]. Qed.

(** The error of reading [key] from null or undefined. *)
Lemma get_prop_nullish item key :
  nullish item = true ->
  get_prop item key
  = Throw (TypeError ("Cannot read properties of " +:+ String_of item
                      +:+ " (reading '" +:+ key +:+ "')")).
Proof. destruct item; simpl; intros Hn; try discriminate; reflexivity. Qed.

Lemma filterData_throws_at_nullish before item after key expected rest :
  Forall (fun x => nullish x = false) before ->
  nullish item = true ->
  filterData (before ++ item :: after) ((key, expected) :: rest)
  = Throw (TypeError ("Cannot read properties of " +:+ String_of item
                      +:+ " (reading '" +:+ key +:+ "')")).
Proof.
  intros Hbefore Hitem. induction Hbefore as [|x r Hx _ IH].
  - simpl. by rewrite (get_prop_nullish item key Hitem).
  - change ((x :: r) ++ item :: after) with (x :: (r ++ item :: after)).
    destruct (matches_filter_not_nullish x ((key, expected) :: rest) Hx) as [keep Hkeep].
    change (filterData (x :: (r ++ item :: after)) ((key, expected) :: rest))
      with (let? keep := matches_filter x ((key, expected) :: rest) in
            let? kept := filterData (r ++ item :: after) ((key, expected) :: rest) in
            Ok (if keep then x :: kept else kept)).
    rewrite Hkeep, IH. reflexivity.
Qed.

(** X4: an empty filter keeps every element, records or not; a filter with
    at least one pair throws a TypeError at the first null or undefined
    element, naming the first filtered field. *)
Theorem filterData_null_elements before item after key expected rest :
  Forall (fun x => nullish x = false) before ->
  nullish item = true ->
  filterData (before ++ item :: after) [] = Ok (before ++ item :: after) /\
  filterData (before ++ item :: after) ((key, expected) :: rest)
  = Throw (TypeError ("Cannot read properties of " +:+ String_of item
                      +:+ " (reading '" +:+ key +:+ "')")).
Proof.
  intros Hbefore Hitem. split.
  - apply filterData_empty_criteria.
  - by apply filterData_throws_at_nullish.
Qed.

Lemma satisfies_app c1 c2 record :
  satisfies (c1 ++ c2) record = satisfies c1 record && satisfies c2 record.
Proof. unfold satisfies. apply forallb_app. Qed.

Lemma filter_filter {A} (p q : A -> bool) (l : list A) :
  List.filter q (List.filter p l) = List.filter (fun x => p x && q x) l.
Proof.
  induction l as [|x l IH]; simpl; [reflexivity|].
  destruct (p x); simpl; [destruct (q x)|]; by rewrite ?IH.
Qed.

(** X5: on records, filtering by one filter and then by another keeps
    exactly the records that satisfy both, in their order; the two filters
    can be applied in either order; and filtering a second time by the
    same filter changes nothing. *)
Theorem filterData_composes data c1 c2 :
  Forall is_record data ->
  (let? kept := filterData data c1 in filterData kept c2)
  = Ok (List.filter (fun r => satisfies c1 r && satisfies c2 r) data) /\
  (let? kept := filterData data c1 in filterData kept c2)
  = (let? kept := filterData data c2 in filterData kept c1) /\
  (let? kept := filterData data c1 in filterData kept c1) = filterData data c1.
Proof.
  intros Hrec.
  assert (Hkept : forall c, Forall is_record (List.filter (satisfies c) data))
    by (intros c; by apply filter_records).
  rewrite !(filterData_records data) by exact Hrec. simpl.
  rewrite !filterData_records by apply Hkept.
  rewrite !filter_filter. split; [reflexivity|].
  split; f_equal; apply filter_ext; intros r.
  - apply andb_comm.
  - by destruct (satisfies c1 r).
Qed.

Context {Disk : Type}.
Implicit Types (w : World Disk).

Lemma has_property_object_or_array field item :
  is_object_or_array item = true -> exists present, has_property field item = Ok present.
Proof. destruct item; simpl; intros Hitem; try discriminate; eauto. Qed.

Lemma select_loop_object_or_array item fields acc :
  is_object_or_array item = true ->
  exists selected, select_loop item fields acc = Ok selected.
Proof.
  intros Hitem. revert acc. induction fields as [|f rest IH]; intros acc; simpl; [eauto|].
  destruct (has_property_object_or_array f item Hitem) as [present ->]. simpl.
  destruct present; [|apply IH].
  destruct (get_prop_not_nullish item f) as [found ->]; [|simpl; apply IH].
  by destruct item.
Qed.

Lemma has_property_primitive field item :
  is_object_or_array item = false ->
  has_property field item
  = Throw (TypeError ("Cannot use 'in' operator to search for '" +:+ field
                      +:+ "' in " +:+ String_of item)).
Proof. destruct item; simpl; intros Hitem; try discriminate; reflexivity. Qed.

(** X6: the projection step accepts objects and arrays only: with a
    non-empty selection it throws a TypeError at the first element that is
    a primitive, null or undefined, after taking one heap cell per element
    up to and including that one. *)
Theorem selectFields_throws_on_primitive before item after field rest w :
  Forall (fun x => is_object_or_array x = true) before ->
  is_object_or_array item = false ->
  selectFields (before ++ item :: after) (field :: rest) w
  = (Throw (TypeError ("Cannot use 'in' operator to search for '" +:+ field
                       +:+ "' in " +:+ String_of item)),
     allocated (S (List.length before)) w).
Proof.
  intros Hbefore Hitem. revert w.
  induction Hbefore as [|x r Hx _ IH]; intros w.
  - unfold selectFields. simpl app. rewrite mapM_cons.
    unfold select_item, bind, alloc, lift. simpl select_loop.
    rewrite (has_property_primitive field item Hitem). reflexivity.
  - unfold selectFields in *. simpl app. rewrite mapM_cons.
    destruct (select_loop_object_or_array x (field :: rest) (plain (next_loc w) []) Hx)
      as [selected Hsel].
    unfold select_item at 1, bind at 1 2, alloc, lift at 1, ret at 1. rewrite Hsel.
    change (mkWorld (fs w) (clock w) (ticks w) (S (next_loc w)) (log w))
      with (allocated 1 w).
    rewrite IH. by rewrite allocated_succ.
Qed.

End PipelineEdges.

Lemma filterData_null_elements_witness :
  filterData ([plain 1 [("id", Data (VNum (Int 1)))]] ++ VNull :: []) [("id", VNum (Int 1))]
  = Throw (TypeError "Cannot read properties of null (reading 'id')").
Proof.
  apply (filterData_null_elements [plain 1 [("id", Data (VNum (Int 1)))]] VNull []
           "id" (VNum (Int 1)) []).
  - repeat constructor.
  - reflexivity.
Defined.

Lemma filterData_composes_witness :
  (let? kept := filterData active_inactive [("status", VStr "active")] in
   filterData kept [("status", VStr "inactive")])
  = Ok [] /\
  (let? kept := filterData active_inactive [("status", VStr "active")] in
   filterData kept [("id", VNum (Int 1))])
  = Ok [plain 1 [("id", Data (VNum (Int 1))); ("status", Data (VStr "active"))]].
Proof.
  split.
  - destruct (filterData_composes active_inactive
                [("status", VStr "active")] [("status", VStr "inactive")]) as [Hrun _].
    + repeat constructor.
    + rewrite Hrun. reflexivity.
  - destruct (filterData_composes active_inactive
                [("status", VStr "active")] [("id", VNum (Int 1))]) as [Hrun _].
    + repeat constructor.
    + rewrite Hrun. reflexivity.
Defined.

Lemma selectFields_throws_on_primitive_witness :
  selectFields ([plain 1 [("id", Data (VNum (Int 1)))]] ++ VNum (Int 5) :: []) ["id"]
    (MemDisk.world0 MemDisk.empty_disk)
  = (Throw (TypeError "Cannot use 'in' operator to search for 'id' in 5"),
     allocated 2 (MemDisk.world0 MemDisk.empty_disk)).
Proof.
  apply (selectFields_throws_on_primitive [plain 1 [("id", Data (VNum (Int 1)))]]
           (VNum (Int 5)) [] "id" []).
  - repeat constructor.
  - reflexivity.
Defined.

(* ================================================================== *)
(** * Part XI: further properties of the encoders *)
(* ================================================================== *)

Section EncoderEdges.
Context `{Runtime}.
Context `{FileSystem Disk}.
Implicit Types (w : World Disk) (v : variant) (path : string).

(** X7: when the data holds a null or undefined element and a filter with
    at least one pair is configured, either encoder returns false and logs
    the TypeError; the disk, the clock and the heap are left as they were. *)
Theorem export_false_on_null_element_with_filter
    v l before item after key expected rest options path w :
  Forall (fun x => nullish x = false) before ->
  nullish item = true ->
  options ≫= filterOptions = Some ((key, expected) :: rest) ->
  encoder_export v (VArr l (before ++ item :: after)) path options w
  = (Ok false,
     logged Err (failure_line v
                   (TypeError ("Cannot read properties of " +:+ String_of item
                               +:+ " (reading '" +:+ key +:+ "')"))) w).
Proof.
  intros Hbefore Hitem Hfilter.
  rewrite export_run, try_block_run, processData_stages.
  unfold filter_stage. rewrite Hfilter.
  by rewrite (filterData_throws_at_nullish before item after key expected rest).
Qed.

(** X8: when the transformed collection is empty, either encoder returns
    false after logging one warning, and the disk is untouched: no
    directory is created and nothing is written. *)
Theorem export_empty_leaves_disk v (data : value) path options w :
  fst (processData data options w) = Ok [] ->
  exists w',
    encoder_export v data path options w = (Ok false, w') /\
    fs w' = fs w /\
    log w' = log w ++ [(Warn, empty_line v)].
Proof.
  intros Hempty. rewrite export_run, try_block_run.
  pose proof (framed_processData data options w) as (Hfs & Hlog & _).
  destruct (processData data options w) as [[records|e] w1]; simpl in *;
    [|discriminate].
  injection Hempty as ->. simpl.
  eexists. split; [reflexivity|]. simpl. by rewrite Hfs, Hlog.
Qed.

Lemma serialize_keeps_disk v records w :
  fs (snd (serialize v records w)) = fs w.
Proof.
  destruct v; unfold serialize; [reflexivity|].
  unfold bind. rewrite envelope_run. reflexivity.
Qed.

(** X9: nothing is undone after a write that fails: when the target's
    directory had to be created and the write then throws, the encoder
    returns false, logs the error, and leaves the disk as the failed write
    left it, the new directory included. *)
Theorem export_failed_write_not_undone
    v (data : value) path options w records w1 created text w3 e left :
  processData data options w = (Ok records, w1) ->
  records <> [] ->
  existsSync (fs w1) (dirname path) = false ->
  mkdirSync (fs w1) (dirname path) = (Ok tt, created) ->
  serialize v records (with_fs w1 created) = (Ok text, w3) ->
  writeFileSync created path text = (Throw e, left) ->
  exists w',
    encoder_export v data path options w = (Ok false, w') /\
    fs w' = left /\
    log w' = log w ++ [(Err, failure_line v e)].
Proof.
  intros Hrun Hne Hexists Hmkdir Htext Hwrite.
  rewrite export_run, try_block_run, Hrun.
  destruct (Nat.eqb (List.length records) 0) eqn:E.
  { apply length_zero_nil in E. contradiction. }
  unfold ensure_dir, fs_call. rewrite Hexists, Hmkdir. simpl negb. cbv iota.
  rewrite Htext.
  assert (Hdisk : fs w3 = created).
  { pose proof (serialize_keeps_disk v records (with_fs w1 created)) as Hk.
    rewrite Htext in Hk. exact Hk. }
  rewrite Hdisk, Hwrite.
  eexists. split; [reflexivity|]. split; [reflexivity|]. simpl. f_equal.
  pose proof (framed_processData data options w) as (_ & Hlog & _).
  rewrite Hrun in Hlog. simpl in Hlog.
  destruct v.
  - unfold serialize, lift in Htext. injection Htext as _ <-. simpl. exact Hlog.
  - unfold serialize, bind in Htext. rewrite envelope_run in Htext.
    unfold lift in Htext. injection Htext as _ <-. simpl. exact Hlog.
Qed.

End EncoderEdges.

Lemma export_false_on_null_element_with_filter_witness :
  encoder_export Structured (VArr 0 ([] ++ VNull :: [])) "/tmp/out.json"
    (Some (mkOptions None None (Some [("id", VNum (Int 1))])))
    (MemDisk.world0 MemDisk.empty_disk)
  = (Ok false,
     logged Err "Error exporting to JSON: Cannot read properties of null (reading 'id')"
       (MemDisk.world0 MemDisk.empty_disk)).
Proof.
  apply (export_false_on_null_element_with_filter Structured 0 [] VNull []
           "id" (VNum (Int 1)) []).
  - constructor.
  - reflexivity.
  - reflexivity.
Defined.

Lemma export_empty_leaves_disk_witness :
  exists w',
    encoder_export Tabular (VArr 0 active_inactive) "/tmp/out.csv"
      (Some (mkOptions None None (Some [("status", VStr "archived")])))
      (MemDisk.world0 MemDisk.empty_disk) = (Ok false, w') /\
    fs w' = MemDisk.empty_disk.
Proof.
  destruct (export_empty_leaves_disk Tabular (VArr 0 active_inactive) "/tmp/out.csv"
              (Some (mkOptions None None (Some [("status", VStr "archived")])))
              (MemDisk.world0 MemDisk.empty_disk)) as (w' & Hrun & Hfs & _).
  - reflexivity.
  - exists w'. split; [exact Hrun | exact Hfs].
Defined.

Lemma export_failed_write_not_undone_witness :
  exists w',
    encoder_export Tabular one_record "/tmp/out.csv" None
      (MemDisk.world0 (MemDisk.mkDisk ["/"] [] [] 0)) = (Ok false, w') /\
    fs w' = MemDisk.mkDisk ["/tmp"; "/"] [("/tmp/out.csv", "")] [] 0.
Proof.
  destruct (export_failed_write_not_undone Tabular one_record "/tmp/out.csv" None
              (MemDisk.world0 (MemDisk.mkDisk ["/"] [] [] 0))
              [plain 1 [("id", Data (VNum (Int 1)))]]
              (MemDisk.world0 (MemDisk.mkDisk ["/"] [] [] 0))
              (MemDisk.mkDisk ["/tmp"; "/"] [] [] 0)
              (String.concat NL ["id"; "1"])
              (with_fs (MemDisk.world0 (MemDisk.mkDisk ["/"] [] [] 0))
                 (MemDisk.mkDisk ["/tmp"; "/"] [] [] 0))
              (Error "ENOSPC: no space left on device, write")
              (MemDisk.mkDisk ["/tmp"; "/"] [("/tmp/out.csv", "")] [] 0))
    as (w' & Hrun & Hfs & _).
  - reflexivity.
  - discriminate.
  - reflexivity.
  - reflexivity.
  - reflexivity.
  - reflexivity.
  - exists w'. split; [exact Hrun | exact Hfs].
Defined.

Section TabularEdges.
Context `{Runtime}.







Lemma row_text_agree headers r r' :
  agree_on headers r r' -> row_text headers r = row_text headers r'.
Proof.
  intros Hagree. unfold row_text. f_equal. apply map_ext_in.
  intros h Hin. f_equal. apply Hagree. by apply list_elem_of_In.
Qed.

(** X11: the tabular text reads the records through the headers only: two
    collections of records that agree on every header give the same text,
    whatever other fields their records hold.  Agreeing on a header is
    reading the same under it, through the prototype chain. *)
Theorem convertToCSV_reads_headers_only headers rs rs' :
  Forall is_record rs -> Forall is_record rs' ->
  Forall2 (agree_on headers) rs rs' ->
  CSVExporter.convertToCSV rs headers = CSVExporter.convertToCSV rs' headers.
Proof.
  intros Hrs Hrs' Hagree.
  rewrite !convertToCSV_text by assumption. unfold tabular_text. do 3 f_equal.
  clear Hrs Hrs'. induction Hagree as [|r r' rs rs' Hr _ IH]; simpl; [reflexivity|].
  by rewrite (row_text_agree headers r r' Hr), IH.
Qed.

Context {Disk : Type}.

Lemma csv_row_no_headers item : CSVExporter.csv_row [] item = Ok "".
Proof. reflexivity. Qed.

(** X12: when the first element is an object without fields there are no
    headers, and the text is one empty line for the header row and one for
    every element, whatever the other elements hold. *)
Theorem csv_first_record_without_fields l proto rest (w : World Disk) :
  serialize Tabular (VObj l proto [] :: rest) w
  = (Ok (join NL (repeat "" (2 + List.length rest))), w).
Proof.
  unfold serialize, lift. simpl. f_equal.
  unfold CSVExporter.convertToCSV. simpl.
  rewrite (map_result_total _ (fun _ => "")) by (intros; apply csv_row_no_headers).
  simpl. do 3 f_equal. induction rest as [|x r IH]; simpl; [reflexivity | by rewrite IH].
Qed.

End TabularEdges.

Lemma convertToCSV_reads_headers_only_witness :
  CSVExporter.convertToCSV [plain 1 [("id", Data (VNum (Int 1))); ("secret", Data (VStr "x"))]] ["id"]
  = CSVExporter.convertToCSV [plain 2 [("id", Data (VNum (Int 1)))]] ["id"].
Proof.
  apply convertToCSV_reads_headers_only.
  - repeat constructor.
  - repeat constructor.
  - constructor; [|constructor]. intros h Hin.
    apply list_elem_of_singleton in Hin. subst. reflexivity.
Defined.

Section EncoderEdgesMore.
Context `{Runtime}.
Context `{FileSystem Disk}.
Implicit Types (w : World Disk) (path : string).

Lemma processData_plain l elems options w :
  no_options options -> processData (VArr l elems) options w = (Ok elems, w).
Proof.
  intros (Hfilter & Hfields & Hmeta). rewrite processData_stages.
  unfold filter_stage, project_stage, annotate_stage. rewrite Hfilter.
  assert (Hsel : match options ≫= customFields with
                 | Some fields =>
                     if Nat.ltb 0 (List.length fields)
                     then selectFields (Disk:=Disk) elems fields
                     else ret elems
                 | None => ret elems
                 end w = (Ok elems, w)).
  { destruct Hfields as [-> | ->]; reflexivity. }
  rewrite Hsel.
  destruct (options ≫= includeMetadata) as [[|]|]; [congruence | reflexivity..].
Qed.

(** [ensure_dir] changes the disk only. *)
Lemma ensure_dir_keeps path w :
  let w' := snd (ensure_dir path w) in
  log w' = log w /\ clock w' = clock w /\ ticks w' = ticks w /\ next_loc w' = next_loc w.
Proof.
  unfold ensure_dir, fs_call.
  destruct (negb (existsSync (fs w) (dirname path))); [|by repeat split].
  destruct (mkdirSync (fs w) (dirname path)) as [r d]; by repeat split.
Qed.

(** X13: with no options, data whose first element is null or undefined
    makes the tabular encoder return false: reading the headers throws, the
    error is logged, and nothing is written (the target's directory may
    have been created before). *)
Theorem csv_export_false_on_null_first_element l item rest options path w :
  nullish item = true ->
  no_options options ->
  exists w' line,
    CSVExporter.export (VArr l (item :: rest)) path options w = (Ok false, w') /\
    log w' = log w ++ [(Err, line)] /\
    (forall w2, ensure_dir path w = (Ok tt, w2) ->
       w' = logged Err "Error exporting to CSV: Cannot convert undefined or null to object" w2).
Proof.
  intros Hitem Hplain.
  change (CSVExporter.export (VArr l (item :: rest)) path options w)
    with (encoder_export Tabular (VArr l (item :: rest)) path options w).
  rewrite export_run, try_block_run, (processData_plain _ _ _ _ Hplain).
  simpl Nat.eqb. cbv iota.
  pose proof (ensure_dir_keeps path w) as (Hlog & _).
  destruct (ensure_dir path w) as [[[]|e] w2]; simpl in Hlog.
  - assert (Hser : serialize Tabular (item :: rest) w2
                   = (Throw (TypeError "Cannot convert undefined or null to object"), w2)).
    { unfold serialize, lift. destruct item; try discriminate Hitem; reflexivity. }
    rewrite Hser. eexists _, _. split; [reflexivity|]. split.
    + simpl. by rewrite Hlog.
    + intros w2' Heq. by injection Heq as <-.
  - eexists _, _. split; [reflexivity|]. split.
    + simpl. by rewrite Hlog.
    + intros w2' Heq. discriminate Heq.
Qed.

Lemma annotated_exportedAt timestamp w item stamped :
  annotated timestamp w item stamped ->
  field_value stamped "_exportedAt" = Data (VStr timestamp).
Proof.
  intros (l & ps & -> & _ & Hat & _). unfold field_value, plain. simpl. by rewrite Hat.
Qed.

(** X14: with metadata configured, the structured encoder reads the clock
    twice: every record carries the first reading under [_exportedAt], the
    envelope carries the second one under [exportedAt]. *)
Theorem json_export_reads_clock_twice l elems path w :
  elems <> [] ->
  exists stamped w1,
    processData (VArr l elems) (Some (mkOptions (Some true) None None)) w
    = (Ok stamped, w1) /\
    Forall (fun record =>
              field_value record "_exportedAt" = Data (VStr (clock w (ticks w))))
           stamped /\
    forall w2, ensure_dir path w1 = (Ok tt, w2) ->
      serialize Structured stamped w2
      = (Ok (envelope_text (clock w (S (ticks w))) stamped), allocated 3 (ticked w2)).
Proof.
  intros Hne. rewrite processData_stages. unfold filter_stage, project_stage,
    annotate_stage, ret. simpl.
  destruct (addMetadata_run elems w) as (stamped & -> & Hall).
  exists stamped, (allocated (List.length elems) (ticked w)).
  split; [reflexivity|]. split.
  - clear Hne. induction Hall as [|x y xs ys Hxy _ IH]; constructor; [|exact IH].
    by eapply annotated_exportedAt.
  - intros w2 Hdir.
    pose proof (ensure_dir_keeps path (allocated (List.length elems) (ticked w)))
      as (_ & Hclock & Hticks & _).
    rewrite Hdir in Hclock, Hticks. simpl in Hclock, Hticks.
    unfold serialize, bind, lift. rewrite envelope_run.
    unfold JSONExporter.pretty_text. rewrite envelope_pretty_text.
    + by rewrite Hclock, Hticks.
    + intros ->. apply Forall2_length in Hall. destruct elems; [contradiction|].
      discriminate Hall.
Qed.

End EncoderEdgesMore.

Lemma csv_export_false_on_null_first_element_witness :
  exists w',
    CSVExporter.export (VArr 0 (VNull :: [plain 1 [("id", Data (VNum (Int 1)))]]))
      "/tmp/out.csv" None (MemDisk.world0 MemDisk.empty_disk) = (Ok false, w') /\
    MemDisk.files (fs w') = [].
Proof.
  destruct (csv_export_false_on_null_first_element 0 VNull
              [plain 1 [("id", Data (VNum (Int 1)))]] None "/tmp/out.csv"
              (MemDisk.world0 MemDisk.empty_disk)) as (w' & line & Hrun & _ & Hw').
  - reflexivity.
  - split; [reflexivity|]. split; [by left | discriminate].
  - exists w'. split; [exact Hrun|].
    rewrite (Hw' (with_fs (MemDisk.world0 MemDisk.empty_disk)
                    (MemDisk.mkDisk ["/tmp"; "/"; "."] [] [] 1000))); reflexivity.
Defined.

Lemma json_export_reads_clock_twice_witness :
  exists stamped w1,
    processData (VArr 0 [plain 1 [("id", Data (VNum (Int 1)))]])
      (Some (mkOptions (Some true) None None)) (MemDisk.world0 MemDisk.empty_disk)
    = (Ok stamped, w1) /\
    Forall (fun record => field_value record "_exportedAt" = Data (VStr "t0")) stamped /\
    serialize Structured stamped
      (with_fs w1 (MemDisk.mkDisk ["/tmp"; "/"; "."] [] [] 1000))
    = (Ok (envelope_text "t1" stamped),
       allocated 3 (ticked (with_fs w1 (MemDisk.mkDisk ["/tmp"; "/"; "."] [] [] 1000)))).
Proof.
  destruct (json_export_reads_clock_twice 0 [plain 1 [("id", Data (VNum (Int 1)))]]
              "/tmp/out.json" (MemDisk.world0 MemDisk.empty_disk))
    as (stamped & w1 & Hrun & Hall & Htext).
  - discriminate.
  - exists stamped, w1. split; [exact Hrun|]. split; [exact Hall|].
    apply Htext. vm_compute in Hrun. injection Hrun as _ <-. reflexivity.
Defined.

(* ================================================================== *)
(** * Part XII: further properties of the dispatcher *)
(* ================================================================== *)

Section Registry.
Context `{Runtime}.
Context `{FileSystem Disk}.
Import ExportManager.
Implicit Types (this : @ExportManager Disk) (request : ExportRequest) (w : World Disk).

Lemma dispatch_outcome_ext this this' request w :
  exporters this !! format request = exporters this' !! format request ->
  dispatch_outcome this request w = dispatch_outcome this' request w.
Proof.
  intros Hsame. unfold dispatch_outcome.
  destruct (no_data (data request)); [reflexivity|].
  match goal with
  | |- context [@lookup ?K ?V ?T ?L ?k (exporters this)] =>
      replace (@lookup K V T L k (exporters this))
        with (@lookup K V T L k (exporters this')) by (symmetry; exact Hsame)
  end.
  reflexivity.
Qed.

(** X15: [registerExporter] overwrites: the format maps to the exporter
    registered last, an earlier registration under the same format leaves
    no trace, and requests for any other format are served as before. *)
Theorem registerExporter_last_wins this f (e e' : Exporter) request w :
  exporters (registerExporter f e this) !! f = Some e /\
  registerExporter f e (registerExporter f e' this) = registerExporter f e this /\
  (format request <> f ->
   export (registerExporter f e this) request w = export this request w) /\
  (format request = f ->
   export (registerExporter f e this) request w
   = export (mkManager {[ f := e ]}) request w).
Proof.
  split; [|split; [|split]].
  - unfold registerExporter. simpl. apply lookup_insert_eq.
  - unfold registerExporter. simpl. f_equal. apply insert_insert_eq.
  - intros Hne. rewrite !export_dispatch. apply dispatch_outcome_ext.
    unfold registerExporter. simpl. by apply lookup_insert_ne.
  - intros <-. rewrite !export_dispatch. apply dispatch_outcome_ext.
    unfold registerExporter. simpl.
    by rewrite lookup_insert_eq, lookup_singleton_eq.
Qed.

Lemma encoder_export_returns v (data : value) path options w :
  exists outcome w', encoder_export v data path options w = (Ok outcome, w').
Proof.
  rewrite export_run.
  destruct (encoder_try v data path options w) as [[outcome|e] w']; eauto.
Qed.

Lemma dispatch_outcome_registered this request (e : Exporter) w :
  no_data (data request) = false ->
  exporters this !! format request = Some e ->
  (exists outcome w',
     e (data request) (outputPath request) (options request) w = (Ok outcome, w')) ->
  dispatch_outcome this request w
  = e (data request) (outputPath request) (options request) w.
Proof.
  intros Hdata Hfound (outcome & w' & Hrun). unfold dispatch_outcome. rewrite Hdata.
  match goal with
  | |- context [@lookup ?K ?V ?T ?L ?k ?m] =>
      replace (@lookup K V T L k m) with (@Some V e) by (symmetry; exact Hfound)
  end.
  by rewrite Hrun.
Qed.

(** X16: the manager the constructor builds serves exactly three formats:
    a csv request on non-empty data is what [CSVExporter.export] does, a
    json request what [JSONExporter.export] does, and any format other than
    csv, json and pdf returns false with the format logged. *)
Theorem new_ExportManager_dispatch (pdf : Exporter) request w :
  no_data (data request) = false ->
  (format request = "csv" ->
   export (new_ExportManager pdf) request w
   = CSVExporter.export (data request) (outputPath request) (options request) w) /\
  (format request = "json" ->
   export (new_ExportManager pdf) request w
   = JSONExporter.export (data request) (outputPath request) (options request) w) /\
  (format request <> "csv" -> format request <> "json" -> format request <> "pdf" ->
   export (new_ExportManager pdf) request w
   = (Ok false, logged Err ("Unsupported export format: " +:+ format request) w)).
Proof.
  intros Hdata. split; [|split].
  - intros Hf. rewrite export_dispatch.
    apply dispatch_outcome_registered; [exact Hdata | |].
    + rewrite Hf. unfold new_ExportManager, registerExporter, PDF, JSON, CSV. simpl.
      rewrite !lookup_insert_ne by discriminate. apply lookup_insert_eq.
    + apply (encoder_export_returns Tabular).
  - intros Hf. rewrite export_dispatch.
    apply dispatch_outcome_registered; [exact Hdata | |].
    + rewrite Hf. unfold new_ExportManager, registerExporter, PDF, JSON, CSV. simpl.
      rewrite lookup_insert_ne by discriminate. apply lookup_insert_eq.
    + apply (encoder_export_returns Structured).
  - intros Hcsv Hjson Hpdf. rewrite export_dispatch. unfold dispatch_outcome.
    rewrite Hdata.
    assert (Hnone : exporters (new_ExportManager pdf) !! format request = None).
    { unfold new_ExportManager, registerExporter, PDF, JSON, CSV. simpl.
      rewrite !lookup_insert_ne by congruence. apply lookup_empty. }
    match goal with
    | |- context [@lookup ?K ?V ?T ?L ?k ?m] =>
        replace (@lookup K V T L k m) with (@None V) by (symmetry; exact Hnone)
    end.
    reflexivity.
Qed.

Lemma exportMultiple_loop_no_data this (data : value) basePath kinds options
    l results w :
  no_data data = true ->
  has_own results "__proto__" = false ->
  exportMultiple_loop this data basePath kinds options (plain l results) w
  = (Ok (plain l (collect kinds (repeat false (List.length kinds)) results)),
     mkWorld (fs w) (clock w) (ticks w) (next_loc w)
       (log w ++ repeat (Err, "No data to export") (List.length kinds))).
Proof.
  intros Hdata. revert results w.
  induction kinds as [|kind ks IH]; intros results w Hno.
  - simpl. unfold ret. rewrite app_nil_r. by destruct w.
  - cbn [exportMultiple_loop]. unfold bind. rewrite export_dispatch.
    unfold dispatch_outcome. cbn [ExportManager.data]. rewrite Hdata.
    cbv beta iota. rewrite (set_prop_boolean _ _ _ _ Hno), IH.
    + simpl. by rewrite <- app_assoc.
    + apply has_own_false. rewrite collect_step_keys. apply has_own_false in Hno.
      intros [?|[-> ?]]; done.
Qed.

(** X17: on null, non-array or empty data [exportMultiple] runs no encoder:
    every requested kind other than [__proto__] maps to false, one error
    line is logged per kind, and the disk is untouched. *)
Theorem exportMultiple_no_data this (data : value) basePath kinds options w :
  no_data data = true ->
  exists results w',
    exportMultiple this data basePath kinds options w
    = (Ok (plain (next_loc w) results), w') /\
    fs w' = fs w /\
    log w' = log w ++ repeat (Err, "No data to export") (List.length kinds) /\
    (forall k, k ∈ kinds -> k <> "__proto__" ->
       get_own results k = Some (Data (VBool false))).
Proof.
  intros Hdata. unfold exportMultiple, bind, alloc.
  rewrite (exportMultiple_loop_no_data this data basePath kinds options (next_loc w) []
             _ Hdata eq_refl).
  eexists _, _. split; [reflexivity|]. split; [reflexivity|]. split; [reflexivity|].
  intros k Hin Hk.
  destruct (collect_false kinds (repeat false (List.length kinds)) [] k Hk)
    as [?|[_ Hout]]; [| by right | done | done].
  clear. induction kinds as [|kind ks IH]; simpl; constructor; auto.
Qed.

End Registry.

Lemma new_ExportManager_dispatch_witness :
  ExportManager.export (ExportManager.new_ExportManager (fun _ _ _ => ret false))
    (ExportManager.mkRequest alice_bob "xml" "/tmp/out.xml" None)
    (MemDisk.world0 MemDisk.empty_disk)
  = (Ok false, logged Err "Unsupported export format: xml"
                 (MemDisk.world0 MemDisk.empty_disk)).
Proof.
  apply (new_ExportManager_dispatch (fun _ _ _ => ret false)
           (ExportManager.mkRequest alice_bob "xml" "/tmp/out.xml" None)).
  - reflexivity.
  - discriminate.
  - discriminate.
  - discriminate.
Defined.

Lemma exportMultiple_no_data_witness :
  exists results w',
    ExportManager.exportMultiple two_encoders VNull "/out" ["csv"; "json"] None
      (MemDisk.world0 MemDisk.empty_disk) = (Ok (plain 100 results), w') /\
    fs w' = MemDisk.empty_disk /\
    get_own results "json" = Some (Data (VBool false)).
Proof.
  destruct (exportMultiple_no_data two_encoders VNull "/out" ["csv"; "json"] None
              (MemDisk.world0 MemDisk.empty_disk))
    as (results & w' & Hrun & Hfs & _ & Hall).
  - reflexivity.
  - exists results, w'. split; [exact Hrun|]. split; [exact Hfs|].
    apply Hall; [set_solver | discriminate].
Defined.

(* ================================================================== *)
(** * Part XIII: the data export service *)
(* ================================================================== *)

Section Service.
Context `{Runtime}.
Import DataExportService.
Context `{FileSystem Disk} `{!Surroundings Disk}.
Implicit Types (w : World Disk) (request : DataExportRequest)
  (manager : @ExportManager.ExportManager Disk).

(** The service, step by step. *)
Lemma exportData_run manager request w :
  exportData manager request w =
  match fetch request w with
  | (Throw e, w1) => caught e w1
  | (Ok data, w1) =>
      if nothing_found data then (Ok (not_found_response request), w1)
      else
        match ensure_exists tempDir w1 with
        | (Throw e, w2) => caught e w2
        | (Ok _, w2) =>
            match uuidv4 w2 with
            | (Throw e, w3) => caught e w3
            | (Ok uuid, w3) =>
                match dispatch_outcome manager
                        (ExportManager.mkRequest data (format request)
                           (target_of request uuid) (options request)) w3 with
                | (Ok true, w4) =>
                    (Ok (exported_response request data (target_of request uuid)), w4)
                | (Ok false, w4) => (Ok (failed_response request), w4)
                | (Throw e, w4) => caught e w4
                end
            end
        end
  end.
Proof.
  unfold exportData, try_catch, exportData_try, bind, fetch, caught, exportData_catch,
    ret, logger_log, error_response.
  destruct (getEntityData _ _ _ w) as [[data|e] w1]; [|reflexivity].
  destruct (nothing_found data); [reflexivity|].
  destruct (ensure_exists tempDir w1) as [[[]|e] w2]; [|reflexivity].
  destruct (uuidv4 w2) as [[uuid|e] w3]; [|reflexivity].
  fold (target_of request uuid). rewrite export_dispatch.
  destruct (dispatch_outcome _ _ w3) as [[[|]|e] w4]; reflexivity.
Qed.

(** X18: [exportData] never throws.  It reports success exactly when the
    data was found, the temporary directory and the uuid were obtained and
    the manager's export returned true; the response then names the target
    the export was given.  A response without success names no file. *)
Theorem exportData_never_throws manager request w :
  exists response w',
    exportData manager request w = (Ok response, w') /\
    (success response = true <->
     exists data w1 w2 uuid w3,
       fetch request w = (Ok data, w1) /\
       nothing_found data = false /\
       ensure_exists tempDir w1 = (Ok tt, w2) /\
       uuidv4 w2 = (Ok uuid, w3) /\
       ExportManager.export manager
         (ExportManager.mkRequest data (format request) (target_of request uuid)
            (options request)) w3 = (Ok true, w') /\
       response = exported_response request data (target_of request uuid)) /\
    (success response = false -> filePath response = None).
Proof.
  rewrite exportData_run. unfold caught.
  destruct (fetch request w) as [[data|e] w1].
  2: { eexists _, _. split; [reflexivity|]. split; [|reflexivity].
       split; [discriminate | intros (? & ? & ? & ? & ? & Hf & _); discriminate]. }
  destruct (nothing_found data) eqn:Hfound.
  { eexists _, _. split; [reflexivity|]. split; [|reflexivity].
    split; [discriminate|].
    intros (? & ? & ? & ? & ? & Hf & Hn & _). injection Hf as <- <-. congruence. }
  destruct (ensure_exists tempDir w1) as [[[]|e] w2] eqn:Hdir.
  2: { eexists _, _. split; [reflexivity|]. split; [|reflexivity].
       split; [discriminate|].
       intros (? & ? & ? & ? & ? & Hf & _ & Hd & _). injection Hf as <- <-.
       rewrite Hdir in Hd. discriminate. }
  destruct (uuidv4 w2) as [[uuid|e] w3] eqn:Huuid.
  2: { eexists _, _. split; [reflexivity|]. split; [|reflexivity].
       split; [discriminate|].
       intros (? & ? & ? & ? & ? & Hf & _ & Hd & Hu & _). injection Hf as <- <-.
       rewrite Hdir in Hd. injection Hd as <-. rewrite Huuid in Hu. discriminate. }
  rewrite <- export_dispatch.
  destruct (dispatch_outcome_returns manager
              (ExportManager.mkRequest data (format request) (target_of request uuid)
                 (options request)) w3) as (outcome & w4 & Hout).
  rewrite <- export_dispatch in Hout. rewrite Hout.
  destruct outcome.
  - eexists _, _. split; [reflexivity|]. split; [|discriminate].
    split; [|reflexivity]. intros _.
    exists data, w1, w2, uuid, w3. by repeat split.
  - eexists _, _. split; [reflexivity|]. split; [|reflexivity].
    split; [discriminate|].
    intros (? & ? & ? & ? & ? & Hf & _ & Hd & Hu & He & _). injection Hf as <- <-.
    rewrite Hdir in Hd. injection Hd as <-. rewrite Huuid in Hu.
    injection Hu as <- <-. rewrite Hout in He. discriminate.
Qed.


(** X20: the manager's export cannot make the service fail: [exportData]
    takes its [catch] block only when fetching the data, creating the
    temporary directory or drawing the uuid throws; the response then
    carries the error's message and the error is logged. *)
Theorem exportData_catches manager request w e w' :
  exportData_try manager request w = (Throw e, w') ->
  exportData manager request w = caught e w' /\
  (fetch request w = (Throw e, w') \/
   exists data w1,
     fetch request w = (Ok data, w1) /\ nothing_found data = false /\
     (ensure_exists tempDir w1 = (Throw e, w') \/
      exists w2, ensure_exists tempDir w1 = (Ok tt, w2) /\ uuidv4 w2 = (Throw e, w'))).
Proof.
  intros Htry. split.
  { unfold exportData, try_catch. rewrite Htry.
    unfold exportData_catch, caught, bind, logger_log, ret. reflexivity. }
  unfold exportData_try, bind in Htry. fold (fetch request) in Htry.
  destruct (fetch request w) as [[data|e0] w1];
    [|left; by injection Htry as -> ->].
  right. exists data, w1. split; [reflexivity|].
  destruct (nothing_found data); [discriminate Htry|]. split; [reflexivity|].
  destruct (ensure_exists tempDir w1) as [[[]|e1] w2];
    [|left; by injection Htry as -> ->].
  right. exists w2. split; [reflexivity|].
  destruct (uuidv4 w2) as [[uuid|e2] w3]; [|by injection Htry as -> ->].
  exfalso. rewrite export_dispatch in Htry.
  destruct (dispatch_outcome_returns manager
              (ExportManager.mkRequest data (format request)
                 (path_join tempDir
                    ((entityType request
                      +:+ if_given (entityId request) (fun id => "-" +:+ id)
                      +:+ "-" +:+ uuid) +:+ "." +:+ format request))
                 (options request)) w3) as (outcome & w4 & Hout).
  rewrite Hout in Htry. destruct outcome; discriminate Htry.
Qed.

Lemma nothing_found_nonempty l elems :
  elems <> [] -> nothing_found (VArr l elems) = false.
Proof.
  destruct elems as [|first rest]; [contradiction|]. intros _.
  unfold nothing_found, length_of, reads_as. simpl.
  unfold Int, significand.
  destruct (Z.eqb_spec (Z.pos (Pos.of_succ_nat (List.length rest))) 0) as [Hz|_];
    [discriminate|].
  by destruct (trailing_zeros _) as [ds z].
Qed.

(** X21: the count in the success message is the number of records
    fetched, whatever the options: when a filter keeps fewer records, the
    message still counts them all. *)
Theorem exportData_counts_fetched_records manager request w l elems w1 w2 uuid w3 w4 :
  fetch request w = (Ok (VArr l elems), w1) ->
  elems <> [] ->
  ensure_exists tempDir w1 = (Ok tt, w2) ->
  uuidv4 w2 = (Ok uuid, w3) ->
  ExportManager.export manager
    (ExportManager.mkRequest (VArr l elems) (format request) (target_of request uuid)
       (options request)) w3 = (Ok true, w4) ->
  exportData manager request w
  = (Ok (mkResponse true (Some (target_of request uuid))
           (Some ("Successfully exported "
                  +:+ Number_toString (Int (Z.of_nat (List.length elems)))
                  +:+ " records to " +:+ toUpperCase (format request)))
           None), w4).
Proof.
  intros Hfetch Hne Hdir Huuid Hexport.
  rewrite exportData_run, Hfetch.
  rewrite (nothing_found_nonempty l elems Hne), Hdir, Huuid, <- export_dispatch, Hexport.
  reflexivity.
Qed.

End Service.


Lemma exportData_catches_witness :
  @DataExportService.exportData _ _ _ (MemService.answering (Throw (Error "database down")))
    two_encoders
    (DataExportService.mkExportRequest "tool" None "json" None None)
    (MemDisk.world0 MemDisk.empty_disk)
  = (Ok (DataExportService.mkResponse false None None (Some "database down")),
     logged Err "Error in exportData: database down" (MemDisk.world0 MemDisk.empty_disk)).
Proof.
  destruct (@exportData_catches _ _ _ (MemService.answering (Throw (Error "database down")))
              two_encoders
              (DataExportService.mkExportRequest "tool" None "json" None None)
              (MemDisk.world0 MemDisk.empty_disk) (Error "database down")
              (MemDisk.world0 MemDisk.empty_disk)) as [Hrun _].
  - reflexivity.
  - exact Hrun.
Defined.

Lemma exportData_counts_fetched_records_witness :
  exists w',
    @DataExportService.exportData _ _ _ (MemService.answering (Ok (VArr 0 active_inactive)))
      two_encoders
      (DataExportService.mkExportRequest "chatflow" None "csv"
         (Some (mkOptions None None (Some [("status", VStr "active")]))) None)
      (MemDisk.world0 MemDisk.empty_disk)
    = (Ok (DataExportService.mkResponse true
             (Some "/tmp/flowise-exports/chatflow-uuid-1.csv")
             (Some "Successfully exported 2 records to CSV") None), w') /\
    get_own (MemDisk.files (fs w')) "/tmp/flowise-exports/chatflow-uuid-1.csv"
    = Some (String.concat NL ["id,status"; "1," +:+ DQ +:+ "active" +:+ DQ]).
Proof.
  eexists. split.
  - etransitivity.
    + eapply (@exportData_counts_fetched_records _ _ _
                (MemService.answering (Ok (VArr 0 active_inactive))) two_encoders
                (DataExportService.mkExportRequest "chatflow" None "csv"
                   (Some (mkOptions None None (Some [("status", VStr "active")]))) None)
                (MemDisk.world0 MemDisk.empty_disk) 0 active_inactive
                (MemDisk.world0 MemDisk.empty_disk)
                (with_fs (MemDisk.world0 MemDisk.empty_disk)
                   (MemDisk.mkDisk ["/tmp/flowise-exports"; "/"; "."] [] [] 1000))
                "uuid-1"
                (with_fs (MemDisk.world0 MemDisk.empty_disk)
                   (MemDisk.mkDisk ["/tmp/flowise-exports"; "/"; "."] [] [] 1000))).
      * reflexivity.
      * discriminate.
      * reflexivity.
      * reflexivity.
      * vm_compute. reflexivity.
    + reflexivity.
  - reflexivity.
Defined.

(* ================================================================== *)
(** * Part XIV: records end to end *)
(* ================================================================== *)

Section RecordsEndToEnd.
Context `{Runtime}.
Context `{FileSystem Disk}.
Implicit Types (w : World Disk) (v : variant) (path : string).

Lemma serialize_records v records w :
  Forall is_record records -> records <> [] ->
  exists text w', serialize v records w = (Ok text, w').
Proof.
  intros Hrec Hne. destruct v.
  - destruct records as [|first rest]; [contradiction|].
    inversion Hrec as [|? ? Hfirst _]; subst.
    destruct first; try discriminate Hfirst.
    unfold serialize, lift. simpl. rewrite convertToCSV_text by exact Hrec. eauto.
  - unfold serialize, bind, lift. rewrite envelope_run.
    unfold JSONExporter.pretty_text. rewrite envelope_pretty_text by exact Hne. eauto.
Qed.

(** X22: on an array of records neither encoder can fail in the pipeline or
    in serialization: the transformed collection exists and consists of
    records, its text exists when it is not empty, and [export] returns
    false only when the collection is empty, or creating the directory or
    writing the file throws. *)
Theorem export_on_records_fails_only_on_io v l data options path w :
  Forall is_record data ->
  exists records w1,
    processData (VArr l data) options w = (Ok records, w1) /\
    Forall is_record records /\
    (records <> [] -> forall w2, exists text w3,
       serialize v records w2 = (Ok text, w3)) /\
    (forall w', encoder_export v (VArr l data) path options w = (Ok false, w') ->
       records = [] \/
       (exists e w2, ensure_dir path w1 = (Throw e, w2)) \/
       (exists w2 text w3 e d,
          ensure_dir path w1 = (Ok tt, w2) /\
          serialize v records w2 = (Ok text, w3) /\
          writeFileSync (fs w3) path text = (Throw e, d))).
Proof.
  intros Hdata.
  destruct (processData_total_on_records_aux l data options w Hdata)
    as (records & w1 & Hrun & Hrec).
  exists records, w1. split; [exact Hrun|]. split; [exact Hrec|]. split.
  - intros Hne w2. by apply serialize_records.
  - intros w' Hfalse. rewrite export_run, try_block_run, Hrun in Hfalse.
    destruct (Nat.eqb (List.length records) 0) eqn:E.
    { left. by apply length_zero_nil. }
    right. assert (Hne : records <> []).
    { intros ->. discriminate E. }
    destruct (ensure_dir path w1) as [[[]|e] w2]; [|left; eauto].
    right. destruct (serialize_records v records w2 Hrec Hne) as (text & w3 & Hser).
    rewrite Hser in Hfalse.
    destruct (writeFileSync (fs w3) path text) as [[[]|e] d] eqn:Hwrite; [discriminate|].
    exists w2, text, w3, e, d. auto.
Qed.

End RecordsEndToEnd.

Lemma export_on_records_fails_only_on_io_witness :
  exists records w1,
    processData (VArr 0 active_inactive)
      (Some (mkOptions None None (Some [("status", VStr "active")])))
      (MemDisk.world0 MemDisk.empty_disk) = (Ok records, w1) /\
    Forall is_record records /\
    exists text w3,
      serialize Tabular records (MemDisk.world0 MemDisk.empty_disk) = (Ok text, w3).
Proof.
  destruct (export_on_records_fails_only_on_io Tabular 0 active_inactive
              (Some (mkOptions None None (Some [("status", VStr "active")])))
              "/tmp/out.csv" (MemDisk.world0 MemDisk.empty_disk))
    as (records & w1 & Hrun & Hrec & Htext & _).
  - repeat constructor.
  - exists records, w1. split; [exact Hrun|]. split; [exact Hrec|].
    apply Htext. vm_compute in Hrun. injection Hrun as <- _. discriminate.
Defined.

(* ================================================================== *)
(** * Part XV: projecting twice *)
(* ================================================================== *)


Section ProjectTwice.
Context `{Runtime}.

Lemma js_ordered_head_index k ks :
  is_index k = true -> js_ordered (k :: ks) ->
  exists i, array_index k = Some i /\
    Forall (fun k' => forall j, array_index k' = Some j -> (i < j)%N) ks /\
    js_ordered ks.
Proof.
  intros Hk Hord. inversion Hord as [? Hnames|? i ? Hi Hsmall Hrest]; subst.
  - inversion Hnames; subst. congruence.
  - eauto.
Qed.

(** The order of the names of a JavaScript object is determined by the
    names and by the order of those that are not array indices. *)
Lemma js_ordered_unique a b :
  js_ordered a -> js_ordered b -> NoDup a -> NoDup b ->
  (forall k, k ∈ a <-> k ∈ b) ->
  names_only a = names_only b ->
  a = b.
Proof.
  intros Ha. revert b. induction Ha as [a Hnames|k i a Hi Hsmall Ha IH];
    intros b Hb Hnda Hndb Hsame Hnm.
  - assert (Hb_names : Forall (fun k => is_index k = false) b).
    { apply Forall_forall. intros k Hk. apply Hsame in Hk.
      rewrite Forall_forall in Hnames. by apply Hnames. }
    by rewrite <- (names_only_all a Hnames), <- (names_only_all b Hb_names).
  - assert (Hk : is_index k = true) by (apply is_index_true; eauto).
    destruct b as [|k' b].
    { assert (Hin : k ∈ @nil string) by (apply Hsame; left). inversion Hin. }
    assert (Hk' : is_index k' = true).
    { destruct (is_index k') eqn:E; [reflexivity|]. exfalso.
      inversion Hb as [? Hn|? ? ? Hj _ _]; subst.
      - assert (Hin : k ∈ k' :: b) by (apply Hsame; left).
        rewrite Forall_forall in Hn. specialize (Hn k Hin). congruence.
      - apply is_index_false in E. congruence. }
    destruct (js_ordered_head_index k' b Hk' Hb) as (j & Hj & Hsmall' & Hb').
    assert (Heq : k = k').
    { destruct (decide (k = k')) as [|Hne]; [assumption|]. exfalso.
      assert (Hin : k ∈ k' :: b) by (apply Hsame; left).
      apply elem_of_cons in Hin as [?|Hin]; [contradiction|].
      assert (Hin' : k' ∈ k :: a) by (apply Hsame; left).
      apply elem_of_cons in Hin' as [?|Hin']; [by subst|].
      rewrite Forall_forall in Hsmall, Hsmall'.
      specialize (Hsmall k' Hin' j Hj). specialize (Hsmall' k Hin i Hi). lia. }
    subst k'. f_equal.
    apply NoDup_cons in Hnda as [Hka Hnda]. apply NoDup_cons in Hndb as [Hkb Hndb].
    apply IH; try assumption.
    + intros x. specialize (Hsame x). rewrite !elem_of_cons in Hsame.
      split; intros Hx.
      * destruct (proj1 Hsame (or_intror Hx)) as [->|?]; [contradiction | assumption].
      * destruct (proj2 Hsame (or_intror Hx)) as [->|?]; [contradiction | assumption].
    + unfold names_only in *. simpl in Hnm. by rewrite Hk in Hnm.
Qed.

(** Own properties are determined by their names, in order, and by the
    value under each name. *)
Lemma props_ext {A} (a b : props A) :
  own_keys a = own_keys b -> NoDup (own_keys a) ->
  (forall k, get_own a k = get_own b k) -> a = b.
Proof.
  revert b. induction a as [|[k v] a IH]; intros [|[k' v'] b] Hkeys Hnd Hget;
    try discriminate; [reflexivity|].
  simpl in Hkeys. injection Hkeys as <- Hkeys.
  apply NoDup_cons in Hnd as [Hk Hnd].
  pose proof (Hget k) as Hv. simpl in Hv. rewrite String.eqb_refl in Hv.
  injection Hv as <-. f_equal. apply IH; [assumption..|].
  intros x. destruct (String.eqb_spec k x) as [<-|Hne].
  - assert (Ha : get_own a k = None) by (by apply get_own_None, has_own_false).
    assert (Hb : get_own b k = None).
    { apply get_own_None, has_own_false. by rewrite <- Hkeys. }
    congruence.
  - specialize (Hget x). simpl in Hget.
    apply String.eqb_neq in Hne. by rewrite Hne in Hget.
Qed.

Lemma held_idem key f : held key (held key f) = held key f.
Proof.
  destruct f as [v|home|k]; simpl; try reflexivity.
  destruct (method_text home key) eqn:E; simpl; [by rewrite E | reflexivity].
Qed.

Lemma from_prototype_held k key f :
  from_prototype k key = Found f -> held key f = f.
Proof.
  unfold from_prototype, at_prototype, held, method_text.
  destruct (String.eqb key "__proto__") eqn:Ek.
  { destruct k; discriminate. }
  assert (Hm : forall home, has_own (methods home) key = true ->
                 exists text, get_own (methods home) key = Some text).
  { intros home. unfold has_own. destruct (get_own (methods home) key); [eauto | discriminate]. }
  destruct (has_own (methods k) key) eqn:E1.
  - intros [= <-]. destruct (Hm k E1) as [text ->]. reflexivity.
  - destruct (has_own (methods KObject) key) eqn:E2.
    + destruct (Hm KObject E2) as [text Htext].
      destruct k; try (destruct (String.eqb key "length")); intros [= <-];
        rewrite ?Htext; reflexivity.
    + destruct k; try (destruct (String.eqb key "length")); intros [= <-];
        try reflexivity; congruence.
Qed.

(** What a read gives is held as it is. *)
Lemma search_held v key f : search v key = Found f -> held key f = f.
Proof.
  induction v as [| | | |s|l proto own IHp IHo|l elems IH] using value_ind; simpl;
    try discriminate; try apply from_prototype_held.
  - destruct (own_indexed (chars s) key); [by intros [= <-] | apply from_prototype_held].
  - destruct (get_own own key); [intros [= <-]; apply held_idem|].
    destruct proto as [|k|p]; [discriminate | apply from_prototype_held | exact IHp].
  - destruct (own_indexed elems key); [by intros [= <-] | apply from_prototype_held].
Qed.

Lemma field_value_held v key : held key (field_value v key) = field_value v key.
Proof.
  unfold field_value. destruct (search v key) as [f| |] eqn:E.
  - by eapply search_held.
  - by destruct v as [| | | | |l [|k|p] own|].
  - reflexivity.
Qed.

(** A plain object has a field when it is its own or one every object
    inherits. *)
Lemma has_field_plain l own k :
  has_field (plain l own) k = has_own own k || bool_decide (k ∈ inherited_names).
Proof.
  unfold has_field, has_own, plain. simpl. destruct (get_own own k); [reflexivity|].
  unfold from_prototype, at_prototype. simpl.
  destruct (String.eqb_spec k "__proto__") as [->|Hne]; [reflexivity|].
  destruct (has_own Object_prototype_methods k) eqn:E.
  - rewrite bool_decide_eq_true_2; [reflexivity|]. apply inherited_names_spec. by right.
  - rewrite bool_decide_eq_false_2; [reflexivity|].
    rewrite inherited_names_spec. intros [?|?]; congruence.
Qed.

(** The own properties the loop builds, when [__proto__] is not selected. *)
Lemma select_own_fold record selection :
  "__proto__" ∉ selection ->
  let sel := fold_left (select_own record) selection [] in
  (forall k, k ∈ own_keys sel <-> k ∈ selection /\ has_field record k = true) /\
  (forall k, k ∈ own_keys sel -> get_own sel k = Some (field_value record k)) /\
  NoDup (own_keys sel) /\ js_ordered (own_keys sel).
Proof.
  intros Hno sel.
  pose proof (select_fold_own record selection 0 (Standard KObject) [] Hno) as Heq.
  pose proof (select_fold_keys record selection 0 (Standard KObject) []) as Hkeys.
  pose proof (select_fold_get record selection 0 (Standard KObject) []) as Hget.
  pose proof (select_fold_NoDup record selection 0 (Standard KObject) []) as Hnd.
  pose proof (select_fold_ordered record selection 0 (Standard KObject) []) as Hord.
  rewrite Heq in *. simpl in *. fold sel in Hkeys, Hget, Hnd, Hord.
  assert (Hin : forall k, k ∈ own_keys sel -> k ∈ selection /\ k <> "__proto__").
  { intros k Hk. apply select_own_keys in Hk as [Hk|Hk]; [inversion Hk|].
    split; [exact Hk | by intros ->]. }
  split; [|split; [|split]].
  - intros k. split.
    + intros Hk. destruct (Hin k Hk) as [_ Hne]. apply (Hkeys k Hne) in Hk as [Hk|Hk];
        [inversion Hk | exact Hk].
    + intros [Hk Hhas]. assert (Hne : k <> "__proto__") by (by intros ->).
      apply (Hkeys k Hne). by right.
  - intros k Hk. destruct (Hin k Hk) as [Hsel Hne].
    apply (Hkeys k Hne) in Hk as [Hk|[_ Hhas]]; [inversion Hk|]. by apply Hget.
  - apply Hnd. constructor.
  - apply Hord, ordered_names. constructor.
Qed.

(** Projecting the projection of a plain record gives the same fields. *)
Lemma select_own_fixed l own l' selection :
  "__proto__" ∉ selection ->
  let sel := fold_left (select_own (plain l own)) selection [] in
  fold_left (select_own (plain l' sel)) selection [] = sel.
Proof.
  intros Hno sel. set (again := fold_left (select_own (plain l' sel)) selection []).
  destruct (select_own_fold (plain l own) selection Hno)
    as (Hsel_keys & Hsel_get & Hsel_nd & Hsel_ord).
  destruct (select_own_fold (plain l' sel) selection Hno)
    as (Hagain_keys & Hagain_get & Hagain_nd & Hagain_ord).
  fold sel in Hsel_keys, Hsel_get, Hsel_nd, Hsel_ord.
  fold again in Hagain_keys, Hagain_get, Hagain_nd, Hagain_ord.
  assert (Hhas : forall k, k ∈ selection ->
            has_field (plain l' sel) k = has_field (plain l own) k).
  { intros k Hk. rewrite (has_field_plain l' sel).
    destruct (has_field (plain l own) k) eqn:E.
    - assert (Hown : has_own sel k = true) by (apply has_own_keys, Hsel_keys; by split).
      by rewrite Hown.
    - assert (Hown : has_own sel k = false).
      { apply has_own_false. intros Hin. apply Hsel_keys in Hin as [_ ?]. congruence. }
      rewrite Hown. rewrite has_field_plain in E.
      apply orb_false_iff in E as [_ ->]. reflexivity. }
  assert (Hsame : forall k, k ∈ own_keys again <-> k ∈ own_keys sel).
  { intros k. rewrite Hagain_keys, Hsel_keys. split; intros [Hk Hf]; (split; [exact Hk|]).
    - by rewrite <- (Hhas k Hk).
    - by rewrite (Hhas k Hk). }
  assert (Hkeys : own_keys again = own_keys sel).
  { apply js_ordered_unique; try assumption.
    unfold again, sel. rewrite !select_fold_names. simpl. do 2 f_equal.
    apply filter_ext_in. intros k Hin. apply list_elem_of_In in Hin. by apply Hhas. }
  apply props_ext; [exact Hkeys | exact Hagain_nd|].
  intros k. destruct (has_own sel k) eqn:E.
  - apply has_own_keys in E. rewrite (Hagain_get k) by (by apply Hsame).
    rewrite (Hsel_get k E). f_equal.
    unfold field_value at 1, plain. simpl. rewrite (Hsel_get k E).
    apply field_value_held.
  - assert (Hout : k ∉ own_keys again).
    { rewrite Hsame. by apply has_own_false. }
    apply has_own_false, get_own_None in Hout. apply get_own_None in E. congruence.
Qed.

Context {Disk : Type}.

(** Without [__proto__] in the selection the projections are plain objects,
    with the own properties the loop defines. *)
Lemma selectFields_fields data selection (w : World Disk) :
  Forall is_record data ->
  "__proto__" ∉ selection ->
  exists projected,
    selectFields data selection w = (Ok projected, allocated (List.length data) w) /\
    Forall2 (fun record output =>
               exists l, output = plain l (fold_left (select_own record) selection []))
            data projected.
Proof.
  intros Hrec Hno. revert w. induction Hrec as [|record rest Hr _ IH]; intros w.
  - exists []. split; [by destruct w | constructor].
  - destruct (IH (allocated 1 w)) as (tail & Hrun & Hfields).
    exists (plain (next_loc w) (fold_left (select_own record) selection []) :: tail).
    split.
    + unfold selectFields in *. rewrite mapM_cons, (select_item_record _ _ _ Hr), Hrun.
      unfold plain. rewrite (select_fold_own _ _ _ _ _ Hno). by rewrite allocated_succ.
    + constructor; [eauto | exact Hfields].
Qed.

(** X24: on plain records and for a selection that does not name
    [__proto__], projecting a second time with the same selection changes
    no field: the records [selectFields] returns are fixed points of the
    projection, names, order and values alike. *)
Theorem selectFields_idempotent data selection (w : World Disk) :
  Forall is_plain data ->
  "__proto__" ∉ selection ->
  exists once twice w1 w2,
    selectFields data selection w = (Ok once, w1) /\
    selectFields once selection w1 = (Ok twice, w2) /\
    Forall is_plain once /\
    map fields_of twice = map fields_of once.
Proof.
  intros Hplain Hno.
  assert (Hrec : Forall is_record data).
  { eapply Forall_impl; [exact Hplain|]. by intros x (l & own & ->). }
  destruct (selectFields_fields data selection w Hrec Hno) as (once & Hrun & Hfields).
  assert (Honce : Forall is_record once).
  { clear -Hfields. induction Hfields as [|x y xs ys (l & ->) _ IH]; constructor;
      [reflexivity | exact IH]. }
  destruct (selectFields_fields once selection (allocated (List.length data) w)
              Honce Hno) as (twice & Hrun2 & Hfields2).
  exists once, twice. eexists _, _. split; [exact Hrun|]. split; [exact Hrun2|].
  clear Hrun Hrun2 Hrec Honce. revert twice Hfields2.
  induction Hfields as [|x y xs ys (l & ->) Hrest IH]; intros twice Hfields2.
  - inversion Hfields2. split; [constructor | reflexivity].
  - inversion Hfields2 as [|? z ? zs (l' & ->) Hrest2]; subst.
    apply Forall_cons in Hplain as [(lx & own & ->) Hplain].
    destruct (IH Hplain zs Hrest2) as [Hpl Heq]. split.
    + constructor; [by eexists _, _ | exact Hpl].
    + simpl. f_equal; [|exact Heq]. unfold plain at 1 3. simpl.
      by apply select_own_fixed.
Qed.

End ProjectTwice.

Lemma selectFields_idempotent_witness :
  exists once twice w1 w2,
    selectFields [plain 1 [("0", Data (VStr "zero")); ("b", Data (VStr "bee"));
                           ("c", Data VNull)]]
      ["b"; "0"; "toString"; "b"] (MemDisk.world0 MemDisk.empty_disk) = (Ok once, w1) /\
    selectFields once ["b"; "0"; "toString"; "b"] w1 = (Ok twice, w2) /\
    map fields_of twice
    = [[("0", Data (VStr "zero")); ("b", Data (VStr "bee")); ("toString", Inherited KObject)]].
Proof.
  destruct (selectFields_idempotent
              [plain 1 [("0", Data (VStr "zero")); ("b", Data (VStr "bee"));
                        ("c", Data VNull)]]
              ["b"; "0"; "toString"; "b"] (MemDisk.world0 MemDisk.empty_disk))
    as (once & twice & w1 & w2 & Hrun & Hrun2 & _ & Hsame).
  - repeat constructor. by eexists _, _.
  - repeat (apply not_elem_of_cons; split; [discriminate|]). apply not_elem_of_nil.
  - exists once, twice, w1, w2. split; [exact Hrun|]. split; [exact Hrun2|].
    rewrite Hsame. vm_compute in Hrun. injection Hrun as <- _. reflexivity.
Defined.
